(** * Scraper-html: the classification and extraction core of [scraper.js]

    A shallow embedding of the first implementation in [src/scraper.js]
    (lines 1-1142): [normalizeText], [identifyTemplate], the four row
    extractors [extractDataTemplate4], [extractDataTemplate4a],
    [extractDataTemplate5], [extractDataTemplate7], the driver
    [scrapeDataFromHtml], and what [saveToCsv] and [main] compute.

    Modelling conventions.
    - A JavaScript string is a [string] whose characters are the code
      units 0 to 255; white space, line ends and letter case are those of
      ECMAScript on that range: the no-break space (160) is white space,
      and the capitals 192 to 222 have a lower case.  Texts with code
      units above 255 are not covered.
    - A number is an IEEE 754 double: [parseInt] and the sums of column
      spans work on [Number] below, with its rounding and its infinities.
    - [undefined] is [None]; an array is a list read with [!!].
    - A method call on [undefined] raises [TypeError]: fallible code lives
      in the [result] monad below.
    - A regular expression literal is a [regex] term run by a backtracking
      matcher with the priorities of the ECMAScript one (leftmost start,
      alternatives left to right, greedy or lazy loops).
    - The document is the parsed tree the code queries through cheerio:
      the text of the title, of the body, of the paragraphs, and the
      tables with their rows and cells.
    - [new Date(text)] is implementation defined for the formats met here:
      the constructor is a parameter [parseDate] of the development. *)

From Stdlib Require Import Ascii String ZArith Bool Lia DecimalString.
From Stdlib Require SpecFloat.
From stdpp Require Import base option list strings gmap.

Set Warnings "-clear-no-such-hyp".

Open Scope string_scope.
Open Scope list_scope.
Open Scope Z_scope.

(** ** Characters and plain string operations *)

Module JsString.

Definition code (c : ascii) : nat := nat_of_ascii c.

(** [\s] and the characters removed by [trim]: tab, line feed, vertical
    tab, form feed, carriage return, space and the no-break space. *)
Definition isSpace (c : ascii) : bool :=
  let n := code c in
  ((9 <=? n) && (n <=? 13))%nat || (n =? 32)%nat || (n =? 160)%nat.

Definition isDigit (c : ascii) : bool :=
  let n := code c in ((48 <=? n) && (n <=? 57))%nat.

Definition isUpper (c : ascii) : bool :=
  let n := code c in ((65 <=? n) && (n <=? 90))%nat.

Definition isLower (c : ascii) : bool :=
  let n := code c in ((97 <=? n) && (n <=? 122))%nat.

(** [\w] *)
Definition isWord (c : ascii) : bool :=
  isUpper c || isLower c || isDigit c || (code c =? 95)%nat.

(** [.] without the [s] flag: anything but a line terminator. *)
Definition isDot (c : ascii) : bool :=
  negb ((code c =? 10)%nat || (code c =? 13)%nat).

(** The characters [toLowerCase] changes: A to Z and the capitals 192 to
    222, the multiplication sign (215) apart. *)
Definition isCapital (c : ascii) : bool :=
  let n := code c in
  isUpper c || ((192 <=? n) && (n <=? 222) && negb (n =? 215))%nat.

Definition lowerChar (c : ascii) : ascii :=
  if isCapital c then ascii_of_nat (code c + 32) else c.

Definition chars (s : string) : list ascii := list_ascii_of_string s.
Definition str (l : list ascii) : string := string_of_list_ascii l.

Definition toLowerCase (s : string) : string := str (map lowerChar (chars s)).

Fixpoint dropSpaces (l : list ascii) : list ascii :=
  match l with
  | c :: t => if isSpace c then dropSpaces t else l
  | [] => []
  end.

Definition trimChars (l : list ascii) : list ascii :=
  rev (dropSpaces (rev (dropSpaces l))).

Definition trim (s : string) : string := str (trimChars (chars s)).

Fixpoint isPrefix (p l : list ascii) : bool :=
  match p, l with
  | [], _ => true
  | a :: p', b :: l' => Ascii.eqb a b && isPrefix p' l'
  | _ :: _, [] => false
  end.

Fixpoint includesChars (needle hay : list ascii) : bool :=
  isPrefix needle hay ||
  match hay with
  | [] => false
  | _ :: t => includesChars needle t
  end.

(** [hay.includes(needle)] *)
Definition includes (hay needle : string) : bool :=
  includesChars (chars needle) (chars hay).

(** [s.split(sep)] for a non-empty separator string: the pieces between
    the successive leftmost occurrences of [sep].  [cur] is the piece
    being read, reversed. *)
Fixpoint splitChars (sep : list ascii) (n : nat) (cur l : list ascii)
  : list (list ascii) :=
  match l with
  | [] => [rev cur]
  | c :: t =>
      match n with
      | O =>
          if isPrefix sep l
          then rev cur :: splitChars sep (Nat.pred (length sep)) [] t
          else splitChars sep O (c :: cur) t
      | S n' => splitChars sep n' cur t
      end
  end.

Definition split (sep s : string) : list string :=
  map str (splitChars (chars sep) O [] (chars s)).

Fixpoint join (sep : string) (l : list string) : string :=
  match l with
  | [] => ""
  | x :: t =>
      match t with
      | [] => x
      | _ :: _ => x +:+ sep +:+ join sep t
      end
  end.

(** [s.replace(/c/g, '')] for a single character [c]. *)
Definition removeChar (c : ascii) (s : string) : string :=
  str (filter (fun x => x ≠ c) (chars s)).

Definition padStart2 (s : string) : string :=
  match s with
  | String _ EmptyString => "0" +:+ s
  | EmptyString => "00"
  | _ => s
  end.

End JsString.

(** ** Regular expressions *)

Module Regex.
Import JsString.

Inductive regex : Type :=
| REmpty
| RChar (p : ascii -> bool)
| RSeq (r1 r2 : regex)
| RAlt (r1 r2 : regex)
| RStar (greedy : bool) (r : regex)
| RGroup (n : nat) (r : regex)
| RBol
| REol
| RWordB.

(** The position of the matcher in the subject: the character before it,
    its offset, what is left to read, and the captures made so far
    (group number, start and end offset). *)
Record mstate : Type := MState {
  ms_prev : option ascii;
  ms_pos : nat;
  ms_rest : list ascii;
  ms_caps : list (nat * (nat * nat))
}.

Definition advance (st : mstate) : option mstate :=
  match ms_rest st with
  | [] => None
  | c :: t => Some (MState (Some c) (S (ms_pos st)) t (ms_caps st))
  end.

Definition setCap (n : nat) (a b : nat) (st : mstate) : mstate :=
  MState (ms_prev st) (ms_pos st) (ms_rest st)
         ((n, (a, b)) :: ms_caps st).

Definition wordAt (o : option ascii) : bool :=
  match o with Some c => isWord c | None => false end.

Definition orElse {A} (a : option A) (b : option A) : option A :=
  match a with Some x => Some x | None => b end.

(** The loop of [r*] and [r*?]: [body] runs [r] once.  An iteration that
    consumed nothing is given up; [fuel] bounds the number of iterations
    and is the number of characters left when the loop is entered. *)
Fixpoint starLoop (body : mstate -> (mstate -> option mstate) -> option mstate)
    (greedy : bool) (k : mstate -> option mstate) (fuel : nat) (st : mstate)
  : option mstate :=
  match fuel with
  | O => k st
  | S fuel' =>
      let again :=
        body st (fun st' =>
          if (ms_pos st <? ms_pos st')%nat
          then starLoop body greedy k fuel' st'
          else None) in
      if greedy then orElse again (k st) else orElse (k st) again
  end.

(** The continuation-passing matcher: [rmatch r st k] runs [r] at [st] and
    hands every way of matching it, in priority order, to [k] until one
    succeeds. *)
Fixpoint rmatch (r : regex) (st : mstate) (k : mstate -> option mstate)
  : option mstate :=
  match r with
  | REmpty => k st
  | RChar p =>
      match ms_rest st with
      | c :: _ => if p c then advance st ≫= k else None
      | [] => None
      end
  | RSeq r1 r2 => rmatch r1 st (fun st' => rmatch r2 st' k)
  | RAlt r1 r2 => orElse (rmatch r1 st k) (rmatch r2 st k)
  | RStar greedy r1 =>
      starLoop (rmatch r1) greedy k (length (ms_rest st)) st
  | RGroup n r1 =>
      rmatch r1 st (fun st' => k (setCap n (ms_pos st) (ms_pos st') st'))
  | RBol => if (ms_pos st =? 0)%nat then k st else None
  | REol => match ms_rest st with [] => k st | _ :: _ => None end
  | RWordB =>
      if xorb (wordAt (ms_prev st)) (wordAt (head (ms_rest st)))
      then k st else None
  end.

(** One match: where it starts, where it ends, and its captures. *)
Record rmatchResult : Type := Match {
  m_start : nat;
  m_end : nat;
  m_caps : list (nat * (nat * nat))
}.

(** Leftmost match at or after the position of [st]. *)
Fixpoint searchFrom (r : regex) (prev : option ascii) (pos : nat)
    (rest : list ascii) : option rmatchResult :=
  match rmatch r (MState prev pos rest []) Some with
  | Some st' => Some (Match pos (ms_pos st') (ms_caps st'))
  | None =>
      match rest with
      | [] => None
      | c :: t => searchFrom r (Some c) (S pos) t
      end
  end.

Definition exec (r : regex) (s : list ascii) : option rmatchResult :=
  searchFrom r None O s.

Definition slice (a b : nat) (s : list ascii) : list ascii :=
  take (b - a) (drop a s).

(** The latest capture of group [n]. *)
Fixpoint lookupCap (n : nat) (caps : list (nat * (nat * nat)))
  : option (nat * nat) :=
  match caps with
  | [] => None
  | (m, ab) :: t => if (m =? n)%nat then Some ab else lookupCap n t
  end.

Definition capture (s : list ascii) (m : rmatchResult) (n : nat)
  : option string :=
  match lookupCap n (m_caps m) with
  | Some (a, b) => Some (str (slice a b s))
  | None => None
  end.

(** [re.test(s)] *)
Definition test (r : regex) (s : string) : bool :=
  bool_decide (is_Some (exec r (chars s))).

(** [re.test(x)] where [x] may be [undefined]: the argument is converted
    to a string first. *)
Definition testOpt (r : regex) (x : option string) : bool :=
  test r (default "undefined" x).

(** [s.match(re)] without the [g] flag: the captures 1..[groups]. *)
Definition matchGroups (r : regex) (groups : nat) (s : string)
  : option (list (option string)) :=
  (λ m, map (capture (chars s) m) (seq 1 groups)) <$> exec r (chars s).

(** [s.replace(re, f)] without the [g] flag: the leftmost match is
    replaced by [f] of its captures. *)
Definition replaceFirst (r : regex) (groups : nat)
    (f : list (option string) -> string) (s : string) : string :=
  match exec r (chars s) with
  | None => s
  | Some m =>
      str (take (m_start m) (chars s)) +:+
      f (map (capture (chars s) m) (seq 1 groups)) +:+
      str (drop (m_end m) (chars s))
  end.

(** The matcher state at offset [q] of the subject [s]. *)
Definition stateAt (s : list ascii) (q : nat) : mstate :=
  MState (match q with O => None | S q' => s !! q' end) q (drop q s) [].

(** [s.replace(re, f)] with the [g] flag: every match, left to right,
    each search resuming where the previous match ended (one character
    further after an empty match). *)
Fixpoint replaceLoop (r : regex) (groups : nat)
    (f : list (option string) -> string) (s : list ascii)
    (fuel : nat) (p : nat) : list ascii :=
  match fuel with
  | O => drop p s
  | S fuel' =>
      let st := stateAt s p in
      match searchFrom r (ms_prev st) p (ms_rest st) with
      | None => drop p s
      | Some m =>
          slice p (m_start m) s ++
          chars (f (map (capture s m) (seq 1 groups))) ++
          (if (m_end m =? m_start m)%nat
           then slice (m_end m) (S (m_end m)) s ++
                replaceLoop r groups f s fuel' (S (m_end m))
           else replaceLoop r groups f s fuel' (m_end m))
      end
  end.

Definition replaceAll (r : regex) (groups : nat)
    (f : list (option string) -> string) (s : string) : string :=
  str (replaceLoop r groups f (chars s) (S (length (chars s))) O).

(** [s.split(re)]: [p] is where the current piece starts, [q] the offset
    tried next, [skip] the number of characters still inside the last
    match.  A match that ends at [p] is passed over; the captures of a
    match are spliced between the pieces. *)
Fixpoint splitScan (r : regex) (groups : nat) (s : list ascii)
    (p skip : nat) (prev : option ascii) (q : nat) (rest : list ascii)
  : list (option string) :=
  match rest with
  | [] => [Some (str (slice p q s))]
  | c :: t =>
      match skip with
      | S skip' => splitScan r groups s p skip' (Some c) (S q) t
      | O =>
          match rmatch r (MState prev q rest []) Some with
          | None => splitScan r groups s p O (Some c) (S q) t
          | Some st' =>
              let e := ms_pos st' in
              if (e =? p)%nat
              then splitScan r groups s p O (Some c) (S q) t
              else
                Some (str (slice p q s)) ::
                map (capture s (Match q e (ms_caps st'))) (seq 1 groups) ++
                (if (e =? q)%nat
                 then splitScan r groups s q O (Some c) (S q) t
                 else splitScan r groups s e (e - q - 1) (Some c) (S q) t)
          end
      end
  end.

Definition splitRe (r : regex) (groups : nat) (s : string)
  : list (option string) :=
  match chars s with
  | [] =>
      match rmatch r (MState None O [] []) Some with
      | Some _ => []
      | None => [Some ""]
      end
  | l => splitScan r groups l O O None O l
  end.

(** *** Building blocks of the regular expression literals *)

Definition chr (c : ascii) : regex := RChar (Ascii.eqb c).

(** A character under the [i] flag. *)
Definition chrI (c : ascii) : regex :=
  RChar (fun x => Ascii.eqb (lowerChar x) (lowerChar c)).

Fixpoint seqs (l : list regex) : regex :=
  match l with
  | [] => REmpty
  | [r] => r
  | r :: t => RSeq r (seqs t)
  end.

Fixpoint alts (l : list regex) : regex :=
  match l with
  | [] => REmpty
  | [r] => r
  | r :: t => RAlt r (alts t)
  end.

Definition lit (s : string) : regex := seqs (map chr (chars s)).
Definition litI (s : string) : regex := seqs (map chrI (chars s)).

Definition star (r : regex) : regex := RStar true r.
Definition lazyStar (r : regex) : regex := RStar false r.
Definition plus (r : regex) : regex := RSeq r (RStar true r).
Definition opt (r : regex) : regex := RAlt r REmpty.

Definition space : regex := RChar isSpace.   (* \s *)
Definition digit : regex := RChar isDigit.   (* \d *)
Definition wordc : regex := RChar isWord.    (* \w *)
Definition dot : regex := RChar isDot.       (* .  *)

End Regex.

(** ** Values, exceptions and the parsed document *)

Import JsString Regex.

(** A computation that returns or throws. *)
Inductive result (A : Type) : Type :=
| Ok (a : A)
| Throw.
Arguments Ok {A} a.
Arguments Throw {A}.

#[global] Instance result_bind : MBind result := λ A B f m,
  match m with
  | Ok a => f a
  | Throw => Throw
  end.

#[global] Instance result_ret : MRet result := λ A a, Ok a.

(** [x.method()] where [x] may be [undefined]. *)
Definition defined {A} (x : option A) : result A :=
  match x with
  | Some a => Ok a
  | None => Throw
  end.

(** A loop whose body may throw. *)
Fixpoint foldM {S A} (f : S -> A -> result S) (l : list A) (s : S)
  : result S :=
  match l with
  | [] => Ok s
  | a :: t => s' ← f s a; foldM f t s'
  end.

(** [x || d] for a value that is a string, [undefined] or [null]. *)
Definition orStr (x : option string) (d : string) : string :=
  match x with
  | Some s => if String.eqb s "" then d else s
  | None => d
  end.

Definition truthy (x : option string) : bool :=
  match x with
  | Some s => negb (String.eqb s "")
  | None => false
  end.


(** [a === b] on values that are strings or [undefined]. *)
Definition strictEq (a b : option string) : bool :=
  match a, b with
  | Some x, Some y => String.eqb x y
  | None, None => true
  | _, _ => false
  end.

(** *** Numbers

    The numbers met here are what [parseInt] returns and sums of them:
    integers, the two infinities and [NaN].  [Int z] is the double of
    value [z]; the sign of a zero is not kept, since nothing below tells
    [-0] from [0]. *)
Inductive Number : Type :=
| Int (z : Z)
| Infinity (negative : bool)
| NaN.

(** The magnitude of the double nearest to the integer [a], for [0 <= a]:
    53 significant bits are kept and a tie goes to the even
    significand. *)
Definition roundInt (a : Z) : Z :=
  let e := Z.log2 a - 52 in
  if e <=? 0 then a
  else
    let q := Z.shiftr a e in
    let r := a - Z.shiftl q e in
    let half := Z.shiftl 1 (e - 1) in
    let q := if r <? half then q
             else if half <? r then q + 1
             else if Z.even q then q else q + 1 in
    Z.shiftl q e.

(** The Number of a mathematical integer: a magnitude that rounds to
    2^1024 or more is an infinity. *)
Definition toNumber (z : Z) : Number :=
  let m := roundInt (Z.abs z) in
  if 2 ^ 1024 <=? m then Infinity (z <? 0) else Int (Z.sgn z * m).

(** The same value in the IEEE 754 specification of the standard
    library, where a double is a sign, a significand and an exponent. *)
Definition ofSpecFloat (f : SpecFloat.spec_float) : Number :=
  match f with
  | SpecFloat.S754_zero _ => Int 0
  | SpecFloat.S754_infinity s => Infinity s
  | SpecFloat.S754_nan => NaN
  | SpecFloat.S754_finite s m e =>
      Int ((if s then -1 else 1) * Z.shiftl (Z.pos m) e)
  end.

Definition binary64 (z : Z) : SpecFloat.spec_float :=
  SpecFloat.binary_normalize 53 1024 z 0 false.

(** [x + y] *)
Definition addNumber (x y : Number) : Number :=
  match x, y with
  | Int a, Int b => toNumber (a + b)
  | NaN, _ | _, NaN => NaN
  | Infinity s, Infinity s' => if Bool.eqb s s' then Infinity s else NaN
  | Infinity s, Int _ | Int _, Infinity s => Infinity s
  end.

(** [a[i]] where the index is a Number or [undefined]: an element for an
    integer from 0 to the length, [undefined] for anything else. *)
Definition at_ {A} (a : list A) (i : option Number) : option A :=
  match i with
  | Some (Int z) => if z <? 0 then None else a !! Z.to_nat z
  | Some (Infinity _) | Some NaN | None => None
  end.

(** *** [parseInt] *)

Definition digitValue (c : ascii) : option Z :=
  if isDigit c then Some (Z.of_nat (code c) - 48)
  else if isLower c then Some (Z.of_nat (code c) - 87)
  else if isUpper c then Some (Z.of_nat (code c) - 55)
  else None.

(** The value of the longest prefix of digits below [radix]; [None] when
    there is none. *)
Fixpoint digitsPrefix (radix : Z) (acc : option Z) (l : list ascii)
  : option Z :=
  match l with
  | [] => acc
  | c :: t =>
      match digitValue c with
      | Some v =>
          if v <? radix
          then digitsPrefix radix (Some (default 0 acc * radix + v)) t
          else acc
      | None => acc
      end
  end.

Definition isHexPrefix (l : list ascii) : bool :=
  match l with
  | a :: b :: _ =>
      Ascii.eqb a "0" && (Ascii.eqb b "x" || Ascii.eqb b "X")
  | _ => false
  end.

(** [parseInt(x)] with no radix: white space is skipped, then a sign,
    then [0x] announces base 16; the digits that follow are read as an
    integer, which is rounded to a Number. *)
Definition parseInt (x : option string) : Number :=
  let l := dropSpaces (chars (default "undefined" x)) in
  let '(sign, l) :=
    match l with
    | c :: t =>
        if Ascii.eqb c "-" then (-1, t)
        else if Ascii.eqb c "+" then (1, t)
        else (1, l)
    | [] => (1, l)
    end in
  let n :=
    if isHexPrefix l then digitsPrefix 16 None (drop 2 l)
    else digitsPrefix 10 None l in
  match n with
  | Some mathInt => toNumber (sign * mathInt)
  | None => NaN
  end.

(** [x || 1] for a Number: zero and [NaN] are falsy. *)
Definition orOne (x : Number) : Number :=
  match x with
  | Int z => if z =? 0 then Int 1 else Int z
  | Infinity s => Infinity s
  | NaN => Int 1
  end.

(** [parseInt(x) || 1] *)
Definition colspanOf (x : option string) : Number := orOne (parseInt x).

(** *** The document *)

(** A [th] or [td] element: its text, the text of the [p] elements in it,
    its [colspan] attribute and whether it carries the class
    [EmptyCellLayoutStyle]. *)
Record Cell : Type := mkCell {
  cellText : string;
  cellParagraphs : list string;
  cellColspan : option string;
  cellIsEmptyLayout : bool
}.

(** A [tr] element: the cells found under it. *)
Definition Row : Type := list Cell.

(** A [table] element: its text and the rows found under it. *)
Record Table : Type := mkTable {
  tableText : string;
  tableRows : list Row
}.

Record Document : Type := mkDocument {
  docTitle : string;
  docBodyText : string;
  docParagraphs : list string;
  docTables : list Table
}.

(** One row of the output. *)
Record CaseRecord : Type := mkRecord {
  CourtName : string;
  CourtDate : string;
  ClaimNumber : string;
  Claimant : string;
  Defendant : string;
  Duration : string;
  HearingType : string;
  HearingChannel : string;
  Title : string
}.

(** What [getFullYear], [getMonth] and [getDate] return for a valid
    date: for such a date all three are integers that a double holds
    exactly. *)
Record JsDate : Type := mkDate {
  getFullYear : Z;
  getMonth : Z;
  getDate : Z
}.

Inductive Template : Type :=
| template4
| template4a
| template5
| template7.

(** ** [normalizeText] *)

Definition collapseSpaces (s : string) : string :=
  replaceAll (plus space) 0 (fun _ => " ") s.

Definition normalizeText (text : string) : string :=
  toLowerCase (trim (collapseSpaces text)).

(** ** [identifyTemplate] *)

Module Re.

Definition caseRef := seqs [litI "case"; star space; litI "ref"].
Definition caseName := seqs [litI "case"; star space; litI "name"].
Definition startTime := seqs [litI "start"; star space; litI "time"].
Definition duration := litI "duration".
Definition caseDetails := seqs [litI "case"; star space; litI "details"].
Definition caseDetail := seqs [litI "case"; star space; litI "detail"].
Definition hearingType := seqs [litI "hearing"; star space; litI "type"].
Definition hearingChannel := seqs [litI "hearing"; star space; litI "channel"].
Definition claimNumber := seqs [litI "claim"; star space; litI "number"].
Definition nottingham := litI "Nottingham".
Definition wigham := litI "Wigham".
Definition courtRoom7 :=
  seqs [litI "Court"; star space; litI "Room"; star space; litI "7"].
Definition genericKeywords :=
  RGroup 1 (alts [litI "hearing room"; litI "deputy district judge";
                  litI "sitting at"; litI "court room";
                  litI "magistrates court"]).

End Re.

(** [$('table').find('th, td')] *)
Definition tableCells (d : Document) : list Cell :=
  concat (concat (map tableRows (docTables d))).

(** [$('body').text().toLowerCase().replace(/\s+/g, ' ')] *)
Definition bodyTextContent (d : Document) : string :=
  collapseSpaces (toLowerCase (docBodyText d)).

Definition identifyTemplate (d : Document) : option Template :=
  let textContent := bodyTextContent d in
  if test Re.caseRef textContent && test Re.caseName textContent
  then Some template7
  else if
    test Re.startTime textContent &&
    test Re.duration textContent &&
    (test Re.caseDetails textContent || test Re.caseDetail textContent) &&
    test Re.hearingType textContent &&
    test Re.hearingChannel textContent
  then Some template5
  else
    let isCourtServePage :=
      includes (normalizeText (docTitle d)) "courtserve" in
    let hasTimeHeader :=
      existsb (fun c => String.eqb (normalizeText (cellText c)) "time")
              (tableCells d) in
    let hasClaimNumberClaimantHeader :=
      existsb (fun c =>
                 includes (normalizeText (cellText c)) "claim number" &&
                 includes (toLowerCase (cellText c)) "claimant")
              (tableCells d) in
    let hasDefendantHeader :=
      existsb (fun c => includes (normalizeText (cellText c)) "defendant")
              (tableCells d) in
    let hasGenericKeywords := test Re.genericKeywords (docBodyText d) in
    if test Re.claimNumber textContent &&
       test Re.nottingham textContent &&
       test Re.wigham textContent &&
       test Re.courtRoom7 textContent
    then Some template4
    else if
      (isCourtServePage && hasTimeHeader && hasClaimNumberClaimantHeader &&
       hasDefendantHeader && hasGenericKeywords)
      || test Re.claimNumber textContent
    then Some template4a
    else None.

(** ** What the row extractors share *)

(** [String(n)] for an integer. *)
Definition ofInt (n : Z) : string := NilZero.string_of_int (Z.to_int n).

(** The regular expression literals of the extractors. *)
Module Rx.

Definition courtLocation :=
  seqs [litI "CourtServe:"; star space; RGroup 1 (lazyStar dot); star space;
        litI "County Court"].
Definition ordinal :=
  seqs [RGroup 1 (plus digit);
        RGroup 2 (alts [litI "st"; litI "nd"; litI "rd"; litI "th"])].
Definition welsh (month : string) := seqs [RWordB; litI month; RWordB].

(* template4 *)
Definition claimantHeader :=
  seqs [RBol; RGroup 1 (alts [litI "claimant"; litI "applicant";
                              litI "petitioner"]); REol].
Definition defendantHeader :=
  seqs [RBol; RGroup 1 (alts [litI "defendant"; litI "respondent"]); REol].

(* template4a *)
Definition combinedHeader :=
  seqs [litI "claim"; star space; litI "number claimant"].
Definition combinedHeaderExact :=
  seqs [RBol; litI "claim"; star space; litI "number claimant"; REol].
Definition timeHeader := seqs [RBol; litI "time"; REol].

(* template5 *)
Definition partyName :=
  RAlt (seqs [litI "party"; star space; litI "name"])
       (seqs [litI "parties"; star space; litI "suppressed"]).
Definition caseDetailHeader :=
  seqs [litI "case"; star space; litI "detail"; opt (RGroup 1 (litI "s"))].
Definition possessions := seqs [litI "possession"; opt (litI "s")].
Definition leadingToken :=
  seqs [RBol; plus (RChar (fun c => isUpper c || isDigit c)); chr " "].
Definition sepV :=
  seqs [plus space; RGroup 1 (RAlt (litI "v") (litI "vs")); plus space].
Definition sepDashV :=
  seqs [plus space; RGroup 1 (RAlt (litI "-v-") (litI "-vs-")); plus space].

(* template7 *)
Definition caseRefHeader :=
  seqs [RBol; litI "case"; star space; litI "ref"; REol].
Definition caseNameHeader :=
  seqs [RBol; litI "case"; star space; litI "name"; REol].
Definition caseTypeHeader :=
  seqs [RBol; litI "case"; star space; litI "type"; REol].
Definition durationHeader := seqs [RBol; litI "duration"; REol].
Definition hearingTypeHeader :=
  seqs [RBol; litI "hearing"; star space; litI "type"; REol].
Definition hearingPlatformHeader :=
  seqs [RBol; litI "hearing"; star space; litI "platform"; REol].
Definition posse := RAlt (litI "posse") (litI "possession").
Definition looseV := seqs [star space; litI "v"; opt (litI "s"); star space].

End Rx.

(** [extractCourtLocation], repeated word for word in the four
    extractors; [None] is [null]. *)
Definition extractCourtLocation (titlename : string)
  : result (option string) :=
  match matchGroups Rx.courtLocation 1 titlename with
  | Some match_ =>
      location ← defined (mjoin (match_ !! O));
      Ok (Some (trim location))
  | None => Ok None
  end.

Definition welshToEnglishMonths : list (string * string) :=
  [("Ionawr", "January"); ("Chwefror", "February"); ("Mawrth", "March");
   ("Ebrill", "April"); ("Mai", "May"); ("Mehefin", "June");
   ("Gorffennaf", "July"); ("Awst", "August"); ("Medi", "September");
   ("Hydref", "October"); ("Tachwedd", "November"); ("Rhagfyr", "December")].

Definition translateMonths (text : string) : string :=
  fold_left (fun part we => replaceAll (Rx.welsh we.1) 0 (fun _ => we.2) part)
            welshToEnglishMonths text.

(** [text.replace(/(\d+)(st|nd|rd|th)/i, '$1')] *)
Definition stripOrdinal (text : string) : string :=
  replaceFirst Rx.ordinal 2 (fun g => default "" (mjoin (g !! O))) text.

Definition formatDate (date : JsDate) : string :=
  padStart2 (ofInt (getDate date)) +:+ "/" +:+
  padStart2 (ofInt (getMonth date + 1)) +:+ "/" +:+
  ofInt (getFullYear date).

Definition stripPipes (s : string) : string := removeChar "|" s.

(** The variables a row callback reads and writes. *)
Record Loop : Type := mkLoop {
  headersIndex : gmap string Number;
  courtName : option string;
  data : list CaseRecord
}.

Definition setHeaders (h : gmap string Number) (st : Loop) : Loop :=
  mkLoop h (courtName st) (data st).

(** [courtName = ...; data.push(rowData)] *)
Definition push (name : option string) (rowData : option string -> CaseRecord)
    (st : Loop) : Loop :=
  mkLoop (headersIndex st) name (data st ++ [rowData name]).

(** [Object.keys(headersIndex).length > 0] *)
Definition hasHeaders (st : Loop) : bool := (0 <? size (headersIndex st))%nat.

(** One turn of the walk over the cells of a header row: [assign] updates
    the map for the cell at the running logical index [acc.2], which then
    moves on by the column span. *)
Definition headerCell
    (assign : string -> Number -> gmap string Number -> gmap string Number)
    (acc : gmap string Number * Number) (cell : Cell)
  : gmap string Number * Number :=
  let headerText := normalizeText (cellText cell) in
  let colspan := colspanOf (cellColspan cell) in
  (assign headerText acc.2 acc.1, addNumber acc.2 colspan).

Definition mapHeaders
    (assign : string -> Number -> gmap string Number -> gmap string Number)
    (cells : list Cell) (h : gmap string Number)
  : gmap string Number * Number :=
  fold_left (headerCell assign) cells (h, Int 0).

Section Extractors.

(** [new Date(text)]: [None] is an invalid date. *)
Variable parseDate : string -> option JsDate.

(** ** [extractDataTemplate4] *)

(** The loop over the comma separated parts in [formatCourtDate] of
    templates 4, 4a and 7. *)
Fixpoint firstValidPart (parts : list string) : string :=
  match parts with
  | [] => ""
  | part :: rest =>
      let part := trim part in
      let part := translateMonths part in
      let part := stripOrdinal part in
      match parseDate part with
      | Some date => formatDate date
      | None => firstValidPart rest
      end
  end.

(** [formatCourtDate] as written in templates 4, 4a and 7. *)
Definition formatCourtDate (courtDatestr : string) : string :=
  if includes courtDatestr ","
  then firstValidPart (split "," courtDatestr)
  else "".

Definition assign4 (headerText : string) (logicalIndex : Number)
    (h : gmap string Number) : gmap string Number :=
  if test Re.claimNumber headerText then <["claimNumber" := logicalIndex]> h
  else if test Rx.claimantHeader headerText then <["claimant" := logicalIndex]> h
  else if test Rx.defendantHeader headerText then <["defendant" := logicalIndex]> h
  else h.

Definition row4 (titlename courtDate : string) (st : Loop) (row : Row)
  : result Loop :=
  let cells := row in
  let cellsText := map (fun cell => collapseSpaces (trim (cellText cell))) cells in
  if existsb (fun text => test Re.claimNumber (normalizeText text)) cellsText
  then Ok (setHeaders (mapHeaders assign4 cells (headersIndex st)).1 st)
  else if (1 <? length cellsText)%nat && hasHeaders st then
    if forallb (String.eqb "") cellsText then Ok st
    else
      let h := headersIndex st in
      let claimNumber := orStr (at_ cellsText (h !! "claimNumber")) "" in
      let claimant := orStr (at_ cellsText (h !! "claimant")) "" in
      let defendant := orStr (at_ cellsText (h !! "defendant")) "" in
      let claimant := stripPipes claimant in
      let defendant := stripPipes defendant in
      location ← extractCourtLocation titlename;
      Ok (push location
            (fun courtName =>
               {| CourtName := orStr courtName "";
                  CourtDate := orStr (Some (formatCourtDate courtDate)) "";
                  ClaimNumber := orStr (Some claimNumber) "";
                  Claimant := orStr (Some claimant) "";
                  Defendant := orStr (Some defendant) "";
                  Duration := "Not Provided";
                  HearingType := "Not Provided";
                  HearingChannel := "Not Provided";
                  Title := titlename |})
            st)
  else Ok st.

Definition extractDataTemplate4 (title : string) (table : Table)
    (courtName courtDate : string) : result (list CaseRecord) :=
  let titlename := trim title in
  st ← foldM (row4 titlename courtDate) (tableRows table)
        (mkLoop ∅ (Some courtName) []);
  Ok (data st).

(** ** [extractDataTemplate4a] *)

(** The text of a cell: its non-empty paragraphs joined with [" | "]. *)
Definition paragraphText (cell : Cell) : string :=
  join " | "
    (filter (fun lineText => lineText ≠ "")
       (map (fun p => collapseSpaces (trim p)) (cellParagraphs cell))).

(** [text.split(/ \| /)]: the expression is the literal [" | "]. *)
Definition splitAtFirstPipe (text : string) : result (string * string) :=
  match split " | " text with
  | firstPart :: rest => Ok (trim firstPart, trim (join " | " rest))
  | [] => Throw
  end.

Definition phoenix : string :=
  "Phoenix  Community  Housing | Association | (Bellingham & | Downham) | Limited".

Definition assign4a (headerText : string) (logicalIndex : Number)
    (h : gmap string Number) : gmap string Number :=
  if test Rx.combinedHeaderExact headerText
  then <["claimant" := addNumber logicalIndex (Int 1)]>
         (<["claimNumber" := logicalIndex]> h)
  else if test Rx.timeHeader headerText then <["time" := logicalIndex]> h
  else if test Rx.defendantHeader headerText then <["defendant" := logicalIndex]> h
  else h.

(** Claimant and defendant of a data row of template 4a. *)
Definition parties4a (cellsText : list string) : result (string * string) :=
  if (length cellsText =? 3)%nat then
    let claimantANDdefendant := orStr (cellsText !! 2%nat) "" in
    '(claimant, defendant) ← splitAtFirstPipe claimantANDdefendant;
    let '(claimant, defendant) :=
      if String.eqb claimant phoenix
      then (stripPipes claimant, stripPipes defendant)
      else (claimant, defendant) in
    let defendant := if String.eqb defendant "" then "Not Provided" else defendant in
    let claimant := if String.eqb claimant "" then "Not Provided" else claimant in
    Ok (claimant, defendant)
  else
    let claimant := orStr (cellsText !! 2%nat) "Not Provided" in
    let defendant := orStr (cellsText !! 3%nat) "Not Provided" in
    Ok (stripPipes claimant, stripPipes defendant).

Definition row4a (titlename courtDate : string) (st : Loop) (row : Row)
  : result Loop :=
  let cells := row in
  let cellsText := map paragraphText cells in
  if existsb (fun text => test Rx.combinedHeader (normalizeText text)) cellsText
  then Ok (setHeaders (mapHeaders assign4a cells (headersIndex st)).1 st)
  else if (1 <? length cellsText)%nat && hasHeaders st then
    if forallb (String.eqb "") cellsText then Ok st
    else
      let time := orStr (cellsText !! 0%nat) "" in
      let claimNumber := orStr (cellsText !! 1%nat) "" in
      '(claimant, defendant) ← parties4a cellsText;
      location ← extractCourtLocation titlename;
      Ok (push location
            (fun courtName =>
               {| CourtName := orStr courtName "";
                  CourtDate := orStr (Some (formatCourtDate courtDate)) "";
                  ClaimNumber := orStr (Some claimNumber) "";
                  Claimant := orStr (Some claimant) "";
                  Defendant := orStr (Some defendant) "";
                  Duration := "Not Provided";
                  HearingType := "Not Provided";
                  HearingChannel := "Not Provided";
                  Title := titlename |})
            st)
  else Ok st.

Definition extractDataTemplate4a (title : string) (table : Table)
    (courtName courtDate : string) : result (list CaseRecord) :=
  let titlename := trim title in
  st ← foldM (row4a titlename courtDate) (tableRows table)
        (mkLoop ∅ (Some courtName) []);
  Ok (data st).

(** ** [extractDataTemplate5] *)

(** [formatCourtDate] as written in template 5. *)
Definition formatCourtDate5 (courtDatestr : string) : string :=
  if includes courtDatestr "," then
    let parts := split "," courtDatestr in
    let candidate :=
      if truthy (parts !! 1%nat)
      then trim (default "" (parts !! 1%nat))
      else trim courtDatestr in
    let candidate := translateMonths candidate in
    let candidate := stripOrdinal candidate in
    let date := parseDate candidate in
    let date :=
      if negb (bool_decide (is_Some date)) && truthy (parts !! 3%nat) then
        let fallback := trim (default "" (parts !! 3%nat)) in
        let fallback := stripOrdinal fallback in
        match parseDate fallback with
        | Some fallbackDate => Some fallbackDate
        | None => date
        end
      else date in
    match date with
    | None => ""
    | Some date => formatDate date
    end
  else
    let datePart := stripOrdinal courtDatestr in
    match parseDate datePart with
    | None => ""
    | Some date => formatDate date
    end.

Definition assign5 (headerText : string) (logicalIndex : Number)
    (h : gmap string Number) : gmap string Number :=
  if test Re.startTime headerText then <["startTime" := logicalIndex]> h
  else if test Re.duration headerText then <["duration" := logicalIndex]> h
  else if test Rx.caseDetailHeader headerText then <["caseDetails" := logicalIndex]> h
  else if test Re.hearingType headerText then <["hearingType" := logicalIndex]> h
  else if test Re.hearingChannel headerText then <["hearingChannel" := logicalIndex]> h
  else h.

(** The cell kept as hearing type: positions 5, 3 and 6 are tried in
    turn; the outer [None] is the [return] that drops the row. *)
Definition probeHearingType (cellsText : list string)
  : option (option string) :=
  let hearingType := cellsText !! 5%nat in
  if testOpt Rx.possessions hearingType then Some hearingType
  else
    let hearingType := cellsText !! 3%nat in
    if testOpt Rx.possessions hearingType then Some hearingType
    else
      let hearingType := cellsText !! 6%nat in
      if testOpt Rx.possessions hearingType then Some hearingType
      else None.

(** Claimant and defendant out of the case details of template 5. *)
Definition parties5 (caseDetails : string) : result (string * string) :=
  if test Rx.sepV caseDetails || test Rx.sepDashV caseDetails then
    let parts := splitRe Rx.sepV 1 caseDetails in
    let parts :=
      if test Rx.sepDashV caseDetails
      then splitRe Rx.sepDashV 1 caseDetails
      else parts in
    if (2 <=? length parts)%nat then
      p0 ← defined (mjoin (parts !! 0%nat));
      p2 ← defined (mjoin (parts !! 2%nat));
      Ok (stripPipes (trim p0), stripPipes (trim p2))
    else
      p0 ← defined (mjoin (parts !! 0%nat));
      Ok (stripPipes (trim p0), stripPipes "Not Provided")
  else Ok ("Not Provided", "Not Provided").

Definition row5 (titlename courtDate : string) (st : Loop) (row : Row)
  : result Loop :=
  let cells := row in
  let dataCells := filter (fun cell => cellIsEmptyLayout cell = false) cells in
  let cellsText :=
    map (fun cell => collapseSpaces (trim (cellText cell))) dataCells in
  if existsb (test Rx.partyName) cellsText then Ok st
  else if existsb (fun text => test Re.startTime (normalizeText text)) cellsText
  then Ok (setHeaders (mapHeaders assign5 dataCells (headersIndex st)).1 st)
  else if (1 <? length cellsText)%nat && hasHeaders st then
    if forallb (String.eqb "") cellsText then Ok st
    else
      match probeHearingType cellsText with
      | None => Ok st
      | Some hearingType =>
          let '(startTime, duration, caseDetails, hearingChannel) :=
            if strictEq hearingType (cellsText !! 3%nat) then
              (cellsText !! 0%nat, cellsText !! 1%nat,
               cellsText !! 2%nat, cellsText !! 4%nat)
            else if strictEq hearingType (cellsText !! 6%nat) then
              (cellsText !! 3%nat, cellsText !! 4%nat,
               cellsText !! 5%nat, cellsText !! 7%nat)
            else
              (cellsText !! 2%nat, cellsText !! 3%nat,
               cellsText !! 4%nat, cellsText !! 6%nat) in
          caseDetails ← defined caseDetails;
          let claimNumber := head (split " " caseDetails) in
          if strictEq claimNumber (Some "PCOL") then Ok st
          else
            let caseDetails :=
              replaceFirst Rx.leadingToken 0 (fun _ => "") caseDetails in
            '(claimant, defendant) ← parties5 caseDetails;
            location ← extractCourtLocation titlename;
            Ok (push location
                  (fun courtName =>
                     {| CourtName := orStr courtName "";
                        CourtDate := orStr (Some (formatCourtDate5 courtDate)) "";
                        ClaimNumber := orStr claimNumber "Not Provided";
                        Claimant := orStr (Some claimant) "Not Provided";
                        Defendant := orStr (Some defendant) "Not Provided";
                        Duration := orStr duration "Not Provided";
                        HearingType := orStr hearingType "Not Provided";
                        HearingChannel := orStr hearingChannel "Not Provided";
                        Title := titlename |})
                  st)
      end
  else Ok st.

Definition extractDataTemplate5 (title : string) (table : Table)
    (courtName courtDate : string) : result (list CaseRecord) :=
  let titlename := trim title in
  st ← foldM (row5 titlename courtDate) (tableRows table)
        (mkLoop ∅ (Some courtName) []);
  Ok (data st).

(** ** [extractDataTemplate7] *)

Definition assign7 (headerText : string) (logicalIndex : Number)
    (h : gmap string Number) : gmap string Number :=
  if test Rx.timeHeader headerText then <["time" := logicalIndex]> h
  else if test Rx.caseRefHeader headerText then <["caseRef" := logicalIndex]> h
  else if test Rx.caseNameHeader headerText then <["caseName" := logicalIndex]> h
  else if test Rx.caseTypeHeader headerText then <["caseType" := logicalIndex]> h
  else if test Rx.durationHeader headerText then <["duration" := logicalIndex]> h
  else if test Rx.hearingTypeHeader headerText then <["hearingType" := logicalIndex]> h
  else if test Rx.hearingPlatformHeader headerText
  then <["hearingPlatform" := logicalIndex]> h
  else h.

(** Claimant and defendant out of the case name of template 7. *)
Definition parties7 (caseName : option string) : result (string * string) :=
  if testOpt Rx.looseV caseName then
    caseName ← defined caseName;
    let parts := splitRe Rx.sepV 1 caseName in
    if (2 <=? length parts)%nat then
      p0 ← defined (mjoin (parts !! 0%nat));
      p2 ← defined (mjoin (parts !! 2%nat));
      Ok (stripPipes (trim p0), stripPipes (trim p2))
    else
      p0 ← defined (mjoin (parts !! 0%nat));
      Ok (stripPipes (trim p0), "Not Provided")
  else Ok ("Not Provided", "Not Provided").

Definition row7 (titlename courtDate : string) (st : Loop) (row : Row)
  : result Loop :=
  let cells := row in
  let dataCells := filter (fun cell => cellIsEmptyLayout cell = false) cells in
  let cellsText :=
    map (fun cell => collapseSpaces (trim (cellText cell))) dataCells in
  if existsb (fun text => test Rx.caseRefHeader (normalizeText text)) cellsText
  then Ok (setHeaders (mapHeaders assign7 dataCells (headersIndex st)).1 st)
  else if (1 <? length cellsText)%nat && hasHeaders st then
    if forallb (String.eqb "") cellsText then Ok st
    else
      let h := headersIndex st in
      let time := orStr (at_ cellsText (h !! "time")) "" in
      let caseRef := orStr (at_ cellsText (h !! "caseRef")) "" in
      let caseName := cellsText !! 3%nat in
      let caseType := orStr (at_ cellsText (h !! "caseType")) "" in
      let duration := orStr (at_ cellsText (h !! "hearingType")) "" in
      let hearingType := cellsText !! 5%nat in
      let hearingPlatform := cellsText !! 6%nat in
      if negb (test Rx.posse caseType) then Ok st
      else
        '(claimant, defendant) ← parties7 caseName;
        location ← extractCourtLocation titlename;
        Ok (push location
              (fun courtName =>
                 {| CourtName := orStr courtName "";
                    CourtDate := orStr (Some (formatCourtDate courtDate)) "";
                    ClaimNumber := orStr (Some caseRef) "";
                    Claimant := orStr (Some claimant) "Not Provided";
                    Defendant := orStr (Some defendant) "Not Provided";
                    Duration := orStr (Some duration) "Not Provided";
                    HearingType := orStr hearingType "Not Provided";
                    HearingChannel := orStr hearingPlatform "Not Provided";
                    Title := titlename |})
              st)
  else Ok st.

Definition extractDataTemplate7 (title : string) (table : Table)
    (courtName courtDate : string) : result (list CaseRecord) :=
  let titlename := trim title in
  st ← foldM (row7 titlename courtDate) (tableRows table)
        (mkLoop ∅ (Some courtName) []);
  Ok (data st).

End Extractors.

(** ** [scrapeDataFromHtml] *)

Module Rs.

Definition weekday :=
  RGroup 1 (alts [litI "Monday"; litI "Tuesday"; litI "Wednesday";
                  litI "Thursday"; litI "Friday"; litI "Saturday";
                  litI "Sunday"]).
Definition suffix := alts [litI "st"; litI "nd"; litI "rd"; litI "th"].
Definition digits12 := RSeq digit (opt digit).          (* \d{1,2} *)
Definition digits4 := seqs [digit; digit; digit; digit]. (* \d{4} *)

Definition courtAt := litI "court at".
Definition sittingAt := litI "sitting at".
Definition courtOrSittingAt := RAlt (litI "court at") (litI "sitting at").
Definition datePattern :=
  seqs [RBol; weekday; chr ","; plus space; digits12; opt suffix; plus space;
        plus wordc; plus space; digits4; REol].
Definition dydd :=
  seqs [litI "Dydd"; plus space; plus wordc; chr ","; star space; digits12].
Definition noCommaPattern :=
  seqs [RBol; weekday; plus space; digits12; opt (RGroup 2 suffix); plus space;
        plus wordc; plus space; digits4; REol].
Definition pureDatePattern :=
  seqs [RBol; digits12; opt (RGroup 1 suffix); plus space; plus wordc;
        plus space; digits4; REol].
Definition dayMonthYear :=
  seqs [RBol; RGroup 1 digits12; plus space; RGroup 2 (plus wordc); plus space;
        RGroup 3 digits4; REol].

Definition alnumI := RChar (fun c => isLower c || isUpper c || isDigit c).
Definition letterI := RChar (fun c => isLower c || isUpper c).

(* table filters *)
Definition party :=
  RGroup 1 (alts [litI "claimant"; litI "applicant"; litI "petitioner"]).
Definition claimPattern :=
  seqs [RWordB; alnumI; alnumI; alnumI; alnumI; star alnumI; RWordB;
        plus space; plus letterI; plus space; plus letterI].
Definition headerSequence :=
  seqs [litI "time"; plus space; litI "claim"; star space; litI "number";
        plus space; litI "claimant"; plus space; litI "defendant"].
Definition startTime5 :=
  seqs [opt (RGroup 1 (seqs [litI "amser"; star space; litI "cychwyn";
                             star space; chr ","; star space]));
        litI "start"; star space; litI "time"].
Definition duration5 :=
  seqs [opt (RGroup 1 (seqs [litI "hyd,"; star space])); litI "duration"].
Definition caseDetails5 :=
  seqs [opt (RGroup 1 (seqs [litI "manylion"; star space; litI "yr";
                             star space; litI "achos,"; star space]));
        litI "case"; star space; litI "detail"; opt (RGroup 2 (litI "s"))].
Definition hearingType5 :=
  seqs [opt (RGroup 1 (seqs [litI "math"; star space; litI "o"; star space;
                             litI "wrandawiad,"; star space]));
        litI "hearing"; star space; litI "type"].
Definition hearingChannel5 :=
  seqs [opt (RGroup 1 (seqs [litI "sianel"; star space; litI "clyw,";
                             star space]));
        litI "hearing"; star space; litI "channel"].

End Rs.

(** [self.filter((item, pos) => self.indexOf(item) === pos)]: [before]
    holds the items already passed. *)
Fixpoint firstOccurrences (before l : list string) : list string :=
  match l with
  | [] => []
  | item :: t =>
      if bool_decide (item ∈ before)
      then firstOccurrences (before ++ [item]) t
      else item :: firstOccurrences (before ++ [item]) t
  end.

(** The filter that selects the candidate tables of a template. *)
Definition isCandidateTable (template : Template) (table : Table) : bool :=
  match template with
  | template4 =>
      let tableText := toLowerCase (tableText table) in
      test Re.claimNumber tableText && test Rs.party tableText
  | template4a =>
      let tableText := normalizeText (tableText table) in
      let hasClaimPattern := test Rs.claimPattern tableText in
      test Rs.headerSequence tableText || hasClaimPattern
  | template7 =>
      let tableText := toLowerCase (tableText table) in
      test Re.caseRef tableText && test Re.caseName tableText
  | template5 =>
      let tableText := collapseSpaces (toLowerCase (tableText table)) in
      test Rs.startTime5 tableText &&
      test Rs.duration5 tableText &&
      test Rs.caseDetails5 tableText &&
      test Rs.hearingType5 tableText &&
      test Rs.hearingChannel5 tableText
  end.

(** The deduplication of one table's records against the claim numbers
    already kept: [extractedData.forEach(...)]. *)
Definition keepNew (acc : gset string * list CaseRecord) (row : CaseRecord)
  : gset string * list CaseRecord :=
  let '(processedClaimNumbers, data) := acc in
  if bool_decide (ClaimNumber row ∈ processedClaimNumbers)
  then acc
  else ({[ClaimNumber row]} ∪ processedClaimNumbers, data ++ [row]).

(** The variables of the loop over the tables. *)
Record Scrape : Type := mkScrape {
  processedTables : gset nat;
  processedClaimNumbers : gset string;
  scraped : list CaseRecord
}.

Section Scraper.

Variable parseDate : string -> option JsDate.

Definition isValidDate (text : string) : bool :=
  bool_decide (is_Some (parseDate text)).

(** The body of [$('p').each(...)]: it updates [courtName] and
    [courtDate]. *)
Definition scanParagraph (acc : string * string) (elemText : string)
  : result (string * string) :=
  let '(courtName, courtDate) := acc in
  let text := trim elemText in
  courtName ←
    (if test Rs.courtAt text || test Rs.sittingAt text then
       let parts := splitRe Rs.courtOrSittingAt 0 text in
       if (1 <? length parts)%nat
       then p1 ← defined (mjoin (parts !! 1%nat)); Ok (trim p1)
       else Ok courtName
     else Ok courtName);
  let courtDate := if test Rs.datePattern text then text else courtDate in
  let courtDate :=
    if String.eqb courtDate "" && test Rs.dydd text && test Rs.weekday text
    then
      let parts := map trim (split "," text) in
      if (3 <? length parts)%nat then
        let candidate := stripOrdinal (default "" (parts !! 3%nat)) in
        if isValidDate candidate then candidate else courtDate
      else courtDate
    else courtDate in
  let courtDate :=
    if String.eqb courtDate "" then
      if test Rs.noCommaPattern text then
        let candidate := stripOrdinal text in
        if isValidDate candidate then candidate else courtDate
      else courtDate
    else courtDate in
  let courtDate :=
    if String.eqb courtDate "" then
      if test Rs.pureDatePattern text then
        let candidate := stripOrdinal text in
        let candidate :=
          replaceFirst Rs.dayMonthYear 3
            (fun g =>
               let d := default "undefined" (mjoin (g !! 0%nat)) in
               let mon := default "undefined" (mjoin (g !! 1%nat)) in
               let y := default "undefined" (mjoin (g !! 2%nat)) in
               mon +:+ " " +:+ d +:+ ", " +:+ y)
            candidate in
        if isValidDate candidate then candidate else courtDate
      else courtDate
    else courtDate in
  Ok (courtName, courtDate).

Definition extractData (template : Template) (title : string) (table : Table)
    (courtName courtDate : string) : result (list CaseRecord) :=
  match template with
  | template4 => extractDataTemplate4 parseDate title table courtName courtDate
  | template4a => extractDataTemplate4a parseDate title table courtName courtDate
  | template7 => extractDataTemplate7 parseDate title table courtName courtDate
  | template5 => extractDataTemplate5 parseDate title table courtName courtDate
  end.

(** The body of [tables.each(...)]; a table element is told apart by its
    position [tableElem.1] among the tables of the document. *)
Definition processTable (template : Template) (title courtName courtDate : string)
    (st : Scrape) (tableElem : nat * Table) : result Scrape :=
  if bool_decide (tableElem.1 ∈ processedTables st) then Ok st
  else
    let processed := {[tableElem.1]} ∪ processedTables st in
    extractedData ← extractData template title tableElem.2 courtName courtDate;
    let kept :=
      fold_left keepNew extractedData (processedClaimNumbers st, scraped st) in
    Ok (mkScrape processed kept.1 kept.2).

(** [$('table').filter(...)] for the template. *)
Definition candidateTables (template : Template) (d : Document)
  : list (nat * Table) :=
  filter (fun tableElem => isCandidateTable template tableElem.2 = true)
         (imap pair (docTables d)).

Definition scrapeDataFromHtml (d : Document) : result (list CaseRecord) :=
  match identifyTemplate d with
  | None => Ok []
  | Some template =>
      '(courtName, courtDate) ← foldM scanParagraph (docParagraphs d) ("", "");
      let courtName := join " " (firstOccurrences [] (split " " courtName)) in
      let tables := candidateTables template d in
      if (length tables =? 0)%nat then Ok []
      else
        st ← foldM (processTable template (docTitle d) courtName courtDate)
              tables (mkScrape ∅ ∅ []);
        Ok (scraped st)
  end.

End Scraper.

(** *** What the deduplication is measured against *)

(** A loop that collects the results of a body that may throw. *)
Fixpoint mapM {A B} (f : A -> result B) (l : list A) : result (list B) :=
  match l with
  | [] => Ok []
  | a :: t => b ← f a; bs ← mapM f t; Ok (b :: bs)
  end.

(** The rows the extractor produces for the candidate tables of the
    document, in order, before any of them is dropped. *)
Definition extractedRows (parseDate : string -> option JsDate) (d : Document)
  : result (list CaseRecord) :=
  match identifyTemplate d with
  | None => Ok []
  | Some template =>
      '(courtName, courtDate) ←
        foldM (scanParagraph parseDate) (docParagraphs d) ("", "");
      let courtName := join " " (firstOccurrences [] (split " " courtName)) in
      perTable ←
        mapM (fun tableElem : nat * Table =>
                extractData parseDate template (docTitle d) tableElem.2
                            courtName courtDate)
             (candidateTables template d);
      Ok (concat perTable)
  end.

(** First-wins deduplication by claim number, [seen] being the claim
    numbers already taken. *)
Fixpoint firstWins (seen : gset string) (rows : list CaseRecord)
  : list CaseRecord :=
  match rows with
  | [] => []
  | row :: t =>
      if bool_decide (ClaimNumber row ∈ seen) then firstWins seen t
      else row :: firstWins ({[ClaimNumber row]} ∪ seen) t
  end.

Definition claimNumbers (rows : list CaseRecord) : gset string :=
  list_to_set (map ClaimNumber rows).

(** ** An instance of the date constructor

    [dmyDate] reads ["<day> <month name> <year>"], the form every engine
    accepts and the one the documents carry once the ordinal suffix is
    gone, and rejects anything else.  It is used to run the model on
    examples; the theorems hold for any constructor. *)

Definition monthNames : list string :=
  ["january"; "february"; "march"; "april"; "may"; "june"; "july";
   "august"; "september"; "october"; "november"; "december"].

Fixpoint indexOf (x : string) (l : list string) (i : Z) : option Z :=
  match l with
  | [] => None
  | y :: t => if String.eqb x y then Some i else indexOf x t (i + 1)
  end.

Definition allDigits (s : string) : option Z :=
  if forallb isDigit (chars s) then digitsPrefix 10 None (chars s) else None.

Definition dmyDate (text : string) : option JsDate :=
  match split " " text with
  | [d; m; y] =>
      match allDigits d, indexOf (toLowerCase m) monthNames 0, allDigits y with
      | Some day, Some month, Some year =>
          if (1 <=? day) && (day <=? 31) then Some (mkDate year month day)
          else None
      | _, _, _ => None
      end
  | _ => None
  end.

(** ** Sample documents *)

Module Sample.

(** A cell whose text sits in one paragraph. *)
Definition cell (text : string) : Cell := mkCell text [text] None false.

Definition row (texts : list string) : Row := map cell texts.

(** A possession schedule: one header row and five data rows, of which
    the second carries the placeholder claim number, the third is not a
    possession hearing and the fifth repeats the claim number of the
    first. *)
Definition scheduleTable : Table :=
  mkTable "Start Time Duration Case Details Hearing Type Hearing Channel"
    [ row ["Start Time"; "Duration"; "Case Details"; "Hearing Type";
           "Hearing Channel"];
      row ["10:00"; "1 hour"; "K00AB123 Smith v Jones"; "Possession";
           "In person"];
      row ["10:30"; "1 hour"; "PCOL Smith v Jones"; "Possession"; "In person"];
      row ["11:00"; "1 hour"; "K00AB124 Doe v Roe"; "Trial"; "In person"];
      row ["11:30"; "30 mins"; "K00AB125 Hill -v- Dale"; "Possessions";
           "Remote"];
      row ["12:00"; "1 hour"; "K00AB123 Smith v Jones"; "Possession";
           "Remote"] ].

Definition schedule : Document :=
  mkDocument "CourtServe: Leeds County Court"
    "Tuesday, 18th October 2024 Start Time Duration Case Details Hearing Type Hearing Channel"
    ["Tuesday, 18th October 2024"] [scheduleTable].

Definition scheduleRecords : list CaseRecord :=
  [ mkRecord "Leeds" "18/10/2024" "K00AB123" "Smith" "Jones" "1 hour"
      "Possession" "In person" "CourtServe: Leeds County Court";
    mkRecord "Leeds" "18/10/2024" "K00AB125" "Hill" "Dale" "30 mins"
      "Possessions" "Remote" "CourtServe: Leeds County Court" ].

(** The table of the end-to-end scenario: a combined header and one data
    row of three cells, the second holding two paragraphs. *)
Definition combinedTable : Table :=
  mkTable "Time Claim Number Claimant Defendant 09:00 CL123 John Smith Jane Doe"
    [ row ["Time"; "Claim Number Claimant"; "Defendant"];
      [ cell "09:00";
        mkCell "CL123 John Smith" ["CL123"; "John Smith"] None false;
        cell "Jane Doe" ] ].

(** The same table with the parties in the third cell. *)
Definition combinedTable' : Table :=
  mkTable "Time Claim Number Claimant Defendant 09:00 CL123 John Smith Jane Doe"
    [ row ["Time"; "Claim Number Claimant"; "Defendant"];
      [ cell "09:00";
        cell "CL123";
        mkCell "John Smith Jane Doe" ["John Smith"; "Jane Doe"] None false ] ].

Definition combinedList : Document :=
  mkDocument "CourtServe: Barnet County Court"
    "Time Claim Number Claimant Defendant 09:00 CL123 John Smith Jane Doe"
    [] [combinedTable].

Definition combinedList' : Document :=
  mkDocument "CourtServe: Barnet County Court"
    "Time Claim Number Claimant Defendant 09:00 CL123 John Smith Jane Doe"
    [] [combinedTable'].

(** A case reference list whose only row carries the placeholder. *)
Definition caseRefTable : Table :=
  mkTable "Time Case Ref Case Type Case Name 10:00 PCOL Possession Smith v Jones"
    [ row ["Time"; "Case Ref"; "Case Type"; "Case Name"];
      row ["10:00"; "PCOL"; "Possession"; "Smith v Jones"] ].

Definition caseRefList : Document :=
  mkDocument "CourtServe: Leeds County Court"
    "Time Case Ref Case Type Case Name 10:00 PCOL Possession Smith v Jones"
    [] [caseRefTable].

(** A claim list of template 4 and a combined list of template 4a whose
    only row carries the placeholder. *)
Definition claimTable : Table :=
  mkTable "Claim Number Claimant Defendant PCOL Smith Jones"
    [ row ["Claim Number"; "Claimant"; "Defendant"];
      row ["PCOL"; "Smith"; "Jones"] ].

Definition claimList : Document :=
  mkDocument "CourtServe: Nottingham County Court"
    "Nottingham Wigham Court Room 7 Claim Number Claimant Defendant PCOL Smith Jones"
    [] [claimTable].

Definition placeholderTable : Table :=
  mkTable "Time Claim Number Claimant Defendant 09:00 PCOL John Smith Jane Doe"
    [ row ["Time"; "Claim Number Claimant"; "Defendant"];
      [ cell "09:00";
        cell "PCOL";
        mkCell "John Smith Jane Doe" ["John Smith"; "Jane Doe"] None false ] ].

Definition placeholderList : Document :=
  mkDocument "CourtServe: Barnet County Court"
    "Time Claim Number Claimant Defendant 09:00 PCOL John Smith Jane Doe"
    [] [placeholderTable].

(** A document that answers to the tokens of template 7 and of
    template 5 at once. *)
Definition bothLayouts : Document :=
  mkDocument "Daily list"
    "Case  Ref Case Name Start Time Duration Case Details Hearing Type Hearing Channel"
    [] [].

(** A document with no table and no known header. *)
Definition blank : Document := mkDocument "" "Nothing to see" [] [].

End Sample.

(** ** Vocabulary of the properties *)

(** The shape of what [split] returns for an expression with one group:
    pieces with one capture between two of them. *)
Inductive Pieces : list (option string) -> Prop :=
| Pieces_last p : Pieces [Some p]
| Pieces_more p c l : Pieces l -> Pieces (Some p :: c :: l).

(** The callback leaves the records alone or adds one that satisfies [P]. *)
Definition addsOnly (P : CaseRecord → Prop) (st st' : Loop) : Prop :=
  data st' = data st ∨ ∃ rec, data st' = data st ++ [rec] ∧ P rec.

Definition cellsText5 (row : Row) : list string :=
  map (fun cell => collapseSpaces (trim (cellText cell)))
      (filter (fun cell => cellIsEmptyLayout cell = false) row).

(** What every template promises of a record: its Court Name is what
    [extractCourtLocation] returns for the title, [null] giving the
    empty string. *)
Definition titled (titlename : string) (rec : CaseRecord) : Prop :=
  ∃ location,
    extractCourtLocation titlename = Ok location ∧
    CourtName rec = orStr location "".

(** What template 5 promises of a record. *)
Definition good5 (titlename : string) (rec : CaseRecord) : Prop :=
  titled titlename rec ∧
  test Rx.possessions (HearingType rec) = true ∧
  ClaimNumber rec ≠ "PCOL".

(** Two runs of a callback from loop variables that differ in
    [courtName] only. *)
Definition sameButName (st1 st2 : Loop) : Prop :=
  headersIndex st1 = headersIndex st2 ∧ data st1 = data st2.

Definition blindToName (f : Loop → Row → result Loop) : Prop :=
  ∀ st1 st2 row st1',
    sameButName st1 st2 → f st1 row = Ok st1' →
    ∃ st2', f st2 row = Ok st2' ∧ sameButName st1' st2'.

(** *** What an expression without anchors matches *)

Fixpoint anchorFree (r : regex) : bool :=
  match r with
  | REmpty | RChar _ => true
  | RSeq r1 r2 | RAlt r1 r2 => anchorFree r1 && anchorFree r2
  | RStar _ r1 | RGroup _ r1 => anchorFree r1
  | RBol | REol | RWordB => false
  end.

(** [Lang r m]: the characters [m] are matched by [r]. *)
Inductive Lang : regex → list ascii → Prop :=
| L_empty : Lang REmpty []
| L_char p c : p c = true → Lang (RChar p) [c]
| L_seq r1 r2 m1 m2 :
    Lang r1 m1 → Lang r2 m2 → Lang (RSeq r1 r2) (m1 ++ m2)
| L_alt_l r1 r2 m : Lang r1 m → Lang (RAlt r1 r2) m
| L_alt_r r1 r2 m : Lang r2 m → Lang (RAlt r1 r2) m
| L_star_nil g r : Lang (RStar g r) []
| L_star_more g r m1 m2 :
    m1 ≠ [] → Lang r m1 → Lang (RStar g r) m2 → Lang (RStar g r) (m1 ++ m2)
| L_group n r m : Lang r m → Lang (RGroup n r) m.

(** [m] is [w] up to letter case. *)
Definition eqCI (m : list ascii) (w : string) : Prop :=
  map lowerChar m = map lowerChar (chars w).

Definition spaces (m : list ascii) : Prop := Forall (λ c, isSpace c = true) m.

(** [s] holds one of [words] between two runs of white space. *)
Definition hasSeparator (words : list string) (s : string) : Prop :=
  ∃ pre ws1 tok ws2 post w,
    chars s = pre ++ ws1 ++ tok ++ ws2 ++ post ∧
    ws1 ≠ [] ∧ spaces ws1 ∧ ws2 ≠ [] ∧ spaces ws2 ∧
    w ∈ words ∧ eqCI tok w.

(** [s] holds [w1], any white space, then [w2]. *)
Definition hasWords (w1 w2 : string) (s : string) : Prop :=
  ∃ pre a ws b post,
    chars s = pre ++ a ++ ws ++ b ++ post ∧
    eqCI a w1 ∧ spaces ws ∧ eqCI b w2.

(** [s] holds [w]. *)
Definition hasWord (w : string) (s : string) : Prop :=
  ∃ pre a post, chars s = pre ++ a ++ post ∧ eqCI a w.

(** The captures of [st'] are those of [st] and more. *)
Definition capsGrow (st st' : mstate) : Prop :=
  ∃ l, ms_caps st' = l ++ ms_caps st.

(** The states a continuation may be handed after [m] has been read
    from [st]. *)
Definition after (st : mstate) (m : list ascii) (st' : mstate) : Prop :=
  ms_rest st = m ++ ms_rest st' ∧ ms_pos st' = (ms_pos st + length m)%nat.

(** [join] on lists of characters. *)
Fixpoint joinChars (sep : list ascii) (l : list (list ascii)) : list ascii :=
  match l with
  | [] => []
  | x :: t =>
      match t with
      | [] => x
      | _ :: _ => x ++ sep ++ joinChars sep t
      end
  end.

(** [x || 'Not Provided'] for a string. *)
Definition orNotProvided (x : string) : string :=
  if String.eqb x "" then "Not Provided" else x.

(** [text] is [pre], the separator [" | "] and [post], and no separator
    starts before the end of [pre]. *)
Definition firstBoundary (text pre post : string) : Prop :=
  text = pre +:+ " | " +:+ post ∧
  ∀ a b, text = a +:+ " | " +:+ b → (String.length pre ≤ String.length a)%nat.

(** [text] holds no [" | "]. *)
Definition noBoundary (text : string) : Prop :=
  ∀ a b, text ≠ a +:+ " | " +:+ b.

(** [replace(/\s+/g, ' ')] read off the characters: every run of white
    space becomes one blank; [inRun] tells that the character before was
    white space. *)
Fixpoint collapseFrom (inRun : bool) (l : list ascii) : list ascii :=
  match l with
  | [] => []
  | c :: t =>
      if isSpace c
      then if inRun then collapseFrom true t else " "%char :: collapseFrom true t
      else c :: collapseFrom false t
  end.

(** The number of white space characters [l] starts with. *)
Definition runLength (l : list ascii) : nat :=
  (length l - length (dropSpaces l))%nat.

Definition solid (l : list ascii) : Prop := Forall (λ c, isSpace c = false) l.

(** ** [saveToCsv]

    The file system is left out: [saveToCsv] returns the file it writes,
    name and content, and [main] reads the directory as the list of its
    entries with their parsed documents and returns where each file is
    moved. *)

Definition quote : ascii := "034"%char.
Definition newline : string := String "010"%char "".

Definition headers : list string :=
  ["Court Name"; "Court Date"; "Claim Number"; "Claimant"; "Defendant";
   "Duration"; "Hearing Type"; "Hearing Channel"; "Title"].

(** [row[header]] *)
Definition getField (row : CaseRecord) (header : string) : option string :=
  if String.eqb header "Court Name" then Some (CourtName row)
  else if String.eqb header "Court Date" then Some (CourtDate row)
  else if String.eqb header "Claim Number" then Some (ClaimNumber row)
  else if String.eqb header "Claimant" then Some (Claimant row)
  else if String.eqb header "Defendant" then Some (Defendant row)
  else if String.eqb header "Duration" then Some (Duration row)
  else if String.eqb header "Hearing Type" then Some (HearingType row)
  else if String.eqb header "Hearing Channel" then Some (HearingChannel row)
  else if String.eqb header "Title" then Some (Title row)
  else None.

(** [cellData.replace] with the global expression for the quote
    character: every quote is doubled. *)
Definition escapeQuotes (cellData : string) : string :=
  str (flat_map (fun c => if Ascii.eqb c quote then [quote; quote] else [c])
                (chars cellData)).

Definition formatCell (row : CaseRecord) (header : string) : string :=
  let cellData := trim (orStr (getField row header) "") in
  str [quote] +:+ escapeQuotes cellData +:+ str [quote].

Definition formattedRow (row : CaseRecord) : string :=
  join "," (map (formatCell row) headers).

Definition csvContent (data : list CaseRecord) : string :=
  join newline ([join "," headers] ++ map formattedRow data).

Definition outputFileName (now : JsDate) : string :=
  let dateSuffix :=
    ofInt (getFullYear now) +:+ "-" +:+
    padStart2 (ofInt (getMonth now + 1)) +:+ "-" +:+
    padStart2 (ofInt (getDate now)) in
  "output_" +:+ dateSuffix +:+ ".csv".

(** [None]: nothing is written. *)
Definition saveToCsv (now : JsDate) (data : list CaseRecord)
  : option (string * string) :=
  if (length data =? 0)%nat then None
  else Some (outputFileName now, csvContent data).

(** ** [main] *)

(** The position of the last dot of a name, counted from [i]. *)
Fixpoint lastDot (l : list ascii) (i : nat) : option nat :=
  match l with
  | [] => None
  | c :: t =>
      match lastDot t (S i) with
      | Some j => Some j
      | None => if Ascii.eqb c "." then Some i else None
      end
  end.

(** [path.extname] on the name of a directory entry: the name from its
    last dot on, and nothing when it has no dot, when its only dot comes
    first and for [".."]. *)
Definition extname (file : string) : string :=
  match lastDot (chars file) 0 with
  | None => ""
  | Some startDot =>
      if (startDot =? 0)%nat || String.eqb file ".." then ""
      else str (drop startDot (chars file))
  end.

(** The variables of [main]: the records collected, and the files moved
    to [checked_files] and to [unprocessed_files]. *)
Record Batch : Type := mkBatch {
  allData : list CaseRecord;
  checkedFiles : list string;
  unprocessedFiles : list string
}.

Section Main.

Variable parseDate : string -> option JsDate.

(** The body of [fs.readdirSync(inputDirectory).forEach(...)]. *)
Definition visitFile (st : Batch) (entry : string * Document) : result Batch :=
  let '(file, document) := entry in
  if String.eqb (toLowerCase (extname file)) ".html" then
    fileData ← scrapeDataFromHtml parseDate document;
    if (length fileData =? 0)%nat
    then Ok (mkBatch (allData st) (checkedFiles st)
                     (unprocessedFiles st ++ [file]))
    else Ok (mkBatch (allData st ++ fileData) (checkedFiles st ++ [file])
                     (unprocessedFiles st))
  else Ok st.

(** [inputDirectory] is [None] when the directory does not exist; the
    second component of the result is the file [saveToCsv] writes. *)
Definition main (now : JsDate)
    (inputDirectory : option (list (string * Document)))
  : result (Batch * option (string * string)) :=
  match inputDirectory with
  | None => Ok (mkBatch [] [] [], None)
  | Some entries =>
      st ← foldM visitFile entries (mkBatch [] [] []);
      Ok (st, if (0 <? length (allData st))%nat
              then saveToCsv now (allData st)
              else None)
  end.

End Main.

(** ** Vocabulary of the further properties *)

(** [s] holds no pipe character. *)
Definition noPipe (s : string) : Prop := "|"%char ∉ chars s.

(** What the extractors of templates 4 and 4a promise of a record beyond
    its court name. *)
Definition plain (titlename : string) (rec : CaseRecord) : Prop :=
  Title rec = titlename ∧
  Duration rec = "Not Provided" ∧
  HearingType rec = "Not Provided" ∧
  HearingChannel rec = "Not Provided".

(** What the extractors of templates 5 and 7 promise of a record beyond
    its court name: no empty party, duration, hearing type or channel. *)
Definition filled (titlename : string) (rec : CaseRecord) : Prop :=
  Title rec = titlename ∧
  Claimant rec ≠ "" ∧ Defendant rec ≠ "" ∧ Duration rec ≠ "" ∧
  HearingType rec ≠ "" ∧ HearingChannel rec ≠ "".

Definition pipeFree (rec : CaseRecord) : Prop :=
  noPipe (Claimant rec) ∧ noPipe (Defendant rec).

(** The row callback of a template. *)
Definition rowOf (parseDate : string -> option JsDate) (template : Template)
    (titlename courtDate : string) : Loop → Row → result Loop :=
  match template with
  | template4 => row4 parseDate titlename courtDate
  | template4a => row4a parseDate titlename courtDate
  | template5 => row5 parseDate titlename courtDate
  | template7 => row7 parseDate titlename courtDate
  end.

(** The test by which the row callback of a template takes a row for a
    header row. *)
Definition isHeaderRow (template : Template) (row : Row) : bool :=
  match template with
  | template4 =>
      existsb (fun text => test Re.claimNumber (normalizeText text))
              (map (fun cell => collapseSpaces (trim (cellText cell))) row)
  | template4a =>
      existsb (fun text => test Rx.combinedHeader (normalizeText text))
              (map paragraphText row)
  | template5 =>
      negb (existsb (test Rx.partyName) (cellsText5 row)) &&
      existsb (fun text => test Re.startTime (normalizeText text))
              (cellsText5 row)
  | template7 =>
      existsb (fun text => test Rx.caseRefHeader (normalizeText text))
              (cellsText5 row)
  end.

(** The rows below the first header row; none when there is no header
    row. *)
Fixpoint belowHeader (template : Template) (rows : list Row) : list Row :=
  match rows with
  | [] => []
  | row :: rest =>
      if isHeaderRow template row then rest else belowHeader template rest
  end.

(** Two cells that differ at most in their [colspan] attribute, and two
    lists of rows made of such cells. *)
Definition sameButColspan (c1 c2 : Cell) : Prop :=
  cellText c1 = cellText c2 ∧
  cellParagraphs c1 = cellParagraphs c2 ∧
  cellIsEmptyLayout c1 = cellIsEmptyLayout c2.

Definition sameRows (rows1 rows2 : list Row) : Prop :=
  Forall2 (Forall2 sameButColspan) rows1 rows2.

(** Two runs that both throw, or return related values. *)
Definition related {A} (R : A → A → Prop) (x y : result A) : Prop :=
  match x, y with
  | Ok a, Ok b => R a b
  | Throw, Throw => True
  | _, _ => False
  end.

(** Two states of the row loop with the same records and the same keys in
    the column map. *)
Definition sameKeys (st1 st2 : Loop) : Prop :=
  dom (headersIndex st1) = dom (headersIndex st2) ∧ data st1 = data st2.

(** The field a header cell of template 4, and of template 7, names: the
    first test of [assign4], of [assign7], its normalized text passes. *)
Definition headerKey4 (headerText : string) : option string :=
  if test Re.claimNumber headerText then Some "claimNumber"
  else if test Rx.claimantHeader headerText then Some "claimant"
  else if test Rx.defendantHeader headerText then Some "defendant"
  else None.

Definition headerKey7 (headerText : string) : option string :=
  if test Rx.timeHeader headerText then Some "time"
  else if test Rx.caseRefHeader headerText then Some "caseRef"
  else if test Rx.caseNameHeader headerText then Some "caseName"
  else if test Rx.caseTypeHeader headerText then Some "caseType"
  else if test Rx.durationHeader headerText then Some "duration"
  else if test Rx.hearingTypeHeader headerText then Some "hearingType"
  else if test Rx.hearingPlatformHeader headerText then Some "hearingPlatform"
  else None.

(** The columns the cells before position [k] span together: their
    spans added from the left, as the walk adds them. *)
Definition columnsBefore (cells : list Cell) (k : nat) : Number :=
  fold_left (fun n cell => addNumber n (colspanOf (cellColspan cell)))
            (take k cells) (Int 0).

(** The integers that doubles add without rounding. *)
Definition safeInteger (z : Z) : Prop := - 2 ^ 53 <= z <= 2 ^ 53.

Definition total (zs : list Z) : Z := foldr Z.add 0 zs.

(** [key] is named by the header cell at position [k], and by no later
    cell of the row. *)
Definition lastNamedAt (headerKey : string → option string)
    (cells : list Cell) (key : string) (k : nat) : Prop :=
  (∃ cell, cells !! k = Some cell ∧
           headerKey (normalizeText (cellText cell)) = Some key) ∧
  ∀ k' cell', (k < k')%nat → cells !! k' = Some cell' →
              headerKey (normalizeText (cellText cell')) ≠ Some key.

(** The nine fields of a record as they are printed: without the white
    space around them. *)
Definition printedFields (row : CaseRecord) : list string :=
  map trim [CourtName row; CourtDate row; ClaimNumber row; Claimant row;
            Defendant row; Duration row; HearingType row;
            HearingChannel row; Title row].

(** A cell of the file: the characters between two quotes, every quote
    among them doubled. *)
Definition escaped (x : list ascii) : list ascii :=
  flat_map (fun c => if Ascii.eqb c quote then [quote; quote] else [c]) x.

Definition quoted (x : list ascii) : list ascii :=
  quote :: escaped x ++ [quote].

(** The further cells of a row, each after a comma, and what follows the
    row. *)
Fixpoint furtherCells (xs : list (list ascii)) (rest : list ascii)
  : list ascii :=
  match xs with
  | [] => rest
  | x :: xs => ","%char :: quote :: escaped x ++ quote :: furtherCells xs rest
  end.

(** The records [scrapeDataFromHtml] returns for a document. *)
Definition recordsOf (parseDate : string -> option JsDate) (d : Document)
  : list CaseRecord :=
  match scrapeDataFromHtml parseDate d with
  | Ok records => records
  | Throw => []
  end.

(** The entries of a directory that [main] reads. *)
Definition htmlFiles (entries : list (string * Document))
  : list (string * Document) :=
  filter (fun entry => toLowerCase (extname entry.1) = ".html") entries.

(** What the records of one document share. *)
Definition stamped (name date title : string) (rec : CaseRecord) : Prop :=
  CourtName rec = name ∧ CourtDate rec = date ∧ Title rec = title.

(** The court name and the court date an extractor gives its records. *)
Definition nameOf (titlename : string) : string :=
  match extractCourtLocation titlename with
  | Ok location => orStr location ""
  | Throw => ""
  end.

Definition dateOf (parseDate : string -> option JsDate) (template : Template)
    (courtDate : string) : string :=
  match template with
  | template5 => orStr (Some (formatCourtDate5 parseDate courtDate)) ""
  | _ => orStr (Some (formatCourtDate parseDate courtDate)) ""
  end.

(** The table with every cell declared two columns wide. *)
Definition widened (table : Table) : Table :=
  mkTable (tableText table)
    (map (map (fun c => mkCell (cellText c) (cellParagraphs c) (Some "2")
                               (cellIsEmptyLayout c)))
         (tableRows table)).

(** The cell texts the row callback of a template works on. *)
Definition rowTexts (template : Template) (row : Row) : list string :=
  match template with
  | template4 => map (fun cell => collapseSpaces (trim (cellText cell))) row
  | template4a => map paragraphText row
  | template5 | template7 => cellsText5 row
  end.

(** A row with fewer than two cell texts, or with empty texts only. *)
Definition idle (template : Template) (row : Row) : Prop :=
  (length (rowTexts template row) ≤ 1)%nat ∨
  Forall (λ text, text = "") (rowTexts template row).

(** [/\s+(x|y)\s+/i] *)
Definition sepExpr (x y : string) : regex :=
  seqs [plus space; RGroup 1 (RAlt (litI x) (litI y)); plus space].

(** [m] is a separator: one of [words], in any letter case, between two
    runs of white space. *)
Definition isSeparator (words : list string) (m : list ascii) : Prop :=
  ∃ ws1 tok ws2 w,
    m = ws1 ++ tok ++ ws2 ∧
    ws1 ≠ [] ∧ spaces ws1 ∧ ws2 ≠ [] ∧ spaces ws2 ∧
    w ∈ words ∧ eqCI tok w.

(** [s] is [a], a separator and [b]; no separator starts before the end
    of [a], and [b] holds none. *)
Definition cutAt (words : list string) (s a b : string) : Prop :=
  (∃ m, chars s = chars a ++ m ++ chars b ∧ isSeparator words m) ∧
  (∀ pre m post, chars s = pre ++ m ++ post → isSeparator words m →
                 (length (chars a) ≤ length pre)%nat) ∧
  ¬ hasSeparator words b.

(** [r] holds no capturing group. *)
Fixpoint groupFree (r : regex) : bool :=
  match r with
  | REmpty | RChar _ | RBol | REol | RWordB => true
  | RSeq r1 r2 | RAlt r1 r2 => groupFree r1 && groupFree r2
  | RStar _ r1 => groupFree r1
  | RGroup _ _ => false
  end.

(** [w] stands in the text, in any letter case, at offset [n] and
    nowhere else. *)
Definition onlyAt (w : string) (l : list ascii) (n : nat) : Prop :=
  ∀ pre m post, l = pre ++ m ++ post → eqCI m w → length pre = n.

(** What the expression of [extractCourtLocation] admits between its two
    words: white space, a run without a line break, white space. *)
Definition oneLine (mid : list ascii) : Prop :=
  ∃ ws1 loc ws2,
    mid = ws1 ++ loc ++ ws2 ∧
    spaces ws1 ∧ Forall (λ c, isDot c = true) loc ∧ spaces ws2.

(** The title is [pre], "CourtServe:", [mid], "County Court" and [post],
    the two words in any letter case. *)
Definition courtTitle (titlename : string) (pre c1 mid c2 post : list ascii)
  : Prop :=
  chars titlename = pre ++ c1 ++ mid ++ c2 ++ post ∧
  eqCI c1 "CourtServe:" ∧ eqCI c2 "County Court" ∧ oneLine mid.

(** The cell a data row of template 5 reads as case details, once its
    hearing type is known. *)
Definition caseDetailsOf (cellsText : list string)
    (hearingType : option string) : option string :=
  if strictEq hearingType (cellsText !! 3%nat) then cellsText !! 2%nat
  else if strictEq hearingType (cellsText !! 6%nat) then cellsText !! 5%nat
  else cellsText !! 4%nat.

(** [tok] is what [s] starts with, up to its first blank. *)
Definition firstToken (s tok : string) : Prop :=
  (" "%char ∉ chars tok) ∧ (s = tok ∨ ∃ rest, s = tok +:+ " " +:+ rest).

(** The case type a data row of template 7 reads. *)
Definition caseTypeOf (st : Loop) (row : Row) : string :=
  orStr (at_ (cellsText5 row) (headersIndex st !! "caseType")) "".

(** The row callback of template 4a takes the row for a data row: it is
    not a header row, the column map is not empty, and the row has more
    than one cell, the cell texts not being all empty. *)
Definition isDataRow4a (st : Loop) (row : Row) : Prop :=
  isHeaderRow template4a row = false ∧
  hasHeaders st = true ∧
  (1 < length row)%nat ∧
  ¬ Forall (λ text, text = "") (map paragraphText row).

(** A claim number as template 5 reads it: the placeholder, or a text
    without a blank. *)
Definition oneToken (rec : CaseRecord) : Prop :=
  ClaimNumber rec = "Not Provided" ∨ " "%char ∉ chars (ClaimNumber rec).
(** * Properties *)

(** ** Deduplication *)

Section Dedup.

Lemma fold_keepNew rows seen kept :
  fold_left keepNew rows (seen, kept) =
  (seen ∪ claimNumbers rows, kept ++ firstWins seen rows).
Proof.
  revert seen kept. induction rows as [|row rows IH]; intros seen kept.
  - simpl. f_equal; [set_solver | by rewrite app_nil_r].
  - cbn [fold_left firstWins]. unfold keepNew at 2.
    case_bool_decide as Hin.
    + rewrite IH. f_equal. unfold claimNumbers. simpl. set_solver.
    + rewrite IH, <- app_assoc. f_equal. unfold claimNumbers. simpl. set_solver.
Qed.

Lemma firstWins_app seen a b :
  firstWins seen (a ++ b) =
  firstWins seen a ++ firstWins (seen ∪ claimNumbers a) b.
Proof.
  revert seen. induction a as [|row a IH]; intros seen; simpl.
  - f_equal. unfold claimNumbers. simpl. set_solver.
  - case_bool_decide as Hin.
    + rewrite IH. do 2 f_equal. unfold claimNumbers. simpl. set_solver.
    + simpl. rewrite IH. do 3 f_equal. unfold claimNumbers. simpl. set_solver.
Qed.

Lemma firstWins_sublist seen rows : sublist (firstWins seen rows) rows.
Proof.
  revert seen. induction rows as [|row rows IH]; intros seen; simpl.
  - constructor.
  - case_bool_decide; [apply sublist_cons | apply sublist_skip]; apply IH.
Qed.

Lemma firstWins_fresh seen rows row :
  row ∈ firstWins seen rows → ClaimNumber row ∉ seen.
Proof.
  revert seen. induction rows as [|r rows IH]; intros seen; simpl.
  - inversion 1.
  - case_bool_decide as Hin; [apply IH|].
    intros [->|Hrow]%elem_of_cons; [done|].
    apply IH in Hrow. set_solver.
Qed.

Lemma firstWins_none seen rows cn :
  cn ∈ seen → filter (λ x, ClaimNumber x = cn) (firstWins seen rows) = [].
Proof.
  intros Hcn. destruct (filter _ _) as [|row l] eqn:Hf; [done|].
  assert (Hrow : row ∈ filter (λ x, ClaimNumber x = cn) (firstWins seen rows))
    by (rewrite Hf; left).
  apply list_elem_of_filter in Hrow as [Heq Hrow%firstWins_fresh]. congruence.
Qed.

(** Of the rows that carry a claim number not taken yet, the first one,
    and only that one, is kept. *)
Lemma firstWins_first seen rows cn :
  cn ∈ map ClaimNumber rows → cn ∉ seen →
  ∃ row,
    filter (λ x, ClaimNumber x = cn) (firstWins seen rows) = [row] ∧
    find (λ x, String.eqb (ClaimNumber x) cn) rows = Some row.
Proof.
  revert seen. induction rows as [|r rows IH]; intros seen Hin Hseen.
  - inversion Hin.
  - simpl in Hin. cbn [firstWins find].
    destruct (String.eqb_spec (ClaimNumber r) cn) as [Heq|Hne].
    + subst cn. rewrite bool_decide_eq_false_2 by done.
      exists r. split; [|done].
      rewrite filter_cons_True by done.
      f_equal. apply firstWins_none. set_solver.
    + apply elem_of_cons in Hin as [Heq|Hin]; [congruence|].
      case_bool_decide as Hr.
      * by apply IH.
      * rewrite filter_cons_False by done. apply IH; [done|set_solver].
Qed.

End Dedup.

(** ** The loop over the candidate tables *)

Section Tables.

Variable parseDate : string -> option JsDate.

Lemma candidateTables_NoDup template d :
  NoDup (map fst (candidateTables template d)).
Proof.
  unfold candidateTables.
  apply (sublist_NoDup _ (fst <$> imap pair (docTables d))).
  - rewrite fmap_imap.
    rewrite (imap_ext _ (λ j _, id j)) by done.
    rewrite imap_seq_0, list_fmap_id. apply NoDup_seq.
  - apply fmap_sublist, sublist_filter.
Qed.

(** No table is met twice, so the loop extracts every candidate table and
    keeps, of all the rows, the first of each claim number. *)
Lemma foldM_processTable template title name date tables st st' :
  NoDup (map fst tables) →
  (∀ i, i ∈ map fst tables → i ∉ processedTables st) →
  foldM (processTable parseDate template title name date) tables st = Ok st' →
  ∃ perTable,
    mapM (fun tableElem : nat * Table =>
            extractData parseDate template title tableElem.2 name date)
         tables = Ok perTable ∧
    scraped st' =
      scraped st ++ firstWins (processedClaimNumbers st) (concat perTable).
Proof.
  revert st. induction tables as [|[i table] tables IH]; intros st Hnd Hfresh Hrun.
  - simpl in Hrun. injection Hrun as <-. exists []. by rewrite app_nil_r.
  - simpl in Hnd. apply NoDup_cons in Hnd as [Hi Hnd].
    cbn [foldM] in Hrun. unfold processTable at 2 in Hrun.
    rewrite bool_decide_eq_false_2 in Hrun
      by (apply Hfresh; simpl; left).
    cbn [fst snd] in Hrun.
    cbn [mapM fst snd].
    destruct (extractData parseDate template title table name date)
      as [extractedData|] eqn:Hx; [|done].
    cbn in Hrun. rewrite fold_keepNew in Hrun. cbn [fst snd] in Hrun.
    apply IH in Hrun as (perTable & Hmap & Hscr); [| done |].
    + exists (extractedData :: perTable). rewrite Hmap. split; [done|].
      rewrite Hscr. cbn [scraped processedClaimNumbers concat].
      by rewrite firstWins_app, app_assoc.
    + intros j Hj. cbn [processedTables].
      assert (j ≠ i) by (intros ->; done).
      assert (j ∉ processedTables st) by (apply Hfresh; simpl; by right).
      set_solver.
Qed.

(** What [scrapeDataFromHtml] returns is the first-wins deduplication of
    the extracted rows. *)
Lemma scrape_firstWins d records :
  scrapeDataFromHtml parseDate d = Ok records →
  ∃ produced,
    extractedRows parseDate d = Ok produced ∧
    records = firstWins ∅ produced.
Proof.
  unfold scrapeDataFromHtml, extractedRows.
  destruct (identifyTemplate d) as [template|]; [|intros [= <-]; by exists []].
  destruct (foldM (scanParagraph parseDate) _ _) as [[name date]|]; [|done].
  cbn.
  set (name' := join " " _).
  destruct (decide (candidateTables template d = [])) as [Hnil|Hne].
  - rewrite Hnil. cbn. intros [= <-]. by exists [].
  - destruct (length (candidateTables template d) =? 0)%nat eqn:Hlen.
    { apply Nat.eqb_eq in Hlen. destruct (candidateTables template d); done. }
    destruct (foldM _ _ _) as [st'|] eqn:Hrun; [|done].
    cbn. intros [= <-].
    apply foldM_processTable in Hrun as (perTable & Hmap & Hscr);
      [| apply candidateTables_NoDup | set_solver].
    rewrite Hmap. cbn. exists (concat perTable). by rewrite Hscr.
Qed.

End Tables.

(** ** Captures *)

Section Captures.

Lemma orElse_Some {A} (a b : option A) x :
  orElse a b = Some x → a = Some x ∨ b = Some x.
Proof. destruct a; cbn; auto. Qed.

Lemma starLoop_caps body g :
  (∀ st k x, body st k = Some x → ∃ st', k st' = Some x ∧ capsGrow st st') →
  ∀ fuel st k x, starLoop body g k fuel st = Some x →
    ∃ st', k st' = Some x ∧ capsGrow st st'.
Proof.
  intros Hbody fuel. induction fuel as [|fuel IH]; intros st k x Hrun.
  - exists st. split; [done|by exists []].
  - cbn [starLoop] in Hrun.
    assert (Hcases :
      body st (λ st', if (ms_pos st <? ms_pos st')%nat
                      then starLoop body g k fuel st' else None) = Some x
      ∨ k st = Some x).
    { destruct g; apply orElse_Some in Hrun; tauto. }
    destruct Hcases as [Hagain|Hk]; [|exists st; split; [done|by exists []]].
    apply Hbody in Hagain as (st1 & Hnext & [l1 Hl1]).
    destruct (ms_pos st <? ms_pos st1)%nat; [|done].
    apply IH in Hnext as (st2 & Hk & [l2 Hl2]).
    exists st2. split; [done|]. exists (l2 ++ l1).
    by rewrite Hl2, Hl1, app_assoc.
Qed.

(** A successful run hands its continuation a state that has all the
    captures it started with. *)
Lemma rmatch_caps r :
  ∀ st k x, rmatch r st k = Some x → ∃ st', k st' = Some x ∧ capsGrow st st'.
Proof.
  induction r as [|p|r1 IH1 r2 IH2|r1 IH1 r2 IH2|g r1 IH1|n r1 IH1| | |];
    intros st k x Hrun; cbn [rmatch] in Hrun.
  - exists st. split; [done|by exists []].
  - destruct (ms_rest st) as [|c t] eqn:Hrest; [done|].
    destruct (p c); [|done].
    unfold advance in Hrun. rewrite Hrest in Hrun. cbn in Hrun.
    eexists. split; [done|]. by exists [].
  - apply IH1 in Hrun as (st1 & Hrun & [l1 Hl1]).
    apply IH2 in Hrun as (st2 & Hk & [l2 Hl2]).
    exists st2. split; [done|]. exists (l2 ++ l1).
    by rewrite Hl2, Hl1, app_assoc.
  - apply orElse_Some in Hrun as [Hrun|Hrun]; [by apply IH1|by apply IH2].
  - eapply starLoop_caps; [|done]. intros. by apply IH1.
  - apply IH1 in Hrun as (st1 & Hk & [l1 Hl1]).
    eexists. split; [done|].
    exists ((n, (ms_pos st, ms_pos st1)) :: l1). cbn. by rewrite Hl1.
  - destruct (ms_pos st =? 0)%nat; [|done]. exists st. split; [done|by exists []].
  - destruct (ms_rest st); [|done]. exists st. split; [done|by exists []].
  - destruct (xorb _ _); [|done]. exists st. split; [done|by exists []].
Qed.

Lemma lookupCap_app n l ab caps :
  is_Some (lookupCap n (l ++ (n, ab) :: caps)).
Proof.
  induction l as [|[m cd] l IH]; cbn.
  - rewrite Nat.eqb_refl. by eexists.
  - destruct (m =? n)%nat; [by eexists|done].
Qed.

(** A group that every match goes through is captured. *)
Lemma rmatch_group_captured r0 r1 n r2 r3 st x :
  rmatch (RSeq r0 (RSeq r1 (RSeq (RGroup n r2) r3))) st Some = Some x →
  is_Some (lookupCap n (ms_caps x)).
Proof.
  cbn [rmatch]. intros Hrun.
  apply rmatch_caps in Hrun as (st0 & Hrun & _).
  apply rmatch_caps in Hrun as (st1 & Hrun & _).
  apply rmatch_caps in Hrun as (st2 & Hrun & _).
  apply rmatch_caps in Hrun as (st3 & [= <-] & [l Hl]).
  rewrite Hl. apply lookupCap_app.
Qed.

Lemma searchFrom_Some r prev pos rest m :
  searchFrom r prev pos rest = Some m →
  ∃ st st', rmatch r st Some = Some st' ∧ m_caps m = ms_caps st'.
Proof.
  revert prev pos. induction rest as [|c t IH]; intros prev pos;
    cbn [searchFrom]; destruct (rmatch r _ Some) as [st'|] eqn:Hrun;
    try done; try (intros [= <-]; by eexists _, _).
  apply IH.
Qed.

Lemma extractCourtLocation_total titlename :
  ∃ location, extractCourtLocation titlename = Ok location.
Proof.
  unfold extractCourtLocation, matchGroups, exec.
  destruct (searchFrom _ _ _ _) as [m|] eqn:Hm; [|by eexists].
  apply searchFrom_Some in Hm as (st & st' & Hrun & Hcaps).
  change Rx.courtLocation with
    (RSeq (litI "CourtServe:")
       (RSeq (star space)
          (RSeq (RGroup 1 (lazyStar dot))
                (seqs [star space; litI "County Court"])))) in Hrun.
  apply rmatch_group_captured in Hrun as [[a b] Hab].
  cbn [fmap option_fmap option_map seq map lookup list_lookup mjoin
       option_join mbind option_bind].
  unfold capture. rewrite Hcaps, Hab.
  cbn. by eexists.
Qed.

End Captures.

(** ** Nothing throws *)

Section Totality.

Variable parseDate : string -> option JsDate.

Lemma foldM_total {S A} (f : S -> A -> result S) l s :
  (∀ s a, ∃ s', f s a = Ok s') → ∃ s', foldM f l s = Ok s'.
Proof.
  intros Hf. revert s. induction l as [|a l IH]; intros s; simpl.
  - by exists s.
  - destruct (Hf s a) as [s1 ->]. apply IH.
Qed.

Lemma mapM_total {A B} (f : A -> result B) l :
  (∀ a, ∃ b, f a = Ok b) → ∃ bs, mapM f l = Ok bs.
Proof.
  intros Hf. induction l as [|a l [bs IH]]; simpl.
  - by exists [].
  - destruct (Hf a) as [b ->]. cbn. rewrite IH. cbn. by exists (b :: bs).
Qed.


Lemma splitScan_Pieces r s p skip prev q rest :
  Pieces (splitScan r 1 s p skip prev q rest).
Proof.
  revert p skip prev q. induction rest as [|c t IH]; intros p skip prev q.
  - constructor.
  - cbn [splitScan]. destruct skip; [|apply IH].
    destruct (rmatch r _ Some) as [st'|]; [|apply IH].
    destruct (_ =? p)%nat; [apply IH|].
    cbn [seq map app]. constructor. destruct (_ =? q)%nat; apply IH.
Qed.

Lemma splitScan_Some r s p skip prev q rest :
  Forall is_Some (splitScan r 0 s p skip prev q rest).
Proof.
  revert p skip prev q. induction rest as [|c t IH]; intros p skip prev q.
  - constructor; [by eexists|constructor].
  - cbn [splitScan]. destruct skip; [|apply IH].
    destruct (rmatch r _ Some) as [st'|]; [|apply IH].
    destruct (_ =? p)%nat; [apply IH|].
    cbn [seq map app]. constructor; [by eexists|].
    destruct (_ =? q)%nat; apply IH.
Qed.

Lemma splitRe_Some r s : Forall is_Some (splitRe r 0 s).
Proof.
  unfold splitRe. destruct (chars s) as [|c t] eqn:Hs.
  - destruct (rmatch r _ Some); repeat constructor. by eexists.
  - apply splitScan_Some.
Qed.

Lemma splitRe_Pieces r s :
  rmatch r (MState None O [] []) Some = None → Pieces (splitRe r 1 s).
Proof.
  intros Hr. unfold splitRe. destruct (chars s) as [|c t] eqn:Hs.
  - rewrite Hr. constructor.
  - apply splitScan_Pieces.
Qed.

(** The two ends of a split exist whenever the code reads them. *)
Lemma Pieces_parties parts :
  Pieces parts →
  ∃ p0, mjoin (parts !! 0%nat) = Some p0 ∧
    ((2 <=? length parts)%nat = true → ∃ p2, mjoin (parts !! 2%nat) = Some p2).
Proof.
  intros [p|p c l Hl].
  - exists p. split; [done|]. cbn. done.
  - exists p. split; [done|]. intros _. destruct Hl; cbn; by eexists.
Qed.

Lemma parties5_total caseDetails :
  ∃ cd, parties5 caseDetails = Ok cd.
Proof.
  unfold parties5.
  destruct (test Rx.sepV caseDetails || test Rx.sepDashV caseDetails);
    [|by eexists].
  set (parts := if test Rx.sepDashV caseDetails then _ else _).
  assert (Hp : Pieces parts).
  { subst parts. destruct (test Rx.sepDashV caseDetails);
      apply splitRe_Pieces; reflexivity. }
  destruct (Pieces_parties _ Hp) as (p0 & -> & H2).
  destruct (2 <=? length parts)%nat; cbn.
  - destruct H2 as [p2 ->]; [done|]. cbn. by eexists.
  - by eexists.
Qed.

Lemma parties7_total caseName :
  ∃ cd, parties7 caseName = Ok cd.
Proof.
  unfold parties7.
  destruct (testOpt Rx.looseV caseName) eqn:Ht; [|by eexists].
  destruct caseName as [caseName|]; [|discriminate Ht].
  cbn [mbind result_bind defined].
  set (parts := splitRe Rx.sepV 1 caseName).
  assert (Hp : Pieces parts) by (apply splitRe_Pieces; reflexivity).
  destruct (Pieces_parties _ Hp) as (p0 & -> & H2).
  destruct (2 <=? length parts)%nat; cbn.
  - destruct H2 as [p2 ->]; [done|]. cbn. by eexists.
  - by eexists.
Qed.

Lemma splitChars_nonempty sep n cur l : splitChars sep n cur l ≠ [].
Proof.
  revert n cur. induction l as [|c t IH]; intros n cur; simpl; [done|].
  destruct n; [|apply IH]. destruct (isPrefix sep (c :: t)); [done|apply IH].
Qed.

Lemma splitAtFirstPipe_total text : ∃ cd, splitAtFirstPipe text = Ok cd.
Proof.
  unfold splitAtFirstPipe, split.
  pose proof (splitChars_nonempty (chars " | ") O [] (chars text)) as Hne.
  destruct (splitChars _ _ _ _); [done|]. cbn. by eexists.
Qed.

Lemma parties4a_total cellsText : ∃ cd, parties4a cellsText = Ok cd.
Proof.
  unfold parties4a. destruct (_ =? 3)%nat; [|by eexists].
  destruct (splitAtFirstPipe_total (orStr (cellsText !! 2%nat) ""))
    as [[claimant defendant] ->].
  cbn. destruct (String.eqb claimant phoenix); by eexists.
Qed.

End Totality.

(** ** What a row callback does to the loop variables *)

Section Rows.

Variable parseDate : string -> option JsDate.


Lemma foldM_addsOnly (P : CaseRecord → Prop) (f : Loop → Row → result Loop)
    rows st :
  (∀ st row, ∃ st', f st row = Ok st' ∧ addsOnly P st st') →
  Forall P (data st) →
  ∃ st', foldM f rows st = Ok st' ∧ Forall P (data st').
Proof.
  intros Hf. revert st. induction rows as [|row rows IH]; intros st Hst; simpl.
  - by exists st.
  - destruct (Hf st row) as (st1 & -> & Hadd). cbn. apply IH.
    destruct Hadd as [->|(rec & -> & Hrec)]; [done|].
    apply Forall_app. split; [done|]. by constructor.
Qed.

Lemma testOpt_Some r h :
  testOpt r None = false → test r "" = false → testOpt r h = true →
  ∃ s, h = Some s ∧ orStr h "Not Provided" = s ∧ test r s = true.
Proof.
  intros Hnone Hempty Ht. destruct h as [s|]; [|congruence].
  exists s. split; [done|]. split; [|done].
  unfold orStr. destruct (String.eqb_spec s ""); [|done]. subst.
  change (test r "" = true) in Ht. congruence.
Qed.

Lemma strictEq_refl x : strictEq x x = true.
Proof. destruct x; [apply String.eqb_refl|done]. Qed.

Lemma strictEq_Some s y : strictEq (Some s) y = true → y = Some s.
Proof.
  destruct y as [t|]; [|done]. cbn. by intros ->%String.eqb_eq.
Qed.

Lemma lookup_below {A} (l : list A) i j :
  is_Some (l !! i) → (j ≤ i)%nat → is_Some (l !! j).
Proof.
  intros Hi%lookup_lt_is_Some Hj. apply lookup_lt_is_Some. lia.
Qed.

(** The probe of template 5 only succeeds on a cell that exists, matches
    and is not empty. *)
Lemma probeHearingType_Some cellsText hearingType :
  probeHearingType cellsText = Some hearingType →
  ∃ s, hearingType = Some s ∧ orStr hearingType "Not Provided" = s ∧
       test Rx.possessions s = true ∧
       (hearingType = cellsText !! 5%nat ∨ hearingType = cellsText !! 3%nat ∨
        hearingType = cellsText !! 6%nat).
Proof.
  unfold probeHearingType. intros Hp.
  assert (Ht : testOpt Rx.possessions hearingType = true ∧
               (hearingType = cellsText !! 5%nat ∨
                hearingType = cellsText !! 3%nat ∨
                hearingType = cellsText !! 6%nat)).
  { destruct (testOpt Rx.possessions (cellsText !! 5%nat)) eqn:H5;
      [injection Hp as <-; auto|].
    destruct (testOpt Rx.possessions (cellsText !! 3%nat)) eqn:H3;
      [injection Hp as <-; auto|].
    destruct (testOpt Rx.possessions (cellsText !! 6%nat)) eqn:H6;
      [injection Hp as <-; auto|done]. }
  destruct Ht as [Ht Hwhere].
  apply testOpt_Some in Ht as (s & -> & Hor & Hs); [|reflexivity..].
  exists s. auto.
Qed.

(** The case details cell the row of template 5 reads exists. *)
Lemma caseDetails_defined cellsText hearingType :
  probeHearingType cellsText = Some hearingType →
  (strictEq hearingType (cellsText !! 3%nat) = true →
   is_Some (cellsText !! 2%nat)) ∧
  (strictEq hearingType (cellsText !! 6%nat) = true →
   is_Some (cellsText !! 5%nat)) ∧
  (strictEq hearingType (cellsText !! 3%nat) = false →
   strictEq hearingType (cellsText !! 6%nat) = false →
   is_Some (cellsText !! 4%nat)).
Proof.
  intros (s & -> & _ & _ & Hwhere)%probeHearingType_Some.
  split; [|split].
  - intros H3%strictEq_Some. apply (lookup_below _ 3); [by rewrite H3|lia].
  - intros H6%strictEq_Some. apply (lookup_below _ 6); [by rewrite H6|lia].
  - intros H3 H6. destruct Hwhere as [H|[H|H]].
    + apply (lookup_below _ 5); [by rewrite <- H|lia].
    + rewrite <- H, strictEq_refl in H3. done.
    + rewrite <- H, strictEq_refl in H6. done.
Qed.



Lemma claimNumber_not_PCOL claimNumber :
  strictEq claimNumber (Some "PCOL") = false →
  orStr claimNumber "Not Provided" ≠ "PCOL".
Proof.
  destruct claimNumber as [s|]; cbn; [|done].
  intros Hs%String.eqb_neq. destruct (String.eqb s ""); done.
Qed.

Lemma row5_spec titlename courtDate st row :
  ∃ st', row5 parseDate titlename courtDate st row = Ok st' ∧
    addsOnly (good5 titlename) st st' ∧
    (probeHearingType (cellsText5 row) = None → data st' = data st).
Proof.
  unfold row5. fold (cellsText5 row). set (cellsText := cellsText5 row).
  destruct (existsb (test Rx.partyName) cellsText);
    [exists st; split; [done|split; [by left|done]]|].
  destruct (existsb _ cellsText);
    [eexists; split; [done|split; [by left|done]]|].
  destruct (_ && _); [|exists st; split; [done|split; [by left|done]]].
  destruct (forallb _ cellsText);
    [exists st; split; [done|split; [by left|done]]|].
  destruct (probeHearingType cellsText) as [hearingType|] eqn:Hprobe;
    [|exists st; split; [done|split; [by left|done]]].
  destruct (caseDetails_defined _ _ Hprobe) as (H3 & H6 & H4).
  destruct (probeHearingType_Some _ _ Hprobe) as (s & -> & Hor & Hs & _).
  set (quad := if strictEq (Some s) (cellsText !! 3%nat) then _ else _).
  assert (Hq : ∃ a b c e, quad = (a, b, Some c, e)).
  { subst quad. destruct (strictEq (Some s) (cellsText !! 3%nat)).
    { destruct H3 as [c Hc]; [done|]. rewrite Hc. by eexists _, _, _, _. }
    destruct (strictEq (Some s) (cellsText !! 6%nat)).
    { destruct H6 as [c Hc]; [done|]. rewrite Hc. by eexists _, _, _, _. }
    destruct H4 as [c Hc]; [done..|]. rewrite Hc. by eexists _, _, _, _. }
  destruct Hq as (startTime & duration & caseDetails & hearingChannel & ->).
  cbn [mbind result_bind defined].
  destruct (strictEq (head (split " " caseDetails)) (Some "PCOL")) eqn:Hpcol;
    [exists st; split; [done|split; [by left|done]]|].
  destruct (parties5_total
              (replaceFirst Rx.leadingToken 0 (λ _, "") caseDetails))
    as [[claimant defendant] ->].
  destruct (extractCourtLocation_total titlename) as [location Hloc].
  rewrite Hloc. cbn [mbind result_bind].
  eexists. split; [done|]. split; [|done].
  right. eexists. split; [done|].
  split; [by exists location|]. split; [cbn [HearingType]; by rewrite Hor|].
  by apply claimNumber_not_PCOL.
Qed.


Ltac keeps st := exists st; split; [done|by left].
Ltac adds titlename :=
  let location := fresh "location" in
  let Hloc := fresh "Hloc" in
  destruct (extractCourtLocation_total titlename) as [location Hloc];
  rewrite Hloc; cbn [mbind result_bind];
  eexists; split; [done|]; right; eexists; split; [done|by exists location].

Lemma row4_spec titlename courtDate st row :
  ∃ st', row4 parseDate titlename courtDate st row = Ok st' ∧
    addsOnly (titled titlename) st st'.
Proof.
  unfold row4.
  destruct (existsb _ _); [eexists; split; [done|by left]|].
  destruct (_ && _); [|keeps st].
  destruct (forallb _ _); [keeps st|adds titlename].
Qed.

Lemma row4a_spec titlename courtDate st row :
  ∃ st', row4a parseDate titlename courtDate st row = Ok st' ∧
    addsOnly (titled titlename) st st'.
Proof.
  unfold row4a.
  destruct (existsb _ _); [eexists; split; [done|by left]|].
  destruct (_ && _); [|keeps st].
  destruct (forallb _ _); [keeps st|].
  destruct (parties4a_total (map paragraphText row)) as [[claimant defendant] ->].
  cbn [mbind result_bind]. adds titlename.
Qed.

Lemma row7_spec titlename courtDate st row :
  ∃ st', row7 parseDate titlename courtDate st row = Ok st' ∧
    addsOnly (titled titlename) st st'.
Proof.
  unfold row7.
  destruct (existsb _ _); [eexists; split; [done|by left]|].
  destruct (_ && _); [|keeps st].
  destruct (forallb _ _); [keeps st|].
  destruct (negb _); [keeps st|].
  match goal with |- context [parties7 ?c] =>
    destruct (parties7_total c) as [[claimant defendant] ->] end.
  cbn [mbind result_bind]. adds titlename.
Qed.


Lemma foldM_blindToName f rows st1 st2 st1' :
  blindToName f → sameButName st1 st2 → foldM f rows st1 = Ok st1' →
  ∃ st2', foldM f rows st2 = Ok st2' ∧ sameButName st1' st2'.
Proof.
  intros Hf. revert st1 st2.
  induction rows as [|row rows IH]; intros st1 st2 Hsame Hrun; simpl in *.
  - injection Hrun as <-. by exists st2.
  - destruct (f st1 row) as [st1a|] eqn:H1; [|done].
    destruct (Hf _ _ _ _ Hsame H1) as (st2a & -> & Hsame').
    cbn in *. by eapply IH.
Qed.

Ltac blind :=
  intros [h1 n1 d1] [h2 n2 d2] row st1' [Hh Hd] Hrun;
  cbn [headersIndex data] in Hh, Hd; subst h2 d2;
  unfold hasHeaders, setHeaders, push in *;
  cbn [headersIndex data courtName] in *;
  repeat match type of Hrun with
    | (if ?c then _ else _) = _ => destruct c
    | mbind _ (extractCourtLocation ?t) = _ =>
        destruct (extractCourtLocation t) as [?|]; cbn [mbind result_bind] in *
    | mbind _ ?c = _ =>
        destruct c as [[? ?]|]; cbn [mbind result_bind] in *
    end;
  try discriminate;
  injection Hrun as <-; eexists; split; done.

Lemma row4_blind titlename courtDate :
  blindToName (row4 parseDate titlename courtDate).
Proof. unfold row4. blind. Qed.

Lemma row4a_blind titlename courtDate :
  blindToName (row4a parseDate titlename courtDate).
Proof. unfold row4a. blind. Qed.

Lemma row7_blind titlename courtDate :
  blindToName (row7 parseDate titlename courtDate).
Proof. unfold row7. blind. Qed.

Lemma row5_blind titlename courtDate :
  blindToName (row5 parseDate titlename courtDate).
Proof.
  unfold row5.
  intros [h1 n1 d1] [h2 n2 d2] row st1' [Hh Hd] Hrun;
  cbn [headersIndex data] in Hh, Hd; subst h2 d2;
  unfold hasHeaders, setHeaders, push in *;
  cbn [headersIndex data courtName] in *.
  repeat match type of Hrun with
    | (if ?c then _ else _) = _ => destruct c
    end;
  try (injection Hrun as <-; eexists; split; done).
  destruct (probeHearingType _) as [hearingType|];
    [|injection Hrun as <-; eexists; split; done].
  set (quad := if strictEq hearingType _ then _ else _) in *. clearbody quad.
  destruct quad as [[[startTime duration] [caseDetails|]] hearingChannel];
    [|discriminate].
  cbn [mbind result_bind defined] in *.
  destruct (strictEq _ (Some "PCOL"));
    [injection Hrun as <-; eexists; split; done|].
  destruct (parties5 _) as [[claimant defendant]|]; [|discriminate].
  cbn [mbind result_bind] in *.
  destruct (extractCourtLocation titlename) as [location|]; [|discriminate].
  cbn [mbind result_bind] in *.
  injection Hrun as <-; eexists; split; done.
Qed.

End Rows.

(** ** The extractors and the driver as wholes *)

Section Wholes.

Variable parseDate : string -> option JsDate.

Lemma extractDataTemplate5_spec title table name date :
  ∃ recs, extractDataTemplate5 parseDate title table name date = Ok recs ∧
    Forall (good5 (trim title)) recs.
Proof.
  unfold extractDataTemplate5.
  destruct (foldM_addsOnly (good5 (trim title))
              (row5 parseDate (trim title) date) (tableRows table)
              (mkLoop ∅ (Some name) [])) as (st & -> & Hst).
  - intros st row.
    destruct (row5_spec parseDate (trim title) date st row) as (st' & ? & ? & _).
    eauto.
  - constructor.
  - cbn. eauto.
Qed.

Lemma extractData_spec template title table name date :
  ∃ recs, extractData parseDate template title table name date = Ok recs ∧
    Forall (titled (trim title)) recs.
Proof.
  destruct template; cbn [extractData].
  - unfold extractDataTemplate4.
    destruct (foldM_addsOnly (titled (trim title))
                (row4 parseDate (trim title) date) (tableRows table)
                (mkLoop ∅ (Some name) [])) as (st & -> & Hst);
      [intros; apply row4_spec | constructor | cbn; eauto].
  - unfold extractDataTemplate4a.
    destruct (foldM_addsOnly (titled (trim title))
                (row4a parseDate (trim title) date) (tableRows table)
                (mkLoop ∅ (Some name) [])) as (st & -> & Hst);
      [intros; apply row4a_spec | constructor | cbn; eauto].
  - destruct (extractDataTemplate5_spec title table name date) as (recs & -> & H).
    exists recs. split; [done|]. eapply Forall_impl; [done|]. by intros r [? _].
  - unfold extractDataTemplate7.
    destruct (foldM_addsOnly (titled (trim title))
                (row7 parseDate (trim title) date) (tableRows table)
                (mkLoop ∅ (Some name) [])) as (st & -> & Hst);
      [intros; apply row7_spec | constructor | cbn; eauto].
Qed.

Lemma run_blind (f : Loop → Row → result Loop) rows name1 name2 r1 r2 :
  blindToName f →
  (st ← foldM f rows (mkLoop ∅ (Some name1) []); Ok (data st)) = Ok r1 →
  (st ← foldM f rows (mkLoop ∅ (Some name2) []); Ok (data st)) = Ok r2 →
  r1 = r2.
Proof.
  intros Hf H1 H2.
  destruct (foldM f rows (mkLoop ∅ (Some name1) [])) as [st1|] eqn:Hrun;
    [|done].
  eapply foldM_blindToName in Hrun as (st2 & Hrun2 & [_ Hdata]); [|done|].
  - rewrite Hrun2 in H2. cbn in H1, H2. congruence.
  - done.
Qed.

Lemma extractData_blind template title table name1 name2 date :
  extractData parseDate template title table name1 date =
  extractData parseDate template title table name2 date.
Proof.
  destruct (extractData_spec template title table name1 date) as (r1 & H1 & _).
  destruct (extractData_spec template title table name2 date) as (r2 & H2 & _).
  rewrite H1, H2. f_equal.
  destruct template; cbn [extractData] in H1, H2.
  - eapply run_blind; [apply row4_blind|exact H1|exact H2].
  - eapply run_blind; [apply row4a_blind|exact H1|exact H2].
  - eapply run_blind; [apply row5_blind|exact H1|exact H2].
  - eapply run_blind; [apply row7_blind|exact H1|exact H2].
Qed.

Lemma scanParagraph_total acc elemText :
  ∃ acc', scanParagraph parseDate acc elemText = Ok acc'.
Proof.
  destruct acc as [name date]. unfold scanParagraph.
  set (text := trim elemText).
  match goal with |- ∃ _, mbind _ ?c = _ => assert (∃ n, c = Ok n) as [n ->] end.
  { destruct (_ || _); [|by eexists].
    pose proof (splitRe_Some Rs.courtOrSittingAt text) as Hall.
    destruct (splitRe Rs.courtOrSittingAt 0 text) as [|p0 [|p1 parts]];
      cbn; try by eexists.
    apply Forall_cons in Hall as [_ [[p Hp] _]%Forall_cons]. subst p1.
    cbn. by eexists. }
  cbn [mbind result_bind]. by eexists.
Qed.

Lemma processTable_total template title name date st tableElem :
  ∃ st', processTable parseDate template title name date st tableElem = Ok st'.
Proof.
  unfold processTable. case_bool_decide; [by eexists|].
  destruct (extractData_spec template title tableElem.2 name date)
    as (recs & -> & _).
  cbn. by eexists.
Qed.

Lemma scrape_total d : ∃ records, scrapeDataFromHtml parseDate d = Ok records.
Proof.
  unfold scrapeDataFromHtml.
  destruct (identifyTemplate d) as [template|]; [|by eexists].
  destruct (foldM_total (scanParagraph parseDate) (docParagraphs d) ("", ""))
    as [[name date] ->]; [intros; apply scanParagraph_total|].
  cbn [mbind result_bind]. cbv beta iota.
  destruct (_ =? 0)%nat; [by eexists|].
  match goal with |- ∃ _, mbind _ (foldM ?f ?l ?s) = _ =>
    destruct (foldM_total f l s) as [st ->] end;
    [intros; apply processTable_total|].
  cbn. by eexists.
Qed.

Lemma extractedRows_spec d template :
  identifyTemplate d = Some template →
  ∃ produced, extractedRows parseDate d = Ok produced ∧
    Forall (titled (trim (docTitle d))) produced ∧
    (template = template5 → Forall (good5 (trim (docTitle d))) produced).
Proof.
  intros Ht. unfold extractedRows. rewrite Ht.
  destruct (foldM_total (scanParagraph parseDate) (docParagraphs d) ("", ""))
    as [[name date] ->]; [intros; apply scanParagraph_total|].
  cbn [mbind result_bind]. cbv beta iota.
  set (name' := join " " _).
  induction (candidateTables template d) as [|[i table] tables IH].
  - cbn. exists []. split; [done|]. split; [constructor|intros; constructor].
  - destruct IH as (produced & Hrun & Hall & H5).
    cbn [mapM fst snd].
    destruct (mapM _ tables) as [perTable|] eqn:Hmap; [|done].
    cbn in Hrun. injection Hrun as <-.
    destruct (extractData_spec template (docTitle d) table name' date)
      as (recs & Hx & Hrecs).
    rewrite Hx. cbn. eexists. split; [done|].
    split; [by apply Forall_app|].
    intros ->. apply Forall_app. split; [|by apply H5].
    cbn [extractData] in Hx.
    destruct (extractDataTemplate5_spec (docTitle d) table name' date)
      as (recs' & Hx' & Hrecs').
    congruence.
Qed.

End Wholes.

(** ** The matcher finds what the expression describes *)

Section Matcher.

Lemma after_nil st : after st [] st.
Proof. split; [done|simpl; lia]. Qed.

Lemma after_app st m1 st1 m2 st2 :
  after st m1 st1 → after st1 m2 st2 → after st (m1 ++ m2) st2.
Proof.
  intros [Hr1 Hp1] [Hr2 Hp2]. split.
  - by rewrite Hr1, Hr2, app_assoc.
  - rewrite Hp2, Hp1, length_app. lia.
Qed.

Lemma orElse_is_Some {A} (a b : option A) :
  is_Some a ∨ is_Some b → is_Some (orElse a b).
Proof. destruct a; cbn; [by eexists|]. by intros [[]|]. Qed.

Lemma starLoop_sound body g r :
  (∀ st k x, body st k = Some x →
     ∃ m st', Lang r m ∧ after st m st' ∧ k st' = Some x) →
  ∀ fuel st k x, starLoop body g k fuel st = Some x →
    ∃ m st', Lang (RStar g r) m ∧ after st m st' ∧ k st' = Some x.
Proof.
  intros Hbody fuel. induction fuel as [|fuel IH]; intros st k x Hrun.
  - exists [], st. split; [constructor|]. split; [apply after_nil|done].
  - cbn [starLoop] in Hrun.
    assert (Hcases :
      body st (λ st', if (ms_pos st <? ms_pos st')%nat
                      then starLoop body g k fuel st' else None) = Some x
      ∨ k st = Some x).
    { destruct g; apply orElse_Some in Hrun; tauto. }
    destruct Hcases as [Hagain|Hk].
    + apply Hbody in Hagain as (m1 & st1 & Hm1 & Haft1 & Hnext).
      destruct (ms_pos st <? ms_pos st1)%nat eqn:Hlt; [|done].
      apply Nat.ltb_lt in Hlt.
      apply IH in Hnext as (m2 & st2 & Hm2 & Haft2 & Hk).
      exists (m1 ++ m2), st2. split; [|split; [by eapply after_app|done]].
      constructor; [|done..].
      intros ->. destruct Haft1 as [_ Hp]. simpl in Hp. lia.
    + exists [], st. split; [constructor|]. split; [apply after_nil|done].
Qed.

(** Soundness: a successful run read some [m] in the language of [r]. *)
Lemma rmatch_sound r :
  anchorFree r = true →
  ∀ st k x, rmatch r st k = Some x →
    ∃ m st', Lang r m ∧ after st m st' ∧ k st' = Some x.
Proof.
  induction r as [|p|r1 IH1 r2 IH2|r1 IH1 r2 IH2|g r1 IH1|n r1 IH1| | |];
    intros Hfree st k x Hrun; cbn [anchorFree] in Hfree; try discriminate;
    cbn [rmatch] in Hrun.
  - exists [], st. split; [constructor|]. split; [apply after_nil|done].
  - destruct (ms_rest st) as [|c t] eqn:Hrest; [done|].
    destruct (p c) eqn:Hp; [|done].
    unfold advance in Hrun. rewrite Hrest in Hrun. cbn in Hrun.
    eexists [c], _. split; [by constructor|]. split; [|done].
    split; cbn; [done|lia].
  - apply andb_true_iff in Hfree as [H1 H2].
    apply (IH1 H1) in Hrun as (m1 & st1 & Hm1 & Haft1 & Hrun).
    apply (IH2 H2) in Hrun as (m2 & st2 & Hm2 & Haft2 & Hk).
    exists (m1 ++ m2), st2.
    split; [by constructor|]. split; [by eapply after_app|done].
  - apply andb_true_iff in Hfree as [H1 H2].
    apply orElse_Some in Hrun as [Hrun|Hrun].
    + apply (IH1 H1) in Hrun as (m & st' & Hm & Haft & Hk).
      exists m, st'. split; [by apply L_alt_l|done].
    + apply (IH2 H2) in Hrun as (m & st' & Hm & Haft & Hk).
      exists m, st'. split; [by apply L_alt_r|done].
  - eapply starLoop_sound; [|done]. intros. by apply IH1.
  - apply (IH1 Hfree) in Hrun as (m & st' & Hm & Haft & Hk).
    eexists m, _. split; [by constructor|]. split; [|done].
    destruct Haft. split; done.
Qed.

Lemma after_rest st m1 st1 m2 t :
  ms_rest st = (m1 ++ m2) ++ t → after st m1 st1 → ms_rest st1 = m2 ++ t.
Proof.
  intros Hrest [Hr _]. rewrite Hr, <- app_assoc in Hrest.
  by apply app_inv_head in Hrest.
Qed.

Lemma starLoop_complete body g r :
  (∀ m, Lang r m → ∀ st k t, ms_rest st = m ++ t →
     (∀ st', after st m st' → is_Some (k st')) → is_Some (body st k)) →
  ∀ m, Lang (RStar g r) m → ∀ fuel st k t,
    ms_rest st = m ++ t →
    (length m ≤ fuel)%nat →
    (∀ st', after st m st' → is_Some (k st')) →
    is_Some (starLoop body g k fuel st).
Proof.
  intros Hbody m Hm. remember (RStar g r) as rs eqn:Hrs.
  induction Hm as [| | | | |g' r'|g' r' m1 m2 Hne Hm1 _ Hm2 IH|];
    try discriminate; injection Hrs as -> ->; intros fuel st k t Hrest Hfuel Hk.
  - destruct fuel; cbn [starLoop]; [apply Hk, after_nil|].
    destruct g; apply orElse_is_Some; [right|left]; apply Hk, after_nil.
  - rewrite length_app in Hfuel.
    destruct fuel as [|fuel];
      [destruct m1; [done|simpl in Hfuel; lia]|].
    cbn [starLoop].
    assert (Hagain : is_Some
      (body st (λ st', if (ms_pos st <? ms_pos st')%nat
                       then starLoop body g k fuel st' else None))).
    { apply (Hbody m1 Hm1 st _ (m2 ++ t)); [by rewrite app_assoc|].
      intros st1 Haft1.
      assert (ms_pos st < ms_pos st1)%nat as ->%Nat.ltb_lt.
      { destruct Haft1 as [_ ->]. destruct m1; [done|simpl; lia]. }
      apply (IH eq_refl fuel st1 k t).
      - by eapply after_rest.
      - destruct m1; [done|simpl in Hfuel; lia].
      - intros st2 Haft2. apply Hk. by eapply after_app. }
    destruct g; apply orElse_is_Some; auto.
Qed.

(** Completeness: what is in the language of [r] is read by some run. *)
Lemma rmatch_complete r :
  ∀ m, Lang r m → ∀ st k t, ms_rest st = m ++ t →
    (∀ st', after st m st' → is_Some (k st')) → is_Some (rmatch r st k).
Proof.
  induction r as [|p|r1 IH1 r2 IH2|r1 IH1 r2 IH2|g r1 IH1|n r1 IH1| | |];
    intros m Hm st k t Hrest Hk; cbn [rmatch]; try (by inversion Hm).
  - inversion Hm; subst. apply Hk, after_nil.
  - inversion Hm as [|p' c Hp| | | | | |]; subst.
    cbn in Hrest. rewrite Hrest, Hp. unfold advance. rewrite Hrest. cbn.
    apply Hk. split; cbn; [done|lia].
  - inversion Hm as [| |r1' r2' m1 m2 Hm1 Hm2| | | | |]; subst.
    apply (IH1 m1 Hm1 st _ (m2 ++ t)); [by rewrite app_assoc|].
    intros st1 Haft1.
    apply (IH2 m2 Hm2 st1 k t); [by eapply after_rest|].
    intros st2 Haft2. apply Hk. by eapply after_app.
  - apply orElse_is_Some.
    inversion Hm; subst; [left; by eapply IH1|right; by eapply IH2].
  - eapply (starLoop_complete _ g r1); [|exact Hm|exact Hrest| |exact Hk].
    + intros m' Hm' st' k' t' Hrest' Hk'. by eapply IH1.
    + rewrite Hrest, length_app. lia.
  - inversion Hm; subst. eapply IH1; [done..|].
    intros st' Haft. apply Hk. destruct Haft. split; done.
Qed.

(** [test] succeeds exactly on the subjects that hold a match. *)
Lemma searchFrom_is_Some r prev pos rest :
  anchorFree r = true →
  is_Some (searchFrom r prev pos rest) ↔
  ∃ pre m post, rest = pre ++ m ++ post ∧ Lang r m.
Proof.
  intros Hfree. split.
  - revert prev pos. induction rest as [|c t IH]; intros prev pos;
      cbn [searchFrom].
    + destruct (rmatch r _ Some) as [st'|] eqn:Hrun; [|by intros []].
      intros _. apply rmatch_sound in Hrun as (m & st1 & Hm & [Hr _] & _);
        [|done].
      cbn in Hr. exists [], m, (ms_rest st1). by split.
    + destruct (rmatch r _ Some) as [st'|] eqn:Hrun.
      * intros _. apply rmatch_sound in Hrun as (m & st1 & Hm & [Hr _] & _);
          [|done].
        cbn in Hr. exists [], m, (ms_rest st1). by split.
      * intros (pre & m & post & -> & Hm)%IH.
        exists (c :: pre), m, post. by split.
  - intros (pre & m & post & -> & Hm). revert prev pos.
    induction pre as [|c pre IH]; intros prev pos.
    + assert (Hrun : is_Some (rmatch r (MState prev pos (m ++ post) []) Some)).
      { eapply rmatch_complete; [done|done|]. intros. by eexists. }
      destruct Hrun as [st' Hrun].
      destruct (m ++ post); cbn [app searchFrom]; rewrite Hrun; by eexists.
    + cbn [app searchFrom]. destruct (rmatch r _ Some); [by eexists|apply IH].
Qed.

Lemma test_iff r s :
  anchorFree r = true →
  test r s = true ↔ ∃ pre m post, chars s = pre ++ m ++ post ∧ Lang r m.
Proof.
  intros Hfree. unfold test, exec.
  rewrite bool_decide_eq_true. by apply searchFrom_is_Some.
Qed.

(** *** The languages of the building blocks *)

Lemma Lang_seqs_cons r l m :
  Lang (seqs (r :: l)) m ↔
  ∃ m1 m2, m = m1 ++ m2 ∧ Lang r m1 ∧ Lang (seqs l) m2.
Proof.
  destruct l as [|r' l]; cbn [seqs]; split.
  - intros Hm. exists m, []. rewrite app_nil_r. split; [done|].
    split; [done|constructor].
  - intros (m1 & m2 & -> & Hm1 & Hm2). inversion Hm2; subst.
    by rewrite app_nil_r.
  - intros Hm. inversion Hm; subst. by eexists _, _.
  - intros (m1 & m2 & -> & Hm1 & Hm2). by constructor.
Qed.

Lemma Lang_seqs_nil m : Lang (seqs []) m ↔ m = [].
Proof. split; [by inversion 1|intros ->; constructor]. Qed.

Lemma Lang_chrI c m :
  Lang (chrI c) m ↔ ∃ x, m = [x] ∧ lowerChar x = lowerChar c.
Proof.
  unfold chrI. split.
  - inversion 1 as [|p x Hp| | | | | |]; subst.
    exists x. split; [done|]. by apply Ascii.eqb_eq.
  - intros (x & -> & Hx). constructor. by apply Ascii.eqb_eq.
Qed.

Lemma Lang_litI w m : Lang (litI w) m ↔ eqCI m w.
Proof.
  unfold litI, eqCI. generalize (chars w) as l. intros l. revert m.
  induction l as [|c l IH]; intros m; cbn [map].
  - rewrite Lang_seqs_nil. split; [by intros ->|].
    by destruct m.
  - rewrite Lang_seqs_cons. split.
    + intros (m1 & m2 & -> & (x & -> & Hx)%Lang_chrI & Hm2%IH).
      cbn. by rewrite Hx, Hm2.
    + destruct m as [|x m]; [done|]. cbn. intros [= Hx Hm].
      exists [x], m. split; [done|]. split; [|by apply IH].
      apply Lang_chrI. by exists x.
Qed.

Lemma Lang_star_space g m : Lang (RStar g space) m ↔ spaces m.
Proof.
  unfold spaces. split.
  - intros Hm. remember (RStar g space) as rs eqn:Hrs.
    induction Hm as [| | | | | |g' r' m1 m2 Hne Hm1 _ Hm2 IH|];
      try discriminate; injection Hrs as -> ->; [constructor|].
    apply Forall_app. split; [|by apply IH].
    inversion Hm1; subst. by repeat constructor.
  - induction 1 as [|c m Hc _ IH]; [constructor|].
    change (c :: m) with ([c] ++ m). constructor; [done| |done].
    by constructor.
Qed.

Lemma Lang_plus_space m : Lang (plus space) m ↔ m ≠ [] ∧ spaces m.
Proof.
  unfold plus. split.
  - inversion 1 as [| |r1 r2 m1 m2 Hm1 Hm2| | | | |]; subst.
    inversion Hm1; subst. apply Lang_star_space in Hm2.
    split; [done|]. by constructor.
  - intros [Hne Hall]. destruct m as [|c m]; [done|].
    apply Forall_cons in Hall as [Hc Hall].
    change (c :: m) with ([c] ++ m).
    constructor; [by constructor|by apply Lang_star_space].
Qed.

Lemma Lang_opt r m : Lang (opt r) m ↔ Lang r m ∨ m = [].
Proof.
  unfold opt. split.
  - inversion 1 as [| | |r1 r2 m' Hm|r1 r2 m' Hm| | |]; subst; [by left|].
    inversion Hm. by right.
  - intros [Hm| ->]; [by apply L_alt_l|apply L_alt_r; constructor].
Qed.

Lemma Lang_alt r1 r2 m : Lang (RAlt r1 r2) m ↔ Lang r1 m ∨ Lang r2 m.
Proof.
  split; [inversion 1; subst; auto|].
  intros [Hm|Hm]; [by apply L_alt_l|by apply L_alt_r].
Qed.

Lemma Lang_group n r m : Lang (RGroup n r) m ↔ Lang r m.
Proof. split; [by inversion 1|by constructor]. Qed.

(** *** The expressions of the splitters and of the classifier *)

Lemma anchorFree_litI w : anchorFree (litI w) = true.
Proof.
  unfold litI. generalize (chars w) as l. intros l.
  induction l as [|c [|c' l] IH]; [done|done|exact IH].
Qed.

(** [/\s+(a|b)\s+/i] *)
Lemma test_separator a b s :
  test (seqs [plus space; RGroup 1 (RAlt (litI a) (litI b)); plus space]) s
    = true ↔
  hasSeparator [a; b] s.
Proof.
  rewrite test_iff by (cbn; by rewrite !anchorFree_litI).
  unfold hasSeparator. split.
  - intros (pre & m & post & Hs & Hm).
    apply Lang_seqs_cons in Hm as (ws1 & m2 & -> & [Hne1 Hws1]%Lang_plus_space & Hm).
    apply Lang_seqs_cons in Hm as (tok & m3 & -> & Htok%Lang_group & Hm).
    apply Lang_seqs_cons in Hm as (ws2 & m4 & -> & [Hne2 Hws2]%Lang_plus_space
                                   & ->%Lang_seqs_nil).
    rewrite app_nil_r, <- !app_assoc in Hs.
    apply Lang_alt in Htok as [Htok%Lang_litI|Htok%Lang_litI].
    + exists pre, ws1, tok, ws2, post, a. repeat split; try done. set_solver.
    + exists pre, ws1, tok, ws2, post, b. repeat split; try done. set_solver.
  - intros (pre & ws1 & tok & ws2 & post & w & Hs & Hne1 & Hws1 & Hne2 & Hws2
            & Hw & Htok).
    exists pre, (ws1 ++ tok ++ ws2), post. split; [by rewrite <- !app_assoc|].
    apply Lang_seqs_cons. exists ws1, (tok ++ ws2). split; [done|].
    split; [by apply Lang_plus_space|].
    apply Lang_seqs_cons. exists tok, ws2. split; [done|]. split.
    + apply Lang_group, Lang_alt.
      apply elem_of_cons in Hw as [->|Hw]; [left; by apply Lang_litI|].
      apply elem_of_cons in Hw as [->|Hw]; [right; by apply Lang_litI|].
      by apply elem_of_nil in Hw.
    + apply Lang_seqs_cons. exists ws2, []. rewrite app_nil_r.
      split; [done|]. split; [by apply Lang_plus_space|by apply Lang_seqs_nil].
Qed.

Lemma hasSeparator_app l1 l2 s :
  hasSeparator (l1 ++ l2) s ↔ hasSeparator l1 s ∨ hasSeparator l2 s.
Proof.
  unfold hasSeparator. split.
  - intros (pre & ws1 & tok & ws2 & post & w & Hs & ? & ? & ? & ? & Hw & ?).
    apply elem_of_app in Hw as [Hw|Hw]; [left|right];
      by exists pre, ws1, tok, ws2, post, w.
  - intros [H|H]; destruct H
      as (pre & ws1 & tok & ws2 & post & w & Hs & ? & ? & ? & ? & Hw & ?);
      exists pre, ws1, tok, ws2, post, w; repeat split; try done;
      apply elem_of_app; auto.
Qed.

(** [/a\s*b/i] *)
Lemma test_words a b s :
  test (seqs [litI a; star space; litI b]) s = true ↔ hasWords a b s.
Proof.
  rewrite test_iff by (cbn; by rewrite !anchorFree_litI).
  unfold hasWords. split.
  - intros (pre & m & post & Hs & Hm).
    apply Lang_seqs_cons in Hm as (x & m2 & -> & Hx%Lang_litI & Hm).
    apply Lang_seqs_cons in Hm as (ws & m3 & -> & Hws%Lang_star_space & Hm).
    apply Lang_seqs_cons in Hm as (y & m4 & -> & Hy%Lang_litI & ->%Lang_seqs_nil).
    rewrite app_nil_r, <- !app_assoc in Hs.
    by exists pre, x, ws, y, post.
  - intros (pre & x & ws & y & post & Hs & Hx & Hws & Hy).
    exists pre, (x ++ ws ++ y), post. split; [by rewrite <- !app_assoc|].
    apply Lang_seqs_cons. exists x, (ws ++ y). split; [done|].
    split; [by apply Lang_litI|].
    apply Lang_seqs_cons. exists ws, y. split; [done|].
    split; [by apply Lang_star_space|].
    apply Lang_seqs_cons. exists y, []. rewrite app_nil_r.
    split; [done|]. split; [by apply Lang_litI|by apply Lang_seqs_nil].
Qed.

(** [/possessions?/i] *)
Lemma test_possessions s :
  test Rx.possessions s = true ↔ hasWord "possession" s.
Proof.
  unfold Rx.possessions.
  rewrite test_iff by reflexivity.
  unfold hasWord. split.
  - intros (pre & m & post & Hs & Hm).
    apply Lang_seqs_cons in Hm as (x & m2 & -> & Hx%Lang_litI & Hm).
    rewrite <- app_assoc in Hs. by exists pre, x, (m2 ++ post).
  - intros (pre & x & post & Hs & Hx).
    exists pre, x, post. split; [done|].
    apply Lang_seqs_cons. exists x, []. rewrite app_nil_r. split; [done|].
    split; [by apply Lang_litI|].
    apply Lang_seqs_cons. exists [], []. split; [done|].
    split; [apply Lang_opt; by right|by apply Lang_seqs_nil].
Qed.

(** [/\s*v(?:s)?\s*/i] *)
Lemma test_looseV s : test Rx.looseV s = true ↔ hasWord "v" s.
Proof.
  unfold Rx.looseV.
  rewrite test_iff by reflexivity.
  unfold hasWord. split.
  - intros (pre & m & post & Hs & Hm).
    apply Lang_seqs_cons in Hm as (ws & m2 & -> & _ & Hm).
    apply Lang_seqs_cons in Hm as (x & m3 & -> & Hx%Lang_litI & Hm).
    rewrite <- !app_assoc, app_assoc in Hs.
    by exists (pre ++ ws), x, (m3 ++ post).
  - intros (pre & x & post & Hs & Hx).
    exists pre, x, post. split; [done|].
    apply Lang_seqs_cons. exists [], x. split; [done|].
    split; [apply Lang_star_space; constructor|].
    apply Lang_seqs_cons. exists x, []. rewrite app_nil_r. split; [done|].
    split; [by apply Lang_litI|].
    apply Lang_seqs_cons. exists [], []. split; [done|].
    split; [apply Lang_opt; by right|].
    apply Lang_seqs_cons. exists [], []. split; [done|].
    split; [apply Lang_star_space; constructor|by apply Lang_seqs_nil].
Qed.

(** *** A split with nothing to split at *)

Lemma str_chars s : str (chars s) = s.
Proof. apply string_of_list_ascii_of_string. Qed.

Lemma chars_str l : chars (str l) = l.
Proof. apply list_ascii_of_string_of_list_ascii. Qed.

Lemma splitScan_no_match r groups s p prev q rest :
  searchFrom r prev q rest = None →
  splitScan r groups s p O prev q rest =
  [Some (str (slice p (q + length rest) s))].
Proof.
  revert prev q. induction rest as [|c t IH]; intros prev q Hnone.
  - cbn. by rewrite Nat.add_0_r.
  - cbn [searchFrom] in Hnone. cbn [splitScan].
    destruct (rmatch r _ Some); [done|].
    rewrite IH by done. cbn [length].
    by replace (S q + length t)%nat with (q + S (length t))%nat by lia.
Qed.

Lemma splitRe_no_match r groups s :
  test r s = false → splitRe r groups s = [Some s].
Proof.
  unfold test, exec, splitRe. intros Hnone%bool_decide_eq_false.
  assert (Hs : searchFrom r None O (chars s) = None).
  { destruct (searchFrom r None O (chars s)); [|done].
    exfalso. apply Hnone. by eexists. }
  destruct (chars s) as [|c t] eqn:Hchars.
  - cbn [searchFrom] in Hs. destruct (rmatch r _ Some); [done|].
    rewrite <- (str_chars s), Hchars. done.
  - rewrite splitScan_no_match by done.
    unfold slice. rewrite Nat.add_0_l, Nat.sub_0_r, drop_0, firstn_all.
    by rewrite <- Hchars, str_chars.
Qed.

Lemma hasSeparator_one l s :
  hasSeparator l s → ∃ w, w ∈ l ∧ hasSeparator [w; w] s.
Proof.
  intros (pre & ws1 & tok & ws2 & post & w & Hs & ? & ? & ? & ? & Hw & ?).
  exists w. split; [done|].
  exists pre, ws1, tok, ws2, post, w. repeat split; try done. set_solver.
Qed.

(** No separator, decided by running the expression on each word. *)
Lemma no_separator l s :
  forallb (λ w, negb (test (seqs [plus space;
                                  RGroup 1 (RAlt (litI w) (litI w));
                                  plus space]) s)) l = true →
  ¬ hasSeparator l s.
Proof.
  intros Hall (w & Hw & Hsep%test_separator)%hasSeparator_one.
  rewrite forallb_forall in Hall.
  apply list_elem_of_In, Hall in Hw. by rewrite Hsep in Hw.
Qed.

End Matcher.

(** ** Splitting at a separator string *)

Section Split.

Lemma chars_app a b : chars (a +:+ b) = chars a ++ chars b.
Proof.
  unfold chars. induction a as [|c a IH]; [done|].
  change (c :: list_ascii_of_string (a +:+ b) =
          c :: list_ascii_of_string a ++ list_ascii_of_string b).
  by rewrite IH.
Qed.

Lemma str_app a b : str (a ++ b) = str a +:+ str b.
Proof.
  rewrite <- (str_chars (str a +:+ str b)), chars_app.
  by rewrite !chars_str.
Qed.

Lemma isPrefix_true p l : isPrefix p l = true ↔ ∃ t, l = p ++ t.
Proof.
  revert l. induction p as [|a p IH]; intros l; cbn.
  - split; [by exists l|done].
  - destruct l as [|b l]; [split; [done|by intros [t ?]]|].
    rewrite andb_true_iff, Ascii.eqb_eq, IH. split.
    + intros [-> [t ->]]. by exists t.
    + intros [t [= -> ->]]. split; [done|by exists t].
Qed.

Lemma splitChars_skip sep cur xs l :
  splitChars sep (length xs) cur (xs ++ l) = splitChars sep O cur l.
Proof. induction xs as [|x xs IH]; cbn; [by destruct l|done]. Qed.

(** The first piece ends at the first occurrence of the separator. *)
Lemma splitChars_first sep pre post cur :
  sep ≠ [] →
  (∀ a b, pre ++ sep ++ post = a ++ sep ++ b → (length pre ≤ length a)%nat) →
  splitChars sep O cur (pre ++ sep ++ post) =
  (rev cur ++ pre) :: splitChars sep O [] post.
Proof.
  intros Hsep. revert cur. induction pre as [|x pre IH]; intros cur Hfirst.
  - destruct sep as [|c sep']; [done|]. cbn [app splitChars].
    assert (isPrefix (c :: sep') (c :: sep' ++ post) = true) as ->
      by (apply isPrefix_true; by exists post).
    rewrite app_nil_r. f_equal. cbn [length Nat.pred]. apply splitChars_skip.
  - cbn [app splitChars].
    destruct (isPrefix sep (x :: pre ++ sep ++ post)) eqn:Hp.
    + apply isPrefix_true in Hp as [t Ht].
      specialize (Hfirst [] t). cbn in Hfirst.
      rewrite Ht in Hfirst. specialize (Hfirst eq_refl). lia.
    + rewrite IH.
      * cbn [rev]. by rewrite <- app_assoc.
      * intros a b Hab. specialize (Hfirst (x :: a) b). cbn in Hfirst.
        rewrite Hab in Hfirst. specialize (Hfirst eq_refl). lia.
Qed.

(** Without an occurrence there is one piece. *)
Lemma splitChars_none sep l cur :
  (∀ a b, l ≠ a ++ sep ++ b) →
  splitChars sep O cur l = [rev cur ++ l].
Proof.
  revert cur. induction l as [|x l IH]; intros cur Hnone.
  - cbn. by rewrite app_nil_r.
  - cbn [splitChars].
    destruct (isPrefix sep (x :: l)) eqn:Hp.
    + apply isPrefix_true in Hp as [t Ht]. by destruct (Hnone [] t).
    + rewrite IH; [cbn [rev]; by rewrite <- app_assoc|].
      intros a b Hab. apply (Hnone (x :: a) b). cbn. by rewrite Hab.
Qed.

(** Joining the pieces gives the subject back. *)
Lemma joinChars_splitChars sep l n cur :
  sep ≠ [] →
  joinChars sep (splitChars sep n cur l) = rev cur ++ drop n l.
Proof.
  intros Hsep. revert n cur. induction l as [|x l IH]; intros n cur.
  - cbn. by rewrite drop_nil, app_nil_r.
  - cbn [splitChars]. destruct n as [|n]; [|by rewrite IH].
    destruct (isPrefix sep (x :: l)) eqn:Hp.
    + apply isPrefix_true in Hp as [t Ht].
      destruct sep as [|c sep']; [done|]. cbn in Ht.
      injection Ht as Hx Hl. subst x l.
      cbn [length Nat.pred joinChars].
      pose proof (splitChars_nonempty (c :: sep') (length sep') []
                    (sep' ++ t)) as Hne.
      destruct (splitChars _ _ _ _) as [|p ps] eqn:Hsplit; [done|].
      rewrite <- Hsplit, IH. cbn [rev app drop].
      by rewrite drop_app_length.
    + rewrite IH. cbn [rev drop]. by rewrite <- app_assoc.
Qed.

Lemma join_str sep l : join sep (map str l) = str (joinChars (chars sep) l).
Proof.
  induction l as [|x [|y l] IH]; [done|done|].
  cbn [map join joinChars] in *. rewrite IH.
  by rewrite !str_app, str_chars.
Qed.

(** What was trimmed away lies around what is left. *)
Lemma dropSpaces_prefix l : ∃ a, l = a ++ dropSpaces l.
Proof.
  induction l as [|c l [a IH]]; [by exists []|]. cbn.
  destruct (isSpace c); [|by exists []].
  exists (c :: a). cbn. by rewrite <- IH.
Qed.

Lemma trimChars_inside l : ∃ a b, l = a ++ trimChars l ++ b.
Proof.
  unfold trimChars.
  destruct (dropSpaces_prefix l) as [a Ha].
  destruct (dropSpaces_prefix (rev (dropSpaces l))) as [b Hb].
  exists a, (rev b). rewrite <- rev_app_distr, <- Hb, rev_involutive. done.
Qed.

Lemma length_chars s : length (chars s) = String.length s.
Proof. unfold chars. induction s as [|c s IH]; cbn; [done|by rewrite IH]. Qed.

Lemma chars_inj a b : chars a = chars b → a = b.
Proof. intros H. by rewrite <- (str_chars a), H, str_chars. Qed.

Lemma includesChars_intro n a b : includesChars n (a ++ n ++ b) = true.
Proof.
  induction a as [|x a IH]; cbn [app].
  - destruct (n ++ b) eqn:Hnb; cbn [includesChars];
      (apply orb_true_iff; left; apply isPrefix_true; exists b; by rewrite Hnb).
  - cbn [includesChars]. apply orb_true_iff. by right.
Qed.

Lemma noBoundary_check text : includes text " | " = false → noBoundary text.
Proof.
  unfold includes. intros Hno a b ->.
  by rewrite !chars_app, includesChars_intro in Hno.
Qed.

(** An occurrence that starts inside [pre] ends before the last
    character of the separator that follows [pre]. *)
Lemma occurrence_inside (sep pre post a b : list ascii) :
  sep ≠ [] →
  pre ++ sep ++ post = a ++ sep ++ b → (length a < length pre)%nat →
  ∃ y, pre ++ removelast sep = a ++ sep ++ y.
Proof.
  intros Hsep Heq Hlt.
  pose proof (app_removelast_last "000"%char Hsep) as Hlast.
  set (n := (length a + length sep)%nat).
  assert (Hn : (n ≤ length (pre ++ removelast sep))%nat).
  { rewrite length_app. subst n.
    assert (length sep = S (length (removelast sep))); [|lia].
    rewrite Hlast at 1. rewrite length_app. cbn. lia. }
  assert (Htake : take n (pre ++ removelast sep) = a ++ sep).
  { transitivity (take n (pre ++ sep ++ post)).
    - assert (Hsplit : pre ++ sep ++ post =
                       (pre ++ removelast sep) ++ [List.last sep "000"%char] ++ post).
      { rewrite <- (app_assoc pre). f_equal. rewrite app_assoc. f_equal.
        exact Hlast. }
      rewrite Hsplit. by rewrite (take_app_le (pre ++ removelast sep)).
    - rewrite Heq, app_assoc. apply take_app_length'.
      by rewrite length_app. }
  exists (drop n (pre ++ removelast sep)).
  by rewrite app_assoc, <- Htake, take_drop.
Qed.

Lemma firstBoundary_check pre post :
  includes (pre +:+ " |") " | " = false →
  firstBoundary (pre +:+ " | " +:+ post) pre post.
Proof.
  unfold includes. intros Hno. split; [done|]. intros a b Hab.
  destruct (decide (String.length pre ≤ String.length a)%nat) as [|Hlt];
    [done|].
  apply (f_equal chars) in Hab. rewrite !chars_app in Hab.
  destruct (occurrence_inside (chars " | ") (chars pre) (chars post)
              (chars a) (chars b)) as [y Hy]; [done|done| |].
  - rewrite !length_chars. lia.
  - rewrite chars_app in Hno.
    change (chars " |") with (removelast (chars " | ")) in Hno.
    by rewrite Hy, includesChars_intro in Hno.
Qed.

Lemma orStr_empty x : orStr (Some x) "" = x.
Proof. unfold orStr. by destruct (String.eqb_spec x "") as [->|]. Qed.

Lemma orStr_notProvided x : orStr (Some x) "Not Provided" = orNotProvided x.
Proof. done. Qed.

Lemma chars_trim x : chars (trim x) = trimChars (chars x).
Proof. unfold trim. apply chars_str. Qed.

(** The literal of the special case holds a separator, so no trimmed
    first piece can be equal to it. *)
Lemma phoenix_boundary x :
  trim x = phoenix →
  ∃ a b, x = a +:+ " | " +:+ b ∧ (String.length a < String.length x)%nat.
Proof.
  intros Hx. destruct (trimChars_inside (chars x)) as (l & r & Hlr).
  rewrite <- chars_trim, Hx in Hlr.
  change (chars phoenix) with
    (chars "Phoenix  Community  Housing" ++ chars " | " ++
     chars "Association | (Bellingham & | Downham) | Limited") in Hlr.
  exists (str (l ++ chars "Phoenix  Community  Housing")),
         (str (chars "Association | (Bellingham & | Downham) | Limited" ++ r)).
  split.
  - apply chars_inj. rewrite !chars_app, !chars_str, Hlr.
    by rewrite <- !app_assoc.
  - rewrite <- !length_chars, chars_str, Hlr, !length_app. cbn. lia.
Qed.

Lemma splitAtFirstPipe_first text pre post :
  firstBoundary text pre post →
  splitAtFirstPipe text = Ok (trim pre, trim post) ∧ trim pre ≠ phoenix.
Proof.
  intros [-> Hfirst]. split.
  - unfold splitAtFirstPipe, split. rewrite !chars_app.
    rewrite splitChars_first; [|done|].
    + cbn [map rev app]. rewrite str_chars, join_str.
      rewrite joinChars_splitChars by done. cbn [rev app]. rewrite drop_0.
      by rewrite str_chars.
    + intros a b Hab. rewrite !length_chars.
      specialize (Hfirst (str a) (str b)).
      rewrite <- (length_chars (str a)), chars_str in Hfirst.
      apply Hfirst. apply chars_inj. by rewrite !chars_app, !chars_str.
  - intros (a & b & -> & Hlt)%phoenix_boundary.
    specialize (Hfirst a (b +:+ " | " +:+ post)).
    assert (String.length (a +:+ " | " +:+ b) ≤ String.length a)%nat; [|lia].
    apply Hfirst. apply chars_inj. rewrite !chars_app. by rewrite <- !app_assoc.
Qed.

Lemma splitAtFirstPipe_none text :
  noBoundary text →
  splitAtFirstPipe text = Ok (trim text, "") ∧ trim text ≠ phoenix.
Proof.
  intros Hnone. split.
  - unfold splitAtFirstPipe, split. rewrite splitChars_none.
    + cbn [map rev app]. by rewrite str_chars.
    + intros a b Hab. apply (Hnone (str a) (str b)).
      apply chars_inj. by rewrite !chars_app, !chars_str.
  - intros (a & b & Hab & _)%phoenix_boundary. by apply (Hnone a b).
Qed.

End Split.

(** ** Collapsing white space *)

Section Collapse.

Lemma runLength_cons_space c t :
  isSpace c = true → runLength (c :: t) = S (runLength t).
Proof.
  unfold runLength. intros Hc. cbn [dropSpaces length]. rewrite Hc.
  destruct (dropSpaces_prefix t) as [a Ha].
  assert (length (dropSpaces t) ≤ length t)%nat; [|lia].
  rewrite Ha at 2. rewrite length_app. lia.
Qed.

Lemma runLength_cons_solid c t : isSpace c = false → runLength (c :: t) = O.
Proof. unfold runLength. intros Hc. cbn [dropSpaces]. rewrite Hc. lia. Qed.

Lemma drop_runLength t : drop (runLength t) t = dropSpaces t.
Proof.
  induction t as [|c t IH]; [done|].
  destruct (isSpace c) eqn:Hc.
  - rewrite runLength_cons_space by done. cbn [drop dropSpaces]. by rewrite Hc.
  - rewrite runLength_cons_solid by done. cbn [dropSpaces]. by rewrite Hc.
Qed.

Lemma runLength_le t : (runLength t ≤ length t)%nat.
Proof. unfold runLength. lia. Qed.

(** The greedy loop of [\s*] reads the whole run. *)
Lemma starLoop_spaces body t fuel prev pos caps :
  (∀ st k, body st k = rmatch space st k) →
  (length t ≤ fuel)%nat →
  ∃ st', starLoop body true Some fuel (MState prev pos t caps) = Some st' ∧
         ms_pos st' = (pos + runLength t)%nat ∧ ms_caps st' = caps.
Proof.
  intros Hbody.
  revert fuel prev pos. induction t as [|c t IH]; intros fuel prev pos Hfuel.
  - exists (MState prev pos [] caps). split.
    + destruct fuel; [done|]. cbn [starLoop]. by rewrite Hbody.
    + cbn. split; [lia|done].
  - destruct fuel as [|fuel]; [cbn in Hfuel; lia|].
    cbn [starLoop]. rewrite Hbody. cbn [rmatch space ms_rest].
    destruct (isSpace c) eqn:Hc.
    + unfold advance. cbn [ms_rest ms_pos ms_caps mbind option_bind].
      assert ((pos <? S pos)%nat = true) as -> by (apply Nat.ltb_lt; lia).
      destruct (IH fuel (Some c) (S pos)) as (st' & -> & Hpos & Hcaps);
        [cbn in Hfuel; lia|].
      exists st'. split; [done|]. split; [|done].
      rewrite runLength_cons_space by done. lia.
    + eexists. split; [done|]. cbn [ms_pos ms_caps].
      rewrite runLength_cons_solid by done. split; [lia|done].
Qed.

Lemma rmatch_plus_space prev pos c t :
  rmatch (plus space) (MState prev pos (c :: t) []) Some =
  if isSpace c
  then starLoop (rmatch space) true Some (length t)
         (MState (Some c) (S pos) t [])
  else None.
Proof. unfold plus, space. cbn [rmatch ms_rest]. by destruct (isSpace c). Qed.

(** Where the leftmost run of white space starts and ends. *)
Lemma searchFrom_plus_space prev pos rest :
  (searchFrom (plus space) prev pos rest = None ∧ solid rest) ∨
  (∃ a c t,
     rest = a ++ c :: t ∧ solid a ∧ isSpace c = true ∧
     searchFrom (plus space) prev pos rest =
     Some (Match (pos + length a) (pos + length a + S (runLength t)) [])).
Proof.
  revert prev pos. induction rest as [|c t IH]; intros prev pos.
  - left. split; [done|constructor].
  - cbn [searchFrom]. rewrite rmatch_plus_space. destruct (isSpace c) eqn:Hc.
    + right. exists [], c, t. split; [done|]. split; [constructor|].
      split; [done|].
      destruct (starLoop_spaces (rmatch space) t (length t) (Some c) (S pos) [])
        as (st' & -> & Hpos & Hcaps); [done|done|].
      rewrite Hpos, Hcaps. cbn [length]. do 2 f_equal; lia.
    + destruct (IH (Some c) (S pos)) as [[Hnone Hsolid]|
        (a & c' & t' & -> & Ha & Hc' & Hsome)].
      * left. split; [done|]. by constructor.
      * right. exists (c :: a), c', t'. split; [done|].
        split; [by constructor|]. split; [done|].
        rewrite Hsome. cbn [length]. do 2 f_equal; lia.
Qed.

Lemma collapseFrom_solid f a rest :
  solid a → a ≠ [] → collapseFrom f (a ++ rest) = a ++ collapseFrom false rest.
Proof.
  intros Ha Hne. revert f. induction Ha as [|c a Hc Ha IH]; intros f; [done|].
  cbn [app collapseFrom]. rewrite Hc. f_equal.
  destruct a as [|c' a]; [done|]. by apply IH.
Qed.

Lemma collapseFrom_solid_nil a : solid a → collapseFrom false a = a.
Proof.
  induction 1 as [|c a Hc Ha IH]; [done|]. cbn. by rewrite Hc, IH.
Qed.

Lemma collapseFrom_true t : collapseFrom true t = collapseFrom false (dropSpaces t).
Proof.
  induction t as [|c t IH]; [done|]. cbn [collapseFrom dropSpaces].
  destruct (isSpace c) eqn:Hc; [done|]. cbn. by rewrite Hc.
Qed.

Lemma replaceLoop_collapse s fuel p :
  (p ≤ length s)%nat → (length s - p < fuel)%nat →
  replaceLoop (plus space) 0 (λ _, " ") s fuel p =
  collapseFrom false (drop p s).
Proof.
  revert p. induction fuel as [|fuel IH]; intros p Hp Hfuel; [lia|].
  cbn [replaceLoop]. unfold stateAt. cbn [ms_prev ms_rest].
  destruct (searchFrom_plus_space
              (match p with O => None | S q' => s !! q' end) p (drop p s))
    as [[-> Hsolid]|(a & c & t & Hrest & Ha & Hc & ->)].
  - by rewrite collapseFrom_solid_nil.
  - cbn [m_start m_end seq map].
    assert ((p + length a + S (runLength t) =? p + length a)%nat = false) as ->
      by (apply Nat.eqb_neq; lia).
    assert (Hlen : length s = (p + length (a ++ c :: t))%nat).
    { rewrite <- Hrest, length_drop. lia. }
    rewrite length_app in Hlen. cbn [length] in Hlen.
    pose proof (runLength_le t).
    rewrite IH by lia.
    unfold slice.
    replace (p + length a - p)%nat with (length a) by lia.
    rewrite Hrest, take_app_length.
    replace (p + length a + S (runLength t))%nat
      with (p + (length a + S (runLength t)))%nat by lia.
    rewrite <- drop_drop, Hrest, drop_app_add.
    cbn [drop]. rewrite drop_runLength.
    destruct a as [|c0 a].
    + cbn [app collapseFrom]. rewrite Hc. cbn. by rewrite collapseFrom_true.
    + rewrite collapseFrom_solid by done.
      cbn [collapseFrom]. rewrite Hc. cbn. by rewrite collapseFrom_true.
Qed.

Lemma collapseSpaces_chars s :
  chars (collapseSpaces s) = collapseFrom false (chars s).
Proof.
  unfold collapseSpaces, replaceAll.
  rewrite chars_str, replaceLoop_collapse, drop_0; [done|lia..].
Qed.

Lemma isSpace_lowerChar c : isSpace (lowerChar c) = isSpace c.
Proof. by destruct c as [[] [] [] [] [] [] [] []]. Qed.

Lemma lowerChar_idem c : lowerChar (lowerChar c) = lowerChar c.
Proof. by destruct c as [[] [] [] [] [] [] [] []]. Qed.

Lemma chars_toLowerCase s : chars (toLowerCase s) = map lowerChar (chars s).
Proof. unfold toLowerCase. apply chars_str. Qed.

(** A word without white space is matched by characters without. *)
Lemma eqCI_solid a w :
  eqCI a w → forallb (λ c, negb (isSpace c)) (chars w) = true →
  solid a ∧ (w ≠ "" → a ≠ []).
Proof.
  unfold eqCI, solid. intros Heq Hw. split.
  - revert a Heq Hw. induction (chars w) as [|y l IH]; intros a Heq Hw.
    + destruct a; [constructor|done].
    + destruct a as [|x a]; [constructor|]. cbn in Heq, Hw.
      injection Heq as Hx Ha. apply andb_true_iff in Hw as [Hy Hl].
      constructor; [|by apply IH].
      rewrite <- isSpace_lowerChar, Hx, isSpace_lowerChar.
      by apply negb_true_iff.
  - intros Hne ->. destruct w; [done|]. cbn in Heq. done.
Qed.

Lemma collapseFrom_before pre f a rest :
  solid a → a ≠ [] →
  ∃ pre', collapseFrom f (pre ++ a ++ rest) =
          pre' ++ a ++ collapseFrom false rest.
Proof.
  intros Ha Hne. revert f. induction pre as [|x pre IH]; intros f.
  - exists []. cbn [app]. by apply collapseFrom_solid.
  - cbn [app collapseFrom]. destruct (isSpace x).
    + destruct (IH true) as [pre' ->]. destruct f.
      * by exists pre'.
      * by exists (" "%char :: pre').
    + destruct (IH false) as [pre' ->]. by exists (x :: pre').
Qed.

Lemma collapseFrom_between ws f b post :
  spaces ws → solid b → b ≠ [] →
  ∃ ws', spaces ws' ∧
         collapseFrom f (ws ++ b ++ post) =
         ws' ++ b ++ collapseFrom false post.
Proof.
  intros Hws Hb Hne. revert f. induction Hws as [|c ws Hc Hws IH]; intros f.
  - exists []. split; [constructor|]. cbn [app]. by apply collapseFrom_solid.
  - cbn [app collapseFrom]. rewrite Hc.
    destruct (IH true) as (ws' & Hws' & ->). destruct f.
    + by exists ws'.
    + exists (" "%char :: ws'). split; [by constructor|done].
Qed.

(** Collapsing the white space keeps two words that follow each other. *)
Lemma hasWords_collapseSpaces w1 w2 s :
  forallb (λ c, negb (isSpace c)) (chars w1) = true → w1 ≠ "" →
  forallb (λ c, negb (isSpace c)) (chars w2) = true → w2 ≠ "" →
  hasWords w1 w2 s → hasWords w1 w2 (collapseSpaces s).
Proof.
  intros Hw1 Hne1 Hw2 Hne2 (pre & a & ws & b & post & Hs & Ha & Hws & Hb).
  destruct (eqCI_solid a w1 Ha Hw1) as [Hsa Hna].
  destruct (eqCI_solid b w2 Hb Hw2) as [Hsb Hnb].
  unfold hasWords. rewrite collapseSpaces_chars, Hs.
  destruct (collapseFrom_before pre false a (ws ++ b ++ post))
    as [pre' ->]; [done|by apply Hna|].
  destruct (collapseFrom_between ws false b post)
    as (ws' & Hws' & ->); [done|done|by apply Hnb|].
  by exists pre', a, ws', b, (collapseFrom false post).
Qed.

Lemma hasWords_toLowerCase w1 w2 s :
  hasWords w1 w2 s → hasWords w1 w2 (toLowerCase s).
Proof.
  intros (pre & a & ws & b & post & Hs & Ha & Hws & Hb).
  unfold hasWords. rewrite chars_toLowerCase, Hs, !map_app.
  exists (map lowerChar pre), (map lowerChar a), (map lowerChar ws),
         (map lowerChar b), (map lowerChar post).
  split; [done|]. unfold eqCI in *. split; [|split].
  - rewrite <- Ha, map_map. apply map_ext. intros. apply lowerChar_idem.
  - unfold spaces in *. apply Forall_map.
    eapply Forall_impl; [done|]. intros c Hc. cbn. by rewrite isSpace_lowerChar.
  - rewrite <- Hb, map_map. apply map_ext. intros. apply lowerChar_idem.
Qed.

End Collapse.

(** ** Numbers within the safe integers *)

Lemma roundInt_safe a : 0 <= a <= 2 ^ 53 → roundInt a = a.
Proof.
  intros Ha. destruct (decide (a = 2 ^ 53)) as [->|Hne]; [by vm_compute|].
  unfold roundInt.
  assert (He : Z.log2 a - 52 <= 0).
  { destruct (decide (a = 0)) as [->|H0]; [by vm_compute|].
    assert (Z.log2 a < 53) by (apply Z.log2_lt_pow2; lia). lia. }
  by rewrite (proj2 (Z.leb_le _ _) He).
Qed.

Lemma toNumber_safe z : safeInteger z → toNumber z = Int z.
Proof.
  unfold safeInteger, toNumber. intros Hz. cbv zeta.
  rewrite roundInt_safe by lia.
  assert (Hlt : Z.abs z < 2 ^ 1024).
  { apply Z.le_lt_trans with (2 ^ 53); [lia|].
    apply Z.pow_lt_mono_r; lia. }
  rewrite (proj2 (Z.leb_gt _ _) Hlt). f_equal. lia.
Qed.

Lemma addNumber_safe a b :
  safeInteger (a + b) → addNumber (Int a) (Int b) = Int (a + b).
Proof. apply toNumber_safe. Qed.

Lemma addNumber_0_l n : (∃ z, n = Int z ∧ safeInteger z) → addNumber (Int 0) n = n.
Proof. intros (z & -> & Hz). by apply addNumber_safe. Qed.

(** The spans of a row of header cells. *)
Lemma mapHeaders_spans assign cells acc :
  (fold_left (headerCell assign) cells acc).2 =
  fold_left addNumber (map (λ c, colspanOf (cellColspan c)) cells) acc.2.
Proof.
  revert acc. induction cells as [|c cells IH]; intros acc; [done|].
  cbn [fold_left map]. by rewrite IH.
Qed.

Lemma total_take_S zs k z :
  total (take (S k) (z :: zs)) = z + total (take k zs).
Proof. done. Qed.

Lemma fold_addNumber_safe zs acc :
  (∀ k, safeInteger (acc + total (take k zs))) →
  fold_left addNumber (map Int zs) (Int acc) = Int (acc + total zs).
Proof.
  revert acc. induction zs as [|z zs IH]; intros acc Hsafe.
  - cbn. f_equal. unfold total. cbn. lia.
  - cbn [map fold_left]. rewrite addNumber_safe.
    + rewrite IH.
      * f_equal. unfold total. cbn [foldr]. lia.
      * intros k. specialize (Hsafe (S k)). rewrite total_take_S in Hsafe.
        by rewrite <- Z.add_assoc.
    + specialize (Hsafe 1%nat). rewrite total_take_S in Hsafe.
      rewrite take_0 in Hsafe. unfold total in Hsafe. cbn in Hsafe.
      by rewrite Z.add_0_r in Hsafe.
Qed.

(** The rounding and the sum agree with the IEEE 754 specification of
    the standard library where doubles stop being exact, half way
    between two doubles, and at the largest double. *)
Lemma toNumber_binary64 :
  Forall (λ z, toNumber z = ofSpecFloat (binary64 z))
    [0; 1; -1; 2 ^ 53; 2 ^ 53 + 1; 2 ^ 53 + 2; 2 ^ 53 + 3; - (2 ^ 53 + 1);
     2 ^ 54 + 2; 2 ^ 54 + 6; 2 ^ 100 + 2 ^ 47; 2 ^ 100 + 3 * 2 ^ 47;
     2 ^ 1024 - 2 ^ 970 - 1; 2 ^ 1024 - 2 ^ 970; - (2 ^ 1024)] ∧
  Forall (λ ab : Z * Z,
            addNumber (toNumber ab.1) (toNumber ab.2) =
            ofSpecFloat (SpecFloat.SFadd 53 1024 (binary64 ab.1)
                                         (binary64 ab.2)))
    [(1, 2); (2 ^ 53, 1); (2 ^ 53, 3); (2 ^ 53 + 2, 1);
     (9007199254740993, -9007199254740992); (5, -5);
     (2 ^ 1023, 2 ^ 1023); (2 ^ 60 + 2 ^ 8, 2 ^ 7)].
Proof.
  split; repeat (constructor; [vm_compute; reflexivity|]); constructor.
Qed.

(** ** What [parseInt] reads *)

(** The decimal numerals up to 1000, with or without a minus sign. *)
Lemma parseInt_numeral n :
  0 <= n <= 1000 →
  parseInt (Some (ofInt n)) = Int n ∧
  parseInt (Some ("-" +:+ ofInt n)) = Int (- n).
Proof.
  intros Hn.
  assert (Hall : forallb
            (λ k, let n := Z.of_nat k in
                  match parseInt (Some (ofInt n)),
                        parseInt (Some ("-" +:+ ofInt n)) with
                  | Int a, Int b => (a =? n) && (b =? - n)
                  | _, _ => false
                  end)
            (seq 0 1001) = true) by (vm_compute; reflexivity).
  rewrite forallb_forall in Hall.
  assert (Hin : In (Z.to_nat n) (seq 0 1001)) by (apply in_seq; lia).
  apply Hall in Hin. cbv zeta in Hin. rewrite Z2Nat.id in Hin by lia.
  destruct (parseInt (Some (ofInt n))) as [a| |]; [|done..].
  destruct (parseInt (Some ("-" +:+ ofInt n))) as [b| |]; [|done..].
  apply andb_true_iff in Hin as [Ha Hb].
  apply Z.eqb_eq in Ha, Hb. by subst.
Qed.

(** A text that starts with anything but white space, a sign or a digit
    is not a number. *)
Lemma parseInt_not_numeric s c rest :
  chars s = c :: rest →
  isSpace c = false → isDigit c = false → c ≠ "+"%char → c ≠ "-"%char →
  parseInt (Some s) = NaN.
Proof.
  intros Hs Hspace Hdigit Hplus Hminus. unfold parseInt.
  cbn [default from_option id]. rewrite Hs. cbn [dropSpaces].
  rewrite Hspace.
  rewrite (proj2 (Ascii.eqb_neq c "-") Hminus).
  rewrite (proj2 (Ascii.eqb_neq c "+") Hplus).
  assert (Hzero : Ascii.eqb c "0" = false).
  { apply Ascii.eqb_neq. intros ->. discriminate. }
  assert (Hhex : isHexPrefix (c :: rest) = false).
  { destruct rest; [done|]. cbn. by rewrite Hzero. }
  rewrite Hhex. cbn [digitsPrefix]. unfold digitValue. rewrite Hdigit.
  destruct (isLower c) eqn:Hlower.
  - unfold isLower in Hlower. cbv zeta in Hlower.
    apply andb_true_iff in Hlower as [Hlo%Nat.leb_le _].
    assert (Hlt : (Z.of_nat (code c) - 87 <? 10) = false)
      by (apply Z.ltb_ge; lia).
    by rewrite Hlt.
  - destruct (isUpper c) eqn:Hupper; [|done].
    unfold isUpper in Hupper. cbv zeta in Hupper.
    apply andb_true_iff in Hupper as [Hlo%Nat.leb_le _].
    assert (Hlt : (Z.of_nat (code c) - 55 <? 10) = false)
      by (apply Z.ltb_ge; lia).
    by rewrite Hlt.
Qed.

(** * Properties of the functions *)

(** The two ways a row callback ends: the records are left as they are,
    or one is added. *)
Ltac kept Hrun := injection Hrun as <-; by left.
Ltac added Hrun :=
  injection Hrun as <-; right; eexists; split; [reflexivity|].

(** ** The records *)

Section Records.

Variable parseDate : string -> option JsDate.

Lemma firstWins_NoDup seen rows :
  NoDup (map ClaimNumber (firstWins seen rows)).
Proof.
  revert seen. induction rows as [|row rows IH]; intros seen; cbn [firstWins].
  - constructor.
  - case_bool_decide as Hin; [apply IH|].
    cbn [map]. constructor; [|apply IH].
    intros (rec & Heq & Hrec%firstWins_fresh)%list_elem_of_fmap.
    apply Hrec. rewrite <- Heq. set_solver.
Qed.

(** X1. The records [scrapeDataFromHtml] returns for a document have
    pairwise different claim numbers. *)
Theorem scrape_claim_numbers_distinct (d : Document) :
  ∃ records,
    scrapeDataFromHtml parseDate d = Ok records ∧
    NoDup (map ClaimNumber records).
Proof.
  destruct (scrape_total parseDate d) as [records Hrun].
  exists records. split; [done|].
  destruct (scrape_firstWins parseDate d records Hrun) as (produced & _ & ->).
  apply firstWins_NoDup.
Qed.

Lemma foldM_adds (P : CaseRecord → Prop) (f : Loop → Row → result Loop)
    rows st st' :
  (∀ st row st', f st row = Ok st' → addsOnly P st st') →
  foldM f rows st = Ok st' →
  Forall P (data st) → Forall P (data st').
Proof.
  intros Hf. revert st. induction rows as [|row rows IH]; intros st Hrun Hst;
    simpl in Hrun.
  - by injection Hrun as <-.
  - destruct (f st row) as [st1|] eqn:Hrow; [|done]. cbn in Hrun.
    apply (IH _ Hrun).
    destruct (Hf _ _ _ Hrow) as [->|(rec & -> & Hrec)]; [done|].
    apply Forall_app. split; [done|]. by constructor.
Qed.

Lemma noPipe_stripPipes s : noPipe (stripPipes s).
Proof.
  unfold noPipe, stripPipes, removeChar. rewrite chars_str.
  by intros [? _]%list_elem_of_filter.
Qed.

Lemma noPipe_orStr x d :
  noPipe x → noPipe d → noPipe (if String.eqb x "" then d else x).
Proof. intros Hx Hd. by destruct (String.eqb x ""). Qed.

Lemma noPipe_notProvided : noPipe "Not Provided".
Proof. unfold noPipe. cbn. set_solver. Qed.

Lemma noPipe_empty : noPipe "".
Proof. unfold noPipe. cbn. set_solver. Qed.

Lemma orStr_nonempty x d : d ≠ "" → orStr x d ≠ "".
Proof.
  intros Hd. destruct x as [s|]; cbn; [|done].
  by destruct (String.eqb_spec s "").
Qed.

Ltac nonempty :=
  first [ by apply orStr_nonempty
        | by apply (orStr_nonempty (Some _)) ].

Lemma bind_Ok {A B} (m : result A) (k : A → result B) v :
  (x ← m; k x) = Ok v → ∃ x, m = Ok x ∧ k x = Ok v.
Proof. destruct m as [x|]; [|done]. intros Hk. by exists x. Qed.

Lemma parties5_noPipe caseDetails claimant defendant :
  parties5 caseDetails = Ok (claimant, defendant) →
  noPipe claimant ∧ noPipe defendant.
Proof.
  unfold parties5. intros Hrun.
  destruct (_ || _);
    [|injection Hrun as <- <-; split; apply noPipe_notProvided].
  destruct (2 <=? _)%nat.
  - apply bind_Ok in Hrun as (p0 & _ & Hrun).
    apply bind_Ok in Hrun as (p2 & _ & Hrun).
    injection Hrun as <- <-. split; apply noPipe_stripPipes.
  - apply bind_Ok in Hrun as (p0 & _ & Hrun).
    injection Hrun as <- <-. split; apply noPipe_stripPipes.
Qed.

Lemma parties7_noPipe caseName claimant defendant :
  parties7 caseName = Ok (claimant, defendant) →
  noPipe claimant ∧ noPipe defendant.
Proof.
  unfold parties7. intros Hrun.
  destruct (testOpt _ _);
    [|injection Hrun as <- <-; split; apply noPipe_notProvided].
  apply bind_Ok in Hrun as (name & _ & Hrun).
  destruct (2 <=? _)%nat.
  - apply bind_Ok in Hrun as (p0 & _ & Hrun).
    apply bind_Ok in Hrun as (p2 & _ & Hrun).
    injection Hrun as <- <-. split; apply noPipe_stripPipes.
  - apply bind_Ok in Hrun as (p0 & _ & Hrun).
    injection Hrun as <- <-.
    split; [apply noPipe_stripPipes|apply noPipe_notProvided].
Qed.


Lemma row4_adds titlename courtDate st row st' :
  row4 parseDate titlename courtDate st row = Ok st' →
  addsOnly (λ rec, plain titlename rec ∧ pipeFree rec) st st'.
Proof.
  unfold row4. intros Hrun.
  destruct (existsb _ _); [kept Hrun|].
  destruct (_ && _); [|kept Hrun].
  destruct (forallb _ _); [kept Hrun|].
  destruct (extractCourtLocation titlename) as [location|]; [|done].
  cbn [mbind result_bind] in Hrun. added Hrun.
  split; [done|].
  split; cbn [Claimant Defendant];
    (apply noPipe_orStr; [apply noPipe_stripPipes|apply noPipe_empty]).
Qed.

Lemma row4a_adds titlename courtDate st row st' :
  row4a parseDate titlename courtDate st row = Ok st' →
  addsOnly (plain titlename) st st'.
Proof.
  unfold row4a. intros Hrun.
  destruct (existsb _ _); [kept Hrun|].
  destruct (_ && _); [|kept Hrun].
  destruct (forallb _ _); [kept Hrun|].
  destruct (parties4a _) as [[claimant defendant]|]; [|done].
  cbn [mbind result_bind] in Hrun.
  destruct (extractCourtLocation titlename) as [location|]; [|done].
  cbn [mbind result_bind] in Hrun. by added Hrun.
Qed.

Lemma row5_adds titlename courtDate st row st' :
  row5 parseDate titlename courtDate st row = Ok st' →
  addsOnly (λ rec, (filled titlename rec ∧ ClaimNumber rec ≠ "") ∧
                   pipeFree rec) st st'.
Proof.
  unfold row5. intros Hrun.
  destruct (existsb (test Rx.partyName) _); [kept Hrun|].
  destruct (existsb _ _); [kept Hrun|].
  destruct (_ && _); [|kept Hrun].
  destruct (forallb _ _); [kept Hrun|].
  destruct (probeHearingType _) as [hearingType|]; [|kept Hrun].
  set (quad := if strictEq hearingType _ then _ else _) in *. clearbody quad.
  destruct quad as [[[startTime duration] [caseDetails|]] hearingChannel];
    [|discriminate].
  cbn [mbind result_bind defined] in Hrun.
  destruct (strictEq _ (Some "PCOL")); [kept Hrun|].
  destruct (parties5 _) as [[claimant defendant]|] eqn:Hparties; [|discriminate].
  cbn [mbind result_bind] in Hrun.
  destruct (extractCourtLocation titlename) as [location|]; [|discriminate].
  cbn [mbind result_bind] in Hrun. added Hrun.
  apply parties5_noPipe in Hparties as [Hc Hd].
  split; [split; [split; [done|]|]|].
  - cbn [Title Claimant Defendant Duration HearingType HearingChannel ClaimNumber]. repeat split; nonempty.
  - cbn [Title Claimant Defendant Duration HearingType HearingChannel ClaimNumber]. nonempty.
  - split; cbn [Claimant Defendant];
      (apply noPipe_orStr; [done|apply noPipe_notProvided]).
Qed.

Lemma row7_adds titlename courtDate st row st' :
  row7 parseDate titlename courtDate st row = Ok st' →
  addsOnly (λ rec, filled titlename rec ∧ pipeFree rec) st st'.
Proof.
  unfold row7. intros Hrun.
  destruct (existsb _ _); [kept Hrun|].
  destruct (_ && _); [|kept Hrun].
  destruct (forallb _ _); [kept Hrun|].
  destruct (negb _); [kept Hrun|].
  destruct (parties7 _) as [[claimant defendant]|] eqn:Hparties; [|discriminate].
  cbn [mbind result_bind] in Hrun.
  destruct (extractCourtLocation titlename) as [location|]; [|discriminate].
  cbn [mbind result_bind] in Hrun. added Hrun.
  apply parties7_noPipe in Hparties as [Hc Hd].
  split; [split; [done|]|].
  - cbn [Title Claimant Defendant Duration HearingType HearingChannel ClaimNumber]. repeat split; nonempty.
  - split; cbn [Claimant Defendant];
      (apply noPipe_orStr; [done|apply noPipe_notProvided]).
Qed.

(** What the records of one table look like, for the extractor [run] whose
    row callback is [f]. *)
Lemma run_adds (P : CaseRecord → Prop) (f : Loop → Row → result Loop)
    rows name recs :
  (∀ st row st', f st row = Ok st' → addsOnly P st st') →
  (st ← foldM f rows (mkLoop ∅ name []); Ok (data st)) = Ok recs →
  Forall P recs.
Proof.
  intros Hf Hrun.
  destruct (foldM f rows _) as [st|] eqn:Hfold; [|done].
  injection Hrun as <-.
  apply (foldM_adds P f rows _ _ Hf Hfold). constructor.
Qed.

(** X2. Every record of the extractors of templates 4 and 4a carries the
    trimmed title, and "Not Provided" as its duration, hearing type and
    hearing channel. *)
Theorem plain_records title table name date :
  (∃ recs, extractDataTemplate4 parseDate title table name date = Ok recs ∧
           Forall (plain (trim title)) recs) ∧
  (∃ recs, extractDataTemplate4a parseDate title table name date = Ok recs ∧
           Forall (plain (trim title)) recs).
Proof.
  split.
  - destruct (extractData_spec parseDate template4 title table name date)
      as (recs & Hrun & _).
    exists recs. split; [done|].
    eapply Forall_impl;
      [exact (run_adds _ _ _ _ _ (row4_adds (trim title) date) Hrun)|].
    by intros rec [? _].
  - destruct (extractData_spec parseDate template4a title table name date)
      as (recs & Hrun & _).
    exists recs. split; [done|].
    exact (run_adds _ _ _ _ _ (row4a_adds (trim title) date) Hrun).
Qed.

(** X3. Every record of the extractors of templates 5 and 7 carries the
    trimmed title, and its claimant, defendant, duration, hearing type and
    hearing channel are never empty; for template 5 neither is the claim
    number. *)
Theorem filled_records title table name date :
  (∃ recs, extractDataTemplate5 parseDate title table name date = Ok recs ∧
           Forall (λ rec, filled (trim title) rec ∧ ClaimNumber rec ≠ "")
                  recs) ∧
  (∃ recs, extractDataTemplate7 parseDate title table name date = Ok recs ∧
           Forall (filled (trim title)) recs).
Proof.
  split.
  - destruct (extractData_spec parseDate template5 title table name date)
      as (recs & Hrun & _).
    exists recs. split; [done|].
    eapply Forall_impl;
      [exact (run_adds _ _ _ _ _ (row5_adds (trim title) date) Hrun)|].
    by intros rec [? _].
  - destruct (extractData_spec parseDate template7 title table name date)
      as (recs & Hrun & _).
    exists recs. split; [done|].
    eapply Forall_impl;
      [exact (run_adds _ _ _ _ _ (row7_adds (trim title) date) Hrun)|].
    by intros rec [? _].
Qed.

(** X4. No claimant and no defendant of a record of templates 4, 5 and 7
    holds a pipe character. *)
Theorem parties_without_pipes template title table name date :
  template ≠ template4a →
  ∃ recs, extractData parseDate template title table name date = Ok recs ∧
          Forall pipeFree recs.
Proof.
  intros Hnot.
  destruct (extractData_spec parseDate template title table name date)
    as (recs & Hrun & _).
  exists recs. split; [done|].
  destruct template; [|done| |]; cbn [extractData] in Hrun.
  - eapply Forall_impl;
      [exact (run_adds _ _ _ _ _ (row4_adds (trim title) date) Hrun)|].
    by intros rec [_ ?].
  - eapply Forall_impl;
      [exact (run_adds _ _ _ _ _ (row5_adds (trim title) date) Hrun)|].
    by intros rec [_ ?].
  - eapply Forall_impl;
      [exact (run_adds _ _ _ _ _ (row7_adds (trim title) date) Hrun)|].
    by intros rec [_ ?].
Qed.

Lemma extractData_rowOf template title table name date :
  extractData parseDate template title table name date =
  (st ← foldM (rowOf parseDate template (trim title) date) (tableRows table)
         (mkLoop ∅ (Some name) []);
   Ok (data st)).
Proof. by destruct template. Qed.

Lemma rowOf_adds template titlename courtDate st row st' :
  rowOf parseDate template titlename courtDate st row = Ok st' →
  addsOnly (λ _, True) st st'.
Proof.
  intros Hrun.
  assert (H : ∃ P, addsOnly P st st').
  { destruct template; cbn [rowOf] in Hrun; eexists.
    - by eapply row4_adds.
    - by eapply row4a_adds.
    - by eapply row5_adds.
    - by eapply row7_adds. }
  destruct H as [P [Hsame|(rec & Hdata & _)]]; [by left|].
  right. by exists rec.
Qed.

(** A row adds at most one record. *)
Lemma foldM_length template titlename courtDate rows st st' :
  foldM (rowOf parseDate template titlename courtDate) rows st = Ok st' →
  (length (data st') ≤ length (data st) + length rows)%nat.
Proof.
  revert st. induction rows as [|row rows IH]; intros st Hrun; simpl in Hrun.
  - injection Hrun as <-. lia.
  - apply bind_Ok in Hrun as (st1 & Hrow & Hrun).
    apply IH in Hrun. cbn [length].
    destruct (rowOf_adds _ _ _ _ _ _ Hrow) as [Hsame|(rec & Hdata & _)].
    + rewrite Hsame in Hrun. lia.
    + rewrite Hdata, length_app in Hrun. cbn [length] in Hrun. lia.
Qed.

(** Until a header row has been seen, a row that is no header row leaves
    the variables of the loop as they are. *)
Lemma rowOf_before template titlename courtDate st row :
  hasHeaders st = false → isHeaderRow template row = false →
  rowOf parseDate template titlename courtDate st row = Ok st.
Proof.
  intros Hh Hrow. destruct template; cbn [rowOf isHeaderRow] in *.
  - unfold row4. rewrite Hrow, Hh, andb_false_r. done.
  - unfold row4a. rewrite Hrow, Hh, andb_false_r. done.
  - unfold row5. fold (cellsText5 row).
    destruct (existsb (test Rx.partyName) (cellsText5 row)); [done|].
    cbn [negb andb] in Hrow. rewrite Hrow, Hh, andb_false_r. done.
  - unfold row7. fold (cellsText5 row).
    rewrite Hrow, Hh, andb_false_r. done.
Qed.

Lemma foldM_belowHeader template titlename courtDate rows st st' :
  hasHeaders st = false →
  foldM (rowOf parseDate template titlename courtDate) rows st = Ok st' →
  (length (data st') ≤
   length (data st) + length (belowHeader template rows))%nat.
Proof.
  intros Hh. induction rows as [|row rows IH]; intros Hrun; simpl in Hrun.
  - injection Hrun as <-. cbn. lia.
  - cbn [belowHeader].
    destruct (isHeaderRow template row) eqn:Hrow.
    + apply bind_Ok in Hrun as (st1 & Hst1 & Hrun).
      apply foldM_length in Hrun.
      destruct (rowOf_adds _ _ _ _ _ _ Hst1) as [Hsame|(rec & Hdata & _)];
        [by rewrite <- Hsame|].
      exfalso. revert Hst1 Hdata.
      destruct template; cbn [rowOf isHeaderRow] in *.
      * unfold row4. rewrite Hrow. intros [= <-]. cbn.
        intros H%(f_equal length). rewrite length_app in H. cbn in H. lia.
      * unfold row4a. rewrite Hrow. intros [= <-]. cbn.
        intros H%(f_equal length). rewrite length_app in H. cbn in H. lia.
      * unfold row5. fold (cellsText5 row).
        apply andb_true_iff in Hrow as [Hp%negb_true_iff Hrow].
        rewrite Hp, Hrow. intros [= <-]. cbn.
        intros H%(f_equal length). rewrite length_app in H. cbn in H. lia.
      * unfold row7. fold (cellsText5 row). rewrite Hrow. intros [= <-]. cbn.
        intros H%(f_equal length). rewrite length_app in H. cbn in H. lia.
    + rewrite (rowOf_before _ _ _ _ _ Hh Hrow) in Hrun. by apply IH.
Qed.

(** X5. An extractor returns at most one record for each row below the
    first header row of the table, and none for a table without a header
    row. *)
Theorem records_below_header template title table name date :
  ∃ recs,
    extractData parseDate template title table name date = Ok recs ∧
    (length recs ≤ length (belowHeader template (tableRows table)))%nat.
Proof.
  destruct (extractData_spec parseDate template title table name date)
    as (recs & Hrun & _).
  exists recs. split; [done|].
  rewrite extractData_rowOf in Hrun.
  apply bind_Ok in Hrun as (st & Hfold & [= <-]).
  by apply foldM_belowHeader in Hfold.
Qed.

Lemma foldM_related {A B} (R : A → A → Prop) (Q : B → B → Prop)
    (f : A → B → result A) l1 l2 a1 a2 :
  (∀ a1 a2 b1 b2, R a1 a2 → Q b1 b2 → related R (f a1 b1) (f a2 b2)) →
  Forall2 Q l1 l2 → R a1 a2 →
  related R (foldM f l1 a1) (foldM f l2 a2).
Proof.
  intros Hf Hl. revert a1 a2.
  induction Hl as [|b1 b2 l1 l2 Hb Hl IH]; intros a1 a2 Ha; simpl; [done|].
  specialize (Hf _ _ _ _ Ha Hb).
  destruct (f a1 b1) as [a1'|], (f a2 b2) as [a2'|]; try done.
  cbn. by apply IH.
Qed.

Lemma mapHeaders_dom assign cells1 cells2 h1 h2 :
  (∀ text i j (h1 h2 : gmap string Number),
     dom h1 = dom h2 → dom (assign text i h1) = dom (assign text j h2)) →
  Forall2 sameButColspan cells1 cells2 →
  dom h1 = dom h2 →
  dom (mapHeaders assign cells1 h1).1 = dom (mapHeaders assign cells2 h2).1.
Proof.
  intros Hassign Hcells. unfold mapHeaders.
  generalize (Int 0) at 1 as i. generalize (Int 0) as j. revert h1 h2.
  induction Hcells as [|c1 c2 cells1 cells2 (Htext & _ & _) Hcells IH];
    intros h1 h2 j i Hdom; cbn [fold_left]; [done|].
  unfold headerCell at 2 4. cbn [fst snd]. rewrite Htext.
  apply IH. by apply Hassign.
Qed.

Lemma assign4a_dom text i j (h1 h2 : gmap string Number) :
  dom h1 = dom h2 → dom (assign4a text i h1) = dom (assign4a text j h2).
Proof.
  intros Hdom. unfold assign4a.
  repeat (case_match; [by rewrite !dom_insert_L, Hdom|]). done.
Qed.

Lemma assign5_dom text i j (h1 h2 : gmap string Number) :
  dom h1 = dom h2 → dom (assign5 text i h1) = dom (assign5 text j h2).
Proof.
  intros Hdom. unfold assign5.
  repeat (case_match; [by rewrite !dom_insert_L, Hdom|]). done.
Qed.

Lemma sameKeys_hasHeaders st1 st2 :
  sameKeys st1 st2 → hasHeaders st1 = hasHeaders st2.
Proof.
  intros [Hdom _]. unfold hasHeaders.
  by rewrite <- !size_dom, Hdom.
Qed.

Lemma paragraphText_same row1 row2 :
  Forall2 sameButColspan row1 row2 →
  map paragraphText row1 = map paragraphText row2.
Proof.
  induction 1 as [|c1 c2 row1 row2 (_ & Hp & _) _ IH]; [done|].
  cbn [map]. unfold paragraphText at 1 3. by rewrite Hp, IH.
Qed.

Lemma dataCells_same row1 row2 :
  Forall2 sameButColspan row1 row2 →
  Forall2 sameButColspan
    (filter (λ cell, cellIsEmptyLayout cell = false) row1)
    (filter (λ cell, cellIsEmptyLayout cell = false) row2).
Proof.
  induction 1 as [|c1 c2 row1 row2 Hc _ IH]; [constructor|].
  rewrite !filter_cons. destruct Hc as (Ht & Hp & He).
  rewrite <- He. case_decide; [|done]. by constructor.
Qed.

Lemma cellText_same (f : string → string) l1 l2 :
  Forall2 sameButColspan l1 l2 →
  map (λ cell, f (cellText cell)) l1 = map (λ cell, f (cellText cell)) l2.
Proof.
  induction 1 as [|c1 c2 l1 l2 (Ht & _ & _) _ IH]; [done|].
  cbn [map]. by rewrite Ht, IH.
Qed.

Lemma cellsText5_same row1 row2 :
  Forall2 sameButColspan row1 row2 → cellsText5 row1 = cellsText5 row2.
Proof.
  intros H%dataCells_same. unfold cellsText5.
  by apply (cellText_same (λ text, collapseSpaces (trim text))).
Qed.

Lemma row4a_sameKeys titlename courtDate st1 st2 row1 row2 :
  sameKeys st1 st2 → Forall2 sameButColspan row1 row2 →
  related sameKeys (row4a parseDate titlename courtDate st1 row1)
                   (row4a parseDate titlename courtDate st2 row2).
Proof.
  intros Hst Hrow. unfold row4a.
  rewrite (paragraphText_same _ _ Hrow), (sameKeys_hasHeaders _ _ Hst).
  destruct Hst as [Hdom Hdata].
  destruct (existsb _ _).
  { split; [|done]. cbn [setHeaders headersIndex].
    by apply mapHeaders_dom; [apply assign4a_dom|..]. }
  destruct (_ && _); [|by split].
  destruct (forallb _ _); [by split|].
  destruct (parties4a _) as [[claimant defendant]|]; [|done].
  cbn [mbind result_bind].
  destruct (extractCourtLocation titlename) as [location|]; [|done].
  cbn [mbind result_bind]. split; [done|].
  unfold push. cbn [data]. by rewrite Hdata.
Qed.

Lemma row5_sameKeys titlename courtDate st1 st2 row1 row2 :
  sameKeys st1 st2 → Forall2 sameButColspan row1 row2 →
  related sameKeys (row5 parseDate titlename courtDate st1 row1)
                   (row5 parseDate titlename courtDate st2 row2).
Proof.
  intros Hst Hrow. unfold row5. fold (cellsText5 row1) (cellsText5 row2).
  rewrite (cellsText5_same _ _ Hrow), (sameKeys_hasHeaders _ _ Hst).
  destruct Hst as [Hdom Hdata].
  destruct (existsb (test Rx.partyName) _); [by split|].
  destruct (existsb _ _).
  { split; [|done]. cbn [setHeaders headersIndex].
    apply mapHeaders_dom; [apply assign5_dom|by apply dataCells_same|done]. }
  destruct (_ && _); [|by split].
  destruct (forallb _ _); [by split|].
  destruct (probeHearingType _) as [hearingType|]; [|by split].
  set (quad := if strictEq hearingType _ then _ else _). clearbody quad.
  destruct quad as [[[startTime duration] [caseDetails|]] hearingChannel];
    [|done].
  cbn [mbind result_bind defined].
  destruct (strictEq _ (Some "PCOL")); [by split|].
  destruct (parties5 _) as [[claimant defendant]|]; [|done].
  cbn [mbind result_bind].
  destruct (extractCourtLocation titlename) as [location|]; [|done].
  cbn [mbind result_bind]. split; [done|].
  unfold push. cbn [data]. by rewrite Hdata.
Qed.

Lemma related_data (run1 run2 : result Loop) :
  related sameKeys run1 run2 →
  (st ← run1; Ok (data st)) = (st ← run2; Ok (data st)).
Proof.
  destruct run1 as [st1|], run2 as [st2|]; try done.
  intros [_ Hdata]. cbn. by rewrite Hdata.
Qed.

(** X6. The [colspan] attributes of a table have no influence on what the
    extractors of templates 4a and 5 return: two tables whose cells differ
    in nothing else give the same records. *)
Theorem colspan_is_inert title table1 table2 name date :
  sameRows (tableRows table1) (tableRows table2) →
  extractDataTemplate4a parseDate title table1 name date =
  extractDataTemplate4a parseDate title table2 name date ∧
  extractDataTemplate5 parseDate title table1 name date =
  extractDataTemplate5 parseDate title table2 name date.
Proof.
  intros Hrows. split.
  - apply related_data.
    apply (foldM_related sameKeys (Forall2 sameButColspan));
      [apply row4a_sameKeys|done|done].
  - apply related_data.
    apply (foldM_related sameKeys (Forall2 sameButColspan));
      [apply row5_sameKeys|done|done].
Qed.

Lemma rowOf_stamped template titlename courtDate st row st' :
  rowOf parseDate template titlename courtDate st row = Ok st' →
  addsOnly (stamped (nameOf titlename) (dateOf parseDate template courtDate)
                    titlename) st st'.
Proof.
  unfold nameOf. destruct template; cbn [rowOf dateOf]; intros Hrun.
  - unfold row4 in Hrun.
    destruct (existsb _ _); [kept Hrun|].
    destruct (_ && _); [|kept Hrun].
    destruct (forallb _ _); [kept Hrun|].
    destruct (extractCourtLocation titlename) as [location|]; [|done].
    cbn [mbind result_bind] in Hrun. by added Hrun.
  - unfold row4a in Hrun.
    destruct (existsb _ _); [kept Hrun|].
    destruct (_ && _); [|kept Hrun].
    destruct (forallb _ _); [kept Hrun|].
    destruct (parties4a _) as [[claimant defendant]|]; [|done].
    cbn [mbind result_bind] in Hrun.
    destruct (extractCourtLocation titlename) as [location|]; [|done].
    cbn [mbind result_bind] in Hrun. by added Hrun.
  - unfold row5 in Hrun.
    destruct (existsb (test Rx.partyName) _); [kept Hrun|].
    destruct (existsb _ _); [kept Hrun|].
    destruct (_ && _); [|kept Hrun].
    destruct (forallb _ _); [kept Hrun|].
    destruct (probeHearingType _) as [hearingType|]; [|kept Hrun].
    set (quad := if strictEq hearingType _ then _ else _) in *. clearbody quad.
    destruct quad as [[[startTime duration] [caseDetails|]] hearingChannel];
      [|discriminate].
    cbn [mbind result_bind defined] in Hrun.
    destruct (strictEq _ (Some "PCOL")); [kept Hrun|].
    destruct (parties5 _) as [[claimant defendant]|]; [|discriminate].
    cbn [mbind result_bind] in Hrun.
    destruct (extractCourtLocation titlename) as [location|]; [|discriminate].
    cbn [mbind result_bind] in Hrun. by added Hrun.
  - unfold row7 in Hrun.
    destruct (existsb _ _); [kept Hrun|].
    destruct (_ && _); [|kept Hrun].
    destruct (forallb _ _); [kept Hrun|].
    destruct (negb _); [kept Hrun|].
    destruct (parties7 _) as [[claimant defendant]|]; [|discriminate].
    cbn [mbind result_bind] in Hrun.
    destruct (extractCourtLocation titlename) as [location|]; [|discriminate].
    cbn [mbind result_bind] in Hrun. by added Hrun.
Qed.

Lemma extractData_stamped template title table name date recs :
  extractData parseDate template title table name date = Ok recs →
  Forall (stamped (nameOf (trim title)) (dateOf parseDate template date)
                  (trim title)) recs.
Proof.
  rewrite extractData_rowOf. intros Hrun.
  by apply (run_adds _ _ _ _ _
              (rowOf_stamped template (trim title) date) Hrun).
Qed.

Lemma mapM_Forall {A B} (P : B → Prop) (f : A → result (list B)) l perItem :
  (∀ a bs, f a = Ok bs → Forall P bs) →
  mapM f l = Ok perItem → Forall P (concat perItem).
Proof.
  intros Hf. revert perItem. induction l as [|a l IH]; intros perItem; simpl.
  - by intros [= <-].
  - intros Hrun. apply bind_Ok in Hrun as (bs & Ha & Hrun).
    apply bind_Ok in Hrun as (rest & Hl & [= <-]).
    cbn [concat]. apply Forall_app. split; [by eapply Hf|by apply IH].
Qed.

(** X16. The records of one document all carry the same court name, the
    same court date and the same title, the trimmed title of the
    document. *)
Theorem document_fields_shared (d : Document) :
  ∃ records name date,
    scrapeDataFromHtml parseDate d = Ok records ∧
    Forall (stamped name date (trim (docTitle d))) records.
Proof.
  destruct (scrape_total parseDate d) as [records Hrun].
  exists records.
  destruct (scrape_firstWins parseDate d records Hrun)
    as (produced & Hproduced & ->).
  unfold extractedRows in Hproduced.
  destruct (identifyTemplate d) as [template|];
    [|injection Hproduced as <-; exists "", ""; split; [done|constructor]].
  apply bind_Ok in Hproduced as ([name date] & _ & Hproduced).
  apply bind_Ok in Hproduced as (perTable & Htables & [= <-]).
  exists (nameOf (trim (docTitle d))), (dateOf parseDate template date).
  split; [done|].
  assert (Hall : Forall (stamped (nameOf (trim (docTitle d)))
                           (dateOf parseDate template date)
                           (trim (docTitle d))) (concat perTable)).
  { eapply mapM_Forall; [|exact Htables].
    intros tableElem recs Hrecs. by apply extractData_stamped in Hrecs. }
  rewrite Forall_forall in Hall. apply Forall_forall. intros rec Hrec.
  apply Hall. eapply elem_of_sublist; [done|apply firstWins_sublist].
Qed.

End Records.

(** ** The column map *)

Section Columns.

Variable headerKey : string → option string.
Variable assign : string → Number → gmap string Number → gmap string Number.
Hypothesis assign_keyed : ∀ headerText logicalIndex h,
  assign headerText logicalIndex h =
  match headerKey headerText with
  | Some key => <[key := logicalIndex]> h
  | None => h
  end.

Lemma mapHeaders_snoc cells cell h :
  mapHeaders assign (cells ++ [cell]) h =
  headerCell assign (mapHeaders assign cells h) cell.
Proof. unfold mapHeaders. by rewrite fold_left_app. Qed.

Lemma columnsBefore_snoc cells cell :
  columnsBefore (cells ++ [cell]) (S (length cells)) =
  addNumber (columnsBefore cells (length cells))
            (colspanOf (cellColspan cell)).
Proof.
  unfold columnsBefore.
  rewrite take_ge by (rewrite length_app; cbn; lia).
  rewrite take_ge by lia.
  by rewrite fold_left_app.
Qed.

Lemma columnsBefore_app cells more k :
  (k ≤ length cells)%nat →
  columnsBefore (cells ++ more) k = columnsBefore cells k.
Proof. intros Hk. unfold columnsBefore. by rewrite take_app_le. Qed.

Lemma mapHeaders_index cells :
  (mapHeaders assign cells ∅).2 = columnsBefore cells (length cells).
Proof.
  induction cells as [|cell cells IH] using rev_ind; [done|].
  rewrite mapHeaders_snoc. unfold headerCell at 1. cbn [snd].
  rewrite IH, length_app. cbn [length].
  replace (length cells + 1)%nat with (S (length cells)) by lia.
  by rewrite columnsBefore_snoc.
Qed.

Lemma lastNamedAt_last cells cell key :
  headerKey (normalizeText (cellText cell)) = Some key →
  ∀ k, lastNamedAt headerKey (cells ++ [cell]) key k ↔ k = length cells.
Proof.
  intros Hkey k. split.
  - intros [(c & Hc & _) Hlast].
    apply lookup_lt_Some in Hc as Hlt. rewrite length_app in Hlt.
    cbn in Hlt.
    destruct (decide (k = length cells)) as [|Hne]; [done|].
    exfalso. apply (Hlast (length cells) cell); [lia| |done].
    by rewrite lookup_app_r, Nat.sub_diag by lia.
  - intros ->. split.
    + exists cell. split; [|done].
      by rewrite lookup_app_r, Nat.sub_diag by lia.
    + intros k' cell' Hlt Hc%lookup_lt_Some.
      rewrite length_app in Hc. cbn in Hc. lia.
Qed.

Lemma lastNamedAt_other cells cell key :
  headerKey (normalizeText (cellText cell)) ≠ Some key →
  ∀ k, lastNamedAt headerKey (cells ++ [cell]) key k ↔
       lastNamedAt headerKey cells key k.
Proof.
  intros Hkey k. split.
  - intros [(c & Hc & Hck) Hlast].
    assert (Hlt : (k < length cells)%nat).
    { apply lookup_lt_Some in Hc as Hlt. rewrite length_app in Hlt.
      cbn in Hlt.
      destruct (decide (k = length cells)) as [->|]; [|lia].
      rewrite lookup_app_r, Nat.sub_diag in Hc by lia.
      injection Hc as <-. done. }
    split.
    + exists c. split; [|done]. by rewrite lookup_app_l in Hc.
    + intros k' cell' Hk' Hc'. apply (Hlast k' cell' Hk').
      apply lookup_lt_Some in Hc' as Hlt'. by rewrite lookup_app_l.
  - intros [(c & Hc & Hck) Hlast].
    apply lookup_lt_Some in Hc as Hlt. split.
    + exists c. split; [|done]. by rewrite lookup_app_l.
    + intros k' cell' Hk' Hc'.
      destruct (decide (k' < length cells)%nat) as [Hlt'|Hge].
      * rewrite lookup_app_l in Hc' by done. by apply (Hlast k' cell').
      * apply lookup_lt_Some in Hc' as Hb. rewrite length_app in Hb.
        cbn in Hb. replace k' with (length cells) in Hc' by lia.
        rewrite lookup_app_r, Nat.sub_diag in Hc' by lia.
        by injection Hc' as <-.
Qed.

(** The column map of a first header row holds, for each field, the
    logical index of the last cell that names it. *)
Lemma mapHeaders_lastNamedAt cells key logicalIndex :
  (mapHeaders assign cells ∅).1 !! key = Some logicalIndex ↔
  ∃ k, lastNamedAt headerKey cells key k ∧
       logicalIndex = columnsBefore cells k.
Proof.
  revert logicalIndex.
  induction cells as [|cell cells IH] using rev_ind; intros logicalIndex.
  - cbn. rewrite lookup_empty. split; [done|].
    intros (k & [(c & Hc & _) _] & _). by rewrite lookup_nil in Hc.
  - rewrite mapHeaders_snoc. unfold headerCell at 1. cbn [fst].
    rewrite assign_keyed, mapHeaders_index.
    destruct (headerKey (normalizeText (cellText cell))) as [key'|] eqn:Hkey.
    + destruct (decide (key' = key)) as [->|Hne].
      * rewrite lookup_insert_eq. split.
        -- intros [= <-]. exists (length cells).
           split; [by apply lastNamedAt_last|].
           by rewrite columnsBefore_app.
        -- intros (k & Hk & ->). apply lastNamedAt_last in Hk as ->; [|done].
           by rewrite columnsBefore_app.
      * rewrite lookup_insert_ne by done. rewrite IH.
        assert (Hother : headerKey (normalizeText (cellText cell)) ≠ Some key)
          by (rewrite Hkey; congruence).
        split; intros (k & Hk & ->); exists k.
        -- split; [by apply lastNamedAt_other|].
           destruct Hk as [(c & Hc%lookup_lt_Some & _) _].
           rewrite columnsBefore_app; [done|lia].
        -- apply lastNamedAt_other in Hk; [|done]. split; [done|].
           destruct Hk as [(c & Hc%lookup_lt_Some & _) _].
           rewrite columnsBefore_app; [done|lia].
    + rewrite IH.
      assert (Hother : headerKey (normalizeText (cellText cell)) ≠ Some key)
        by (rewrite Hkey; congruence).
      split; intros (k & Hk & ->); exists k.
      * split; [by apply lastNamedAt_other|].
        destruct Hk as [(c & Hc%lookup_lt_Some & _) _].
        rewrite columnsBefore_app; [done|lia].
      * apply lastNamedAt_other in Hk; [|done]. split; [done|].
        destruct Hk as [(c & Hc%lookup_lt_Some & _) _].
        rewrite columnsBefore_app; [done|lia].
Qed.

End Columns.

Lemma assign4_keyed headerText logicalIndex h :
  assign4 headerText logicalIndex h =
  match headerKey4 headerText with
  | Some key => <[key := logicalIndex]> h
  | None => h
  end.
Proof.
  unfold assign4, headerKey4. repeat (case_match; [done|]). done.
Qed.

Lemma assign7_keyed headerText logicalIndex h :
  assign7 headerText logicalIndex h =
  match headerKey7 headerText with
  | Some key => <[key := logicalIndex]> h
  | None => h
  end.
Proof.
  unfold assign7, headerKey7. repeat (case_match; [done|]). done.
Qed.

Lemma columnsBefore_spans cells k :
  columnsBefore cells k =
  fold_left addNumber (map (λ c, colspanOf (cellColspan c)) (take k cells))
            (Int 0).
Proof.
  unfold columnsBefore. generalize (Int 0). generalize (take k cells).
  intros l. induction l as [|c l IH]; intros n; [done|].
  cbn [fold_left map]. by rewrite IH.
Qed.

(** X7. The column map that templates 4 and 7 build from a first header
    row sends a field to a logical index exactly when that index is the
    number of columns spanned by the cells before the last header cell
    naming the field: their spans added from the left as doubles, which
    is their sum as integers while the running sums stay within 2^53 on
    either side of zero. *)
Theorem header_map_positions cells key logicalIndex :
  ((mapHeaders assign4 cells ∅).1 !! key = Some logicalIndex ↔
   ∃ k, lastNamedAt headerKey4 cells key k ∧
        logicalIndex = columnsBefore cells k) ∧
  ((mapHeaders assign7 cells ∅).1 !! key = Some logicalIndex ↔
   ∃ k, lastNamedAt headerKey7 cells key k ∧
        logicalIndex = columnsBefore cells k) ∧
  (∀ k spans,
     map (λ c, colspanOf (cellColspan c)) (take k cells) = map Int spans →
     (∀ j, safeInteger (total (take j spans))) →
     columnsBefore cells k = Int (total spans)).
Proof.
  split; [|split].
  - apply mapHeaders_lastNamedAt, assign4_keyed.
  - apply mapHeaders_lastNamedAt, assign7_keyed.
  - intros k spans Hspans Hsafe.
    rewrite columnsBefore_spans, Hspans, fold_addNumber_safe; [done|].
    intros j. by rewrite Z.add_0_l.
Qed.

(** ** The scan of the paragraphs *)

Section Scan.

Variable parseDate : string -> option JsDate.

Lemma foldM_app {S A} (f : S → A → result S) l1 l2 s :
  foldM f (l1 ++ l2) s = (s' ← foldM f l1 s; foldM f l2 s').
Proof.
  revert s. induction l1 as [|a l1 IH]; intros s; simpl; [done|].
  destruct (f s a) as [s1|]; [|done]. cbn. apply IH.
Qed.

Lemma datePattern_nonempty text :
  test Rs.datePattern text = true → String.eqb text "" = false.
Proof.
  intros Ht. destruct (String.eqb_spec text "") as [->|]; [|done].
  vm_compute in Ht. discriminate.
Qed.

(** A paragraph in the weekday, comma, date form becomes the court date,
    whatever it was. *)
Lemma scanParagraph_sets name date elemText name' date' :
  test Rs.datePattern (trim elemText) = true →
  scanParagraph parseDate (name, date) elemText = Ok (name', date') →
  date' = trim elemText.
Proof.
  intros Ht Hrun. unfold scanParagraph in Hrun.
  apply bind_Ok in Hrun as (n & _ & Hrun).
  cbv zeta in Hrun. rewrite Ht in Hrun. cbv iota in Hrun.
  repeat (rewrite (datePattern_nonempty _ Ht) in Hrun;
          cbn [andb] in Hrun; cbv iota in Hrun).
  by injection Hrun as _ <-.
Qed.

(** A court date that is set is only replaced by a paragraph in the
    weekday, comma, date form. *)
Lemma scanParagraph_keeps name date elemText name' date' :
  date ≠ "" →
  test Rs.datePattern (trim elemText) = false →
  scanParagraph parseDate (name, date) elemText = Ok (name', date') →
  date' = date.
Proof.
  intros Hdate%String.eqb_neq Ht Hrun. unfold scanParagraph in Hrun.
  apply bind_Ok in Hrun as (n & _ & Hrun).
  cbv zeta in Hrun. rewrite Ht in Hrun. cbv iota in Hrun.
  repeat (rewrite Hdate in Hrun; cbn [andb] in Hrun; cbv iota in Hrun).
  by injection Hrun as _ <-.
Qed.

Lemma foldM_scan_keeps paragraphs name date name' date' :
  date ≠ "" →
  Forall (λ elemText, test Rs.datePattern (trim elemText) = false)
         paragraphs →
  foldM (scanParagraph parseDate) paragraphs (name, date) = Ok (name', date') →
  date' = date.
Proof.
  intros Hdate Hnone. revert name.
  induction Hnone as [|elemText paragraphs Ht _ IH]; intros name Hrun;
    simpl in Hrun.
  - by injection Hrun as _ <-.
  - apply bind_Ok in Hrun as ([name1 date1] & Hstep & Hrun).
    apply scanParagraph_keeps in Hstep as ->; [|done..].
    by apply IH in Hrun.
Qed.

(** X8. When some paragraph of the document is in the weekday, comma, date
    form, the court date the scan of the paragraphs ends with is the
    trimmed text of the last such paragraph. *)
Theorem court_date_is_last_dated_paragraph before elemText rest :
  test Rs.datePattern (trim elemText) = true →
  Forall (λ later, test Rs.datePattern (trim later) = false) rest →
  ∃ name,
    foldM (scanParagraph parseDate) (before ++ elemText :: rest) ("", "") =
    Ok (name, trim elemText).
Proof.
  intros Ht Hrest.
  destruct (foldM_total (scanParagraph parseDate)
              (before ++ elemText :: rest) ("", ""))
    as [[name date] Hrun]; [intros; apply scanParagraph_total|].
  exists name. rewrite Hrun. f_equal. f_equal.
  rewrite foldM_app in Hrun.
  apply bind_Ok in Hrun as ([name0 date0] & _ & Hrun). simpl in Hrun.
  apply bind_Ok in Hrun as ([name1 date1] & Hstep & Hrun).
  apply scanParagraph_sets in Hstep as ->; [|done].
  apply foldM_scan_keeps in Hrun; [done| |done].
  apply datePattern_nonempty in Ht. by apply String.eqb_neq.
Qed.

End Scan.

(** ** The classifier *)

Section Classifier.

Lemma collapseFrom_prefix l f pre rest :
  collapseFrom f l = pre ++ rest →
  ∃ pre' l' f', l = pre' ++ l' ∧ collapseFrom f' l' = rest.
Proof.
  revert f pre. induction l as [|c l IH]; intros f pre Hl.
  - destruct pre; [|done]. by exists [], [], f.
  - destruct pre as [|p pre]; [by exists [], (c :: l), f|].
    cbn [collapseFrom] in Hl.
    destruct (isSpace c); [destruct f|].
    + destruct (IH true (p :: pre) Hl) as (pre' & l' & f' & -> & Hrest).
      by exists (c :: pre'), l', f'.
    + injection Hl as _ Hl.
      destruct (IH true pre Hl) as (pre' & l' & f' & -> & Hrest).
      by exists (c :: pre'), l', f'.
    + injection Hl as _ Hl.
      destruct (IH false pre Hl) as (pre' & l' & f' & -> & Hrest).
      by exists (c :: pre'), l', f'.
Qed.

(** Characters without white space in the collapsed text stand together
    in the text itself, after the white space the collapse skipped. *)
Lemma collapseFrom_solid_inv a l f rest :
  solid a → a ≠ [] → collapseFrom f l = a ++ rest →
  ∃ sp l', spaces sp ∧ (f = false → sp = []) ∧
           l = sp ++ a ++ l' ∧ collapseFrom false l' = rest.
Proof.
  intros Ha. revert l f. induction Ha as [|x a Hx Ha IH]; [done|].
  intros l f _. induction l as [|c l IHl] in f |- *; [done|].
  cbn [collapseFrom app]. destruct (isSpace c) eqn:Hc; [destruct f|].
  - intros Hl. destruct (IHl true Hl) as (sp & l' & Hsp & _ & -> & Hrest).
    exists (c :: sp), l'. split; [by constructor|done].
  - intros [= <- _]. cbn in Hx. done.
  - intros [= -> Hl]. exists []. destruct a as [|y a].
    + exists l. by repeat split; try constructor.
    + destruct (IH l false) as (sp & l' & _ & Hnil & -> & Hrest); [done..|].
      rewrite Hnil by done. exists l'. by repeat split; try constructor.
Qed.

Lemma collapseFrom_true_head l y rest :
  collapseFrom true l = y :: rest → isSpace y = false.
Proof.
  induction l as [|c l IH]; [done|]. cbn [collapseFrom].
  destruct (isSpace c) eqn:Hc; [done|]. by intros [= <- _].
Qed.

Lemma collapseFrom_spaces_inv ws b l post :
  spaces ws → solid b → b ≠ [] →
  collapseFrom false l = ws ++ b ++ post →
  ∃ ws' l', spaces ws' ∧ l = ws' ++ b ++ l'.
Proof.
  intros Hws Hb Hne Hl. destruct Hws as [|w ws Hw Hws].
  - destruct (collapseFrom_solid_inv b l false post Hb Hne Hl)
      as (sp & l' & Hsp & _ & -> & _).
    by exists sp, l'.
  - destruct l as [|c l]; [done|]. cbn [collapseFrom app] in Hl.
    destruct (isSpace c) eqn:Hc; [|injection Hl as -> _; congruence].
    injection Hl as _ Hl. destruct Hws as [|w2 ws Hw2 _].
    + destruct (collapseFrom_solid_inv b l true post Hb Hne Hl)
        as (sp & l' & Hsp & _ & -> & _).
      exists (c :: sp), l'. split; [by constructor|done].
    + apply collapseFrom_true_head in Hl. congruence.
Qed.

Lemma hasWords_collapseSpaces_inv w1 w2 s :
  forallb (λ c, negb (isSpace c)) (chars w1) = true → w1 ≠ "" →
  forallb (λ c, negb (isSpace c)) (chars w2) = true → w2 ≠ "" →
  hasWords w1 w2 (collapseSpaces s) → hasWords w1 w2 s.
Proof.
  intros Hw1 Hne1 Hw2 Hne2 (pre & a & ws & b & post & Hs & Ha & Hws & Hb).
  destruct (eqCI_solid a w1 Ha Hw1) as [Hsa Hna].
  destruct (eqCI_solid b w2 Hb Hw2) as [Hsb Hnb].
  rewrite collapseSpaces_chars in Hs.
  apply collapseFrom_prefix in Hs as (pre' & l1 & f & Hs & Hl1).
  apply collapseFrom_solid_inv in Hl1 as (sp & l2 & _ & _ & -> & Hl2);
    [|done|by apply Hna].
  apply collapseFrom_spaces_inv in Hl2 as (ws' & l3 & Hws' & ->);
    [|done|done|by apply Hnb].
  exists (pre' ++ sp), a, ws', b, l3.
  split; [by rewrite Hs, <- !app_assoc|done].
Qed.

Lemma eqCI_lower a w : eqCI (map lowerChar a) w ↔ eqCI a w.
Proof.
  unfold eqCI. rewrite map_map.
  by rewrite (map_ext _ lowerChar lowerChar_idem).
Qed.

Lemma spaces_lower ws : spaces (map lowerChar ws) ↔ spaces ws.
Proof.
  unfold spaces. rewrite Forall_map. apply Forall_proper; [|done].
  intros c. cbn. by rewrite isSpace_lowerChar.
Qed.

Lemma hasWords_toLowerCase_inv w1 w2 s :
  hasWords w1 w2 (toLowerCase s) → hasWords w1 w2 s.
Proof.
  intros (pre & a & ws & b & post & Hs & Ha & Hws & Hb).
  rewrite chars_toLowerCase in Hs.
  apply map_eq_app in Hs as (pre0 & l1 & Hs & <- & Hl1).
  apply map_eq_app in Hl1 as (a0 & l2 & -> & <- & Hl2).
  apply map_eq_app in Hl2 as (ws0 & l3 & -> & <- & Hl3).
  apply map_eq_app in Hl3 as (b0 & post0 & -> & <- & <-).
  exists pre0, a0, ws0, b0, post0.
  by rewrite eqCI_lower in Ha, Hb; rewrite spaces_lower in Hws.
Qed.

Lemma hasWord_collapseSpaces w s :
  forallb (λ c, negb (isSpace c)) (chars w) = true → w ≠ "" →
  hasWord w (collapseSpaces s) ↔ hasWord w s.
Proof.
  intros Hw Hne. unfold hasWord. rewrite collapseSpaces_chars. split.
  - intros (pre & a & post & Hs & Ha).
    destruct (eqCI_solid a w Ha Hw) as [Hsa Hna].
    apply collapseFrom_prefix in Hs as (pre' & l1 & f & Hs & Hl1).
    apply collapseFrom_solid_inv in Hl1 as (sp & l2 & _ & _ & -> & _);
      [|done|by apply Hna].
    exists (pre' ++ sp), a, l2. by rewrite Hs, <- !app_assoc.
  - intros (pre & a & post & -> & Ha).
    destruct (eqCI_solid a w Ha Hw) as [Hsa Hna].
    destruct (collapseFrom_before pre false a post) as [pre' ->];
      [done|by apply Hna|].
    by exists pre', a, (collapseFrom false post).
Qed.

Lemma hasWord_toLowerCase w s : hasWord w (toLowerCase s) ↔ hasWord w s.
Proof.
  unfold hasWord. rewrite chars_toLowerCase. split.
  - intros (pre & a & post & Hs & Ha).
    apply map_eq_app in Hs as (pre0 & l1 & Hs & <- & Hl1).
    apply map_eq_app in Hl1 as (a0 & post0 & -> & <- & <-).
    exists pre0, a0, post0. by rewrite eqCI_lower in Ha.
  - intros (pre & a & post & -> & Ha). rewrite !map_app.
    exists (map lowerChar pre), (map lowerChar a), (map lowerChar post).
    by rewrite eqCI_lower.
Qed.

(** The tests of the classifier on the body text, read on the text as it
    stands in the document. *)
Lemma body_words w1 w2 (d : Document) :
  forallb (λ c, negb (isSpace c)) (chars w1) = true → w1 ≠ "" →
  forallb (λ c, negb (isSpace c)) (chars w2) = true → w2 ≠ "" →
  test (seqs [litI w1; star space; litI w2]) (bodyTextContent d) = true ↔
  hasWords w1 w2 (docBodyText d).
Proof.
  intros Hw1 Hne1 Hw2 Hne2. rewrite test_words. unfold bodyTextContent.
  split.
  - intros H%hasWords_collapseSpaces_inv; [|done..].
    by apply hasWords_toLowerCase_inv.
  - intros H. apply hasWords_collapseSpaces; [done..|].
    by apply hasWords_toLowerCase.
Qed.

Lemma body_word w (d : Document) :
  forallb (λ c, negb (isSpace c)) (chars w) = true → w ≠ "" →
  test (litI w) (bodyTextContent d) = true ↔ hasWord w (docBodyText d).
Proof.
  intros Hw Hne. rewrite test_iff by apply anchorFree_litI.
  unfold bodyTextContent.
  rewrite <- hasWord_toLowerCase, <- (hasWord_collapseSpaces w) by done.
  unfold hasWord. by setoid_rewrite Lang_litI.
Qed.

Lemma hasWords_details s : hasWords "case" "details" s → hasWords "case" "detail" s.
Proof.
  intros (pre & a & ws & b & post & Hs & Ha & Hws & Hb).
  exists pre, a, ws, (take 6 b), (drop 6 b ++ post).
  split; [by rewrite (app_assoc (take 6 b)), take_drop|].
  split; [done|]. split; [done|].
  unfold eqCI in *. by rewrite <- firstn_map, Hb.
Qed.

(** X9. A document whose body text holds, in any letter case, "claim",
    any white space, "number" is never left unclassified. *)
Theorem claim_number_is_classified (d : Document) :
  hasWords "claim" "number" (docBodyText d) →
  ∃ template, identifyTemplate d = Some template.
Proof.
  intros H%(body_words "claim" "number"); [|done..].
  unfold identifyTemplate. cbv zeta. fold Re.claimNumber in H. rewrite H.
  rewrite orb_true_r. repeat case_match; by eexists.
Qed.

(** X10. A document is classified as template 7 exactly when its body
    text holds, in any letter case, "case", any white space, "ref" and
    "case", any white space, "name". *)
Theorem template7_iff (d : Document) :
  identifyTemplate d = Some template7 ↔
  hasWords "case" "ref" (docBodyText d) ∧
  hasWords "case" "name" (docBodyText d).
Proof.
  rewrite <- (body_words "case" "ref"), <- (body_words "case" "name") by done.
  fold Re.caseRef Re.caseName. rewrite <- andb_true_iff.
  unfold identifyTemplate. cbv zeta.
  destruct (test Re.caseRef _ && test Re.caseName _); [done|].
  split; [|done]. repeat case_match; done.
Qed.

Lemma template7_iff_body (d : Document) :
  test Re.caseRef (bodyTextContent d) && test Re.caseName (bodyTextContent d)
    = true ↔
  hasWords "case" "ref" (docBodyText d) ∧
  hasWords "case" "name" (docBodyText d).
Proof.
  rewrite andb_true_iff. unfold Re.caseRef, Re.caseName.
  by rewrite !body_words.
Qed.

(** X11. A document is classified as template 5 exactly when it is not
    one of template 7 and its body text holds, in any letter case and
    with any white space between the two words, "start time", "duration",
    "case detail", "hearing type" and "hearing channel". *)
Theorem template5_iff (d : Document) :
  identifyTemplate d = Some template5 ↔
  ¬ (hasWords "case" "ref" (docBodyText d) ∧
     hasWords "case" "name" (docBodyText d)) ∧
  hasWords "start" "time" (docBodyText d) ∧
  hasWord "duration" (docBodyText d) ∧
  hasWords "case" "detail" (docBodyText d) ∧
  hasWords "hearing" "type" (docBodyText d) ∧
  hasWords "hearing" "channel" (docBodyText d).
Proof.
  rewrite <- template7_iff_body.
  assert (Hdetail : test Re.caseDetails (bodyTextContent d)
                    || test Re.caseDetail (bodyTextContent d) = true ↔
                    hasWords "case" "detail" (docBodyText d)).
  { rewrite orb_true_iff. unfold Re.caseDetails, Re.caseDetail.
    rewrite !body_words by done. split; [|by right].
    intros [H|H]; [by apply hasWords_details|done]. }
  rewrite <- (body_words "start" "time"), <- (body_word "duration"),
    <- Hdetail, <- (body_words "hearing" "type"),
    <- (body_words "hearing" "channel") by done.
  fold Re.startTime Re.duration Re.hearingType Re.hearingChannel.
  unfold identifyTemplate. cbv zeta.
  destruct (test Re.caseRef _ && test Re.caseName _) eqn:H7.
  { split; [done|]. by intros [[] _]. }
  rewrite <- !andb_true_iff, !andb_assoc.
  destruct (_ && _ && _ && _ && _).
  - split; [|done]. intros _. split; [|done]. by intros [=].
  - split; [|by intros [_ [=]]]. repeat case_match; done.
Qed.

(** X12. A document whose body text holds neither "claim number", nor
    "case ref", nor "start time" (in any letter case, with any white
    space between the two words), and none of whose table cells holds
    "claim number" once normalized, is left unclassified and yields no
    record. *)
Theorem no_token_no_record (parseDate : string → option JsDate)
    (d : Document) :
  ¬ hasWords "claim" "number" (docBodyText d) →
  ¬ hasWords "case" "ref" (docBodyText d) →
  ¬ hasWords "start" "time" (docBodyText d) →
  Forall (λ c, includes (normalizeText (cellText c)) "claim number" = false)
         (tableCells d) →
  identifyTemplate d = None ∧ scrapeDataFromHtml parseDate d = Ok [].
Proof.
  intros Hclaim Href Htime Hcells.
  assert (Hnone : identifyTemplate d = None).
  { unfold identifyTemplate. cbv zeta.
    rewrite <- (body_words "claim" "number") in Hclaim by done.
    rewrite <- (body_words "case" "ref") in Href by done.
    rewrite <- (body_words "start" "time") in Htime by done.
    apply not_true_iff_false in Hclaim, Href, Htime.
    fold Re.claimNumber in Hclaim. fold Re.caseRef in Href.
    fold Re.startTime in Htime. rewrite Hclaim, Href, Htime.
    cbn [andb orb].
    assert (Hcell : existsb
              (λ c, includes (normalizeText (cellText c)) "claim number" &&
                    includes (toLowerCase (cellText c)) "claimant")
              (tableCells d) = false).
    { induction Hcells as [|c l Hc _ IH]; [done|].
      cbn [existsb]. by rewrite Hc, IH. }
    rewrite Hcell, !andb_false_r. done. }
  split; [done|]. unfold scrapeDataFromHtml. by rewrite Hnone.
Qed.

End Classifier.

(** ** [normalizeText] *)

Section Normalize.

Lemma collapseFrom_lower f l :
  collapseFrom f (map lowerChar l) = map lowerChar (collapseFrom f l).
Proof.
  revert f. induction l as [|c l IH]; intros f; [done|].
  cbn [map collapseFrom]. rewrite isSpace_lowerChar.
  destruct (isSpace c); [destruct f|]; cbn [map]; by rewrite IH.
Qed.

Lemma dropSpaces_lower l :
  dropSpaces (map lowerChar l) = map lowerChar (dropSpaces l).
Proof.
  induction l as [|c l IH]; [done|].
  cbn [map dropSpaces]. rewrite isSpace_lowerChar.
  by destruct (isSpace c).
Qed.

Lemma trimChars_lower l :
  trimChars (map lowerChar l) = map lowerChar (trimChars l).
Proof.
  unfold trimChars.
  by rewrite dropSpaces_lower, <- map_rev, dropSpaces_lower, <- map_rev.
Qed.

(** What [dropSpaces] removes. *)
Lemma dropSpaces_split l : ∃ sp, spaces sp ∧ l = sp ++ dropSpaces l.
Proof.
  induction l as [|c l (sp & Hsp & IH)];
    [exists []; split; [constructor|done]|].
  cbn [dropSpaces]. destruct (isSpace c) eqn:Hc.
  - exists (c :: sp). split; [by constructor|]. cbn. by rewrite <- IH.
  - exists []. split; [constructor|done].
Qed.

Lemma dropSpaces_idem l : dropSpaces (dropSpaces l) = dropSpaces l.
Proof.
  induction l as [|c l IH]; [done|]. cbn [dropSpaces].
  destruct (isSpace c) eqn:Hc; [done|]. cbn [dropSpaces]. by rewrite Hc.
Qed.

(** Dropping the white space at the end leaves the start in place. *)
Lemma dropSpaces_rev_fixed l :
  dropSpaces l = l → dropSpaces (rev (dropSpaces (rev l))) = rev (dropSpaces (rev l)).
Proof.
  destruct l as [|c l]; [done|]. cbn [dropSpaces].
  destruct (isSpace c) eqn:Hc.
  { intros H. exfalso. destruct (dropSpaces_split l) as (sp & _ & Hl).
    apply (f_equal length) in H, Hl. rewrite length_app in Hl.
    cbn [length] in H. lia. }
  intros _. cbn [rev].
  destruct (dropSpaces_split (rev l ++ [c])) as (sp & Hsp & Hl).
  assert (Hlast : ∃ u, dropSpaces (rev l ++ [c]) = u ++ [c]).
  { clear Hl. induction (rev l) as [|x r IH]; cbn [app dropSpaces].
    - rewrite Hc. by exists [].
    - destruct (isSpace x); [done|]. by exists (x :: r). }
  destruct Hlast as [u ->]. rewrite rev_app_distr. cbn [rev app dropSpaces].
  by rewrite Hc.
Qed.

Lemma trimChars_idem l : trimChars (trimChars l) = trimChars l.
Proof.
  unfold trimChars.
  rewrite (dropSpaces_rev_fixed (dropSpaces l)) by apply dropSpaces_idem.
  by rewrite rev_involutive, dropSpaces_idem.
Qed.

Lemma collapseFrom_length f l : (length (collapseFrom f l) ≤ length l)%nat.
Proof.
  revert f. induction l as [|c l IH]; intros f; [done|].
  cbn [collapseFrom]. destruct (isSpace c); [destruct f|]; cbn [length].
  - specialize (IH true). lia.
  - specialize (IH true). lia.
  - specialize (IH false). lia.
Qed.

Lemma collapseFrom_head l :
  (∀ c t, l = c :: t → isSpace c = false) →
  collapseFrom true l = collapseFrom false l.
Proof.
  destruct l as [|c t]; [done|]. intros H. cbn [collapseFrom].
  by rewrite (H c t).
Qed.

Lemma collapseFrom_idem f l :
  collapseFrom false (collapseFrom f l) = collapseFrom f l.
Proof.
  revert f. induction l as [|c l IH]; intros f; [done|].
  cbn [collapseFrom]. destruct (isSpace c) eqn:Hc; [destruct f|].
  - apply IH.
  - cbn [collapseFrom]. change (isSpace " ") with true. cbv iota. f_equal.
    rewrite collapseFrom_head; [apply IH|].
    intros y t Hy. by apply collapseFrom_true_head in Hy.
  - cbn [collapseFrom]. rewrite Hc. f_equal. apply IH.
Qed.

(** A text the collapse leaves as it is stays so when white space is
    dropped at its start, and when any end of it is cut off. *)
Lemma collapsed_dropSpaces l :
  collapseFrom false l = l → collapseFrom false (dropSpaces l) = dropSpaces l.
Proof.
  destruct l as [|c t]; [done|]. cbn [collapseFrom dropSpaces].
  destruct (isSpace c) eqn:Hc;
    [|intros H; cbn [collapseFrom]; by rewrite Hc].
  intros [= _ Ht].
  assert (Hhead : ∀ y u, t = y :: u → isSpace y = false).
  { intros y u ->. by apply collapseFrom_true_head in Ht. }
  rewrite collapseFrom_head in Ht by done.
  destruct t as [|y u]; [done|]. cbn [dropSpaces].
  by rewrite (Hhead y u).
Qed.

Lemma collapsed_prefix f p s :
  collapseFrom f (p ++ s) = p ++ s → collapseFrom f p = p.
Proof.
  revert f. induction p as [|c p IH]; intros f; [done|].
  cbn [app collapseFrom]. destruct (isSpace c); [destruct f|].
  - intros H. exfalso. apply (f_equal length) in H.
    pose proof (collapseFrom_length true (p ++ s)). cbn [length] in H. lia.
  - intros [= <- H]. f_equal. by apply IH in H.
  - intros [= H]. f_equal. by apply IH in H.
Qed.

Lemma collapsed_trimChars l :
  collapseFrom false l = l → collapseFrom false (trimChars l) = trimChars l.
Proof.
  intros H%collapsed_dropSpaces. unfold trimChars.
  destruct (dropSpaces_split (rev (dropSpaces l))) as (sp & _ & Hsp).
  apply (f_equal (@rev ascii)) in Hsp.
  rewrite rev_involutive, rev_app_distr in Hsp.
  rewrite Hsp in H. by apply collapsed_prefix in H.
Qed.

Lemma chars_normalizeText text :
  chars (normalizeText text) =
  map lowerChar (trimChars (collapseFrom false (chars text))).
Proof.
  unfold normalizeText.
  by rewrite chars_toLowerCase, chars_trim, collapseSpaces_chars.
Qed.

(** X13. [normalizeText] is idempotent: a normalized text is its own
    normal form. *)
Theorem normalizeText_idempotent (text : string) :
  normalizeText (normalizeText text) = normalizeText text.
Proof.
  apply chars_inj. rewrite chars_normalizeText, chars_normalizeText.
  rewrite collapseFrom_lower, trimChars_lower.
  rewrite collapsed_trimChars by apply collapseFrom_idem.
  rewrite trimChars_idem, map_map.
  apply map_ext. apply lowerChar_idem.
Qed.

End Normalize.

(** ** The CSV file *)

Section Csv.

Lemma escaped_cons c x :
  escaped (c :: x) =
  (if Ascii.eqb c quote then [quote; quote] else [c]) ++ escaped x.
Proof. done. Qed.

(** A cell can be read back: what follows its closing quote is no
    quote. *)
Lemma quoted_prefix_free x y r1 r2 :
  (∀ t, r1 ≠ quote :: t) → (∀ t, r2 ≠ quote :: t) →
  escaped x ++ quote :: r1 = escaped y ++ quote :: r2 →
  x = y ∧ r1 = r2.
Proof.
  intros H1 H2. revert y. induction x as [|c x IH]; intros y.
  - destruct y as [|d y]; cbn [escaped flat_map app].
    + by intros [= ->].
    + fold (escaped y). destruct (Ascii.eqb_spec d quote) as [->|Hd].
      * intros [= ->]. by destruct (H1 (escaped y ++ quote :: r2)).
      * intros [= <-]. done.
  - destruct y as [|d y]; rewrite !escaped_cons.
    + cbn [escaped flat_map app].
      destruct (Ascii.eqb_spec c quote) as [->|Hc].
      * intros [= <-]. by destruct (H2 (escaped x ++ quote :: r1)).
      * intros [= ->]. done.
    + destruct (Ascii.eqb_spec c quote) as [->|Hc],
               (Ascii.eqb_spec d quote) as [->|Hd]; cbn [app].
      * intros [= H]. by destruct (IH y H) as [-> ->].
      * intros [= <-]. done.
      * intros [= ->]. done.
      * intros [= -> H]. by destruct (IH y H) as [-> ->].
Qed.

Lemma joinChars_cons sep x l :
  joinChars sep (x :: l) = x ++ flat_map (λ y, sep ++ y) l.
Proof.
  revert x. induction l as [|y l IH]; intros x.
  - cbn. by rewrite app_nil_r.
  - change (joinChars sep (x :: y :: l))
      with (x ++ sep ++ joinChars sep (y :: l)).
    cbn [flat_map]. by rewrite IH, <- app_assoc.
Qed.

Lemma chars_join sep l :
  chars (join sep l) = joinChars (chars sep) (map chars l).
Proof.
  rewrite <- (chars_str (joinChars _ _)), <- join_str, map_map.
  f_equal. f_equal. rewrite <- (map_id l) at 1. apply map_ext.
  intros s. by rewrite str_chars.
Qed.

Lemma chars_formatCell row header :
  chars (formatCell row header) =
  quoted (chars (trim (orStr (getField row header) ""))).
Proof.
  unfold formatCell, escapeQuotes, quoted.
  by rewrite !chars_app, !chars_str.
Qed.

(** The characters of a row: its nine cells, a comma between two. *)
Lemma chars_formattedRow row :
  chars (formattedRow row) =
  joinChars [","%char] (map (λ x, quoted (chars x)) (printedFields row)).
Proof.
  unfold formattedRow. rewrite chars_join, map_map.
  unfold headers, printedFields. cbn [map].
  rewrite !chars_formatCell. cbn [getField String.eqb Ascii.eqb Bool.eqb].
  by rewrite !orStr_empty.
Qed.

Lemma furtherCells_inj x y xs ys r1 r2 :
  length xs = length ys →
  (∀ t, r1 ≠ quote :: t) → (∀ t, r2 ≠ quote :: t) →
  escaped x ++ quote :: furtherCells xs r1 =
  escaped y ++ quote :: furtherCells ys r2 →
  x = y ∧ xs = ys ∧ r1 = r2.
Proof.
  intros Hlen H1 H2. revert x y ys Hlen.
  induction xs as [|x' xs IH]; intros x y [|y' ys] Hlen; try done;
    cbn [furtherCells]; intros H.
  - by destruct (quoted_prefix_free _ _ _ _ H1 H2 H) as [-> ->].
  - apply quoted_prefix_free in H as [-> H]; [|done..].
    injection H as H.
    destruct (IH x' y' ys) as (-> & -> & ->); [by injection Hlen|done|].
    done.
Qed.

Lemma joinChars_furtherCells x xs rest :
  joinChars [","%char] (map quoted (x :: xs)) ++ rest =
  quote :: escaped x ++ quote :: furtherCells xs rest.
Proof.
  cbn [map]. rewrite joinChars_cons. unfold quoted at 1. cbn [app].
  rewrite <- !app_assoc. cbn [app]. do 3 f_equal.
  induction xs as [|x' xs IH]; [done|].
  cbn [map flat_map furtherCells]. unfold quoted at 1. cbn [app].
  rewrite <- !app_assoc. cbn [app]. by rewrite IH.
Qed.

Lemma cells_inj xs ys r1 r2 :
  length xs = length ys →
  (∀ t, r1 ≠ quote :: t) → (∀ t, r2 ≠ quote :: t) →
  joinChars [","%char] (map quoted xs) ++ r1 =
  joinChars [","%char] (map quoted ys) ++ r2 →
  xs = ys ∧ r1 = r2.
Proof.
  intros Hlen H1 H2.
  destruct xs as [|x xs], ys as [|y ys]; try done.
  rewrite !joinChars_furtherCells. intros [= H].
  destruct (furtherCells_inj x y xs ys r1 r2) as (-> & -> & ->);
    [by injection Hlen|done..].
Qed.

Lemma chars_csvContent data :
  chars (csvContent data) =
  chars (join "," headers) ++
  flat_map (λ row, "010"%char :: chars (formattedRow row)) data.
Proof.
  unfold csvContent. rewrite chars_join. cbn [app map].
  rewrite joinChars_cons, map_map. f_equal.
  induction data as [|row data IH]; [done|].
  cbn [map flat_map]. by rewrite IH.
Qed.

Lemma tail_eq {A} (a : A) l1 l2 : a :: l1 = a :: l2 → l1 = l2.
Proof. by intros [= ->]. Qed.

Lemma cons_eq {A} (a b : A) l1 l2 : a :: l1 = b :: l2 → a = b ∧ l1 = l2.
Proof. by intros [= -> ->]. Qed.

Lemma rows_cons row data :
  flat_map (λ row, "010"%char :: chars (formattedRow row)) (row :: data) =
  "010"%char :: joinChars [","%char] (map quoted (map chars (printedFields row)))
    ++ flat_map (λ row, "010"%char :: chars (formattedRow row)) data.
Proof.
  rewrite map_map, <- chars_formattedRow. done.
Qed.

Lemma rows_inj data1 data2 :
  flat_map (λ row, "010"%char :: chars (formattedRow row)) data1 =
  flat_map (λ row, "010"%char :: chars (formattedRow row)) data2 →
  map printedFields data1 = map printedFields data2.
Proof.
  assert (Hrest : ∀ data t,
            flat_map (λ row, "010"%char :: chars (formattedRow row)) data
            ≠ quote :: t).
  { intros [|row data] t; [done|]. rewrite rows_cons. discriminate. }
  revert data2. induction data1 as [|row1 data1 IH]; intros [|row2 data2];
    rewrite ?rows_cons; intros H; [done|discriminate H|discriminate H|].
  apply tail_eq in H.
  apply cells_inj in H as [Hrow H]; [|by rewrite !length_map|apply Hrest..].
  apply IH in H. cbn [map]. rewrite H. f_equal.
  clear -Hrow. revert Hrow.
  generalize (printedFields row1) as l1, (printedFields row2) as l2.
  induction l1 as [|x l1 IH]; intros [|y l2]; try done.
  cbn [map]. intros [= Hx%chars_inj H%IH]. by subst.
Qed.

(** X14. The content [saveToCsv] writes tells two lists of records apart
    exactly when they differ, record by record, in one of the nine
    fields with the white space around it taken off: quoting loses
    nothing else. *)
Theorem csv_content_faithful (data1 data2 : list CaseRecord) :
  csvContent data1 = csvContent data2 ↔
  map printedFields data1 = map printedFields data2.
Proof.
  split.
  - intros H%(f_equal chars). rewrite !chars_csvContent in H.
    apply app_inv_head in H. by apply rows_inj.
  - intros H. apply chars_inj. rewrite !chars_csvContent. f_equal.
    revert data2 H. induction data1 as [|row1 data1 IH]; intros [|row2 data2];
      cbn [map]; intros H; [done|discriminate H|discriminate H|].
    apply cons_eq in H as [Hrow H].
    by rewrite !rows_cons, Hrow, (IH data2).
Qed.

End Csv.

(** ** The run over a directory *)

Section Directory.

Variable parseDate : string -> option JsDate.

Lemma scrape_recordsOf d :
  scrapeDataFromHtml parseDate d = Ok (recordsOf parseDate d).
Proof.
  unfold recordsOf. by destruct (scrape_total parseDate d) as [records ->].
Qed.

Lemma visitFile_step st file document :
  visitFile parseDate st (file, document) =
  Ok (if decide (toLowerCase (extname file) = ".html") then
        if decide (length (recordsOf parseDate document) = O)
        then mkBatch (allData st) (checkedFiles st)
                     (unprocessedFiles st ++ [file])
        else mkBatch (allData st ++ recordsOf parseDate document)
                     (checkedFiles st ++ [file]) (unprocessedFiles st)
      else st).
Proof.
  unfold visitFile.
  destruct (String.eqb_spec (toLowerCase (extname file)) ".html") as [Hext|Hext].
  - rewrite decide_True by done. rewrite scrape_recordsOf.
    cbn [mbind result_bind].
    destruct (Nat.eqb_spec (length (recordsOf parseDate document)) 0).
    + by rewrite decide_True.
    + by rewrite decide_False.
  - by rewrite decide_False.
Qed.

Lemma foldM_visitFile entries st :
  foldM (visitFile parseDate) entries st =
  Ok (mkBatch
        (allData st ++
         flat_map (λ entry, recordsOf parseDate entry.2) (htmlFiles entries))
        (checkedFiles st ++
         map fst (filter (λ entry, length (recordsOf parseDate entry.2) ≠ O)
                         (htmlFiles entries)))
        (unprocessedFiles st ++
         map fst (filter (λ entry, length (recordsOf parseDate entry.2) = O)
                         (htmlFiles entries)))).
Proof.
  revert st. induction entries as [|[file document] entries IH]; intros st.
  - cbn. rewrite !app_nil_r. by destruct st.
  - cbn [foldM]. rewrite visitFile_step. cbn [mbind result_bind].
    rewrite IH. unfold htmlFiles. rewrite filter_cons.
    fold (htmlFiles entries). cbn [fst snd].
    destruct (decide (toLowerCase (extname file) = ".html")); [|done].
    rewrite !filter_cons. cbn [fst snd flat_map].
    destruct (decide (length (recordsOf parseDate document) = O)) as [Hlen|Hlen].
    + rewrite decide_False by lia.
      apply nil_length_inv in Hlen as Hnil. rewrite Hnil.
      cbn [allData checkedFiles unprocessedFiles map app].
      by rewrite <- !app_assoc.
    + rewrite decide_True by lia.
      cbn [allData checkedFiles unprocessedFiles map].
      by rewrite <- !app_assoc.
Qed.

(** X15. [main] never throws on a directory it can read.  The records it
    collects are those of the [.html] entries put end to end in the order
    of the directory, with no deduplication from one file to the next; an
    entry goes to [checked_files] when its document gave a record and to
    [unprocessed_files] when it gave none; and a file is written exactly
    when some record was collected. *)
Theorem main_routes_files (now : JsDate) (entries : list (string * Document)) :
  ∃ st written,
    main parseDate now (Some entries) = Ok (st, written) ∧
    allData st =
      flat_map (λ entry, recordsOf parseDate entry.2) (htmlFiles entries) ∧
    checkedFiles st =
      map fst (filter (λ entry, length (recordsOf parseDate entry.2) ≠ O)
                      (htmlFiles entries)) ∧
    unprocessedFiles st =
      map fst (filter (λ entry, length (recordsOf parseDate entry.2) = O)
                      (htmlFiles entries)) ∧
    written =
      match allData st with
      | [] => None
      | _ :: _ => Some (outputFileName now, csvContent (allData st))
      end.
Proof.
  unfold main. rewrite foldM_visitFile. cbn [mbind result_bind].
  eexists _, _. split; [done|].
  cbn [allData checkedFiles unprocessedFiles app].
  repeat split. unfold saveToCsv.
  by destruct (flat_map _ _).
Qed.

End Directory.

(** ** The printed date *)

Section Dates.

Lemma two_digits n :
  0 ≤ n ≤ 99 →
  String.length (padStart2 (ofInt n)) = 2%nat ∧
  parseInt (Some (padStart2 (ofInt n))) = Int n.
Proof.
  intros Hn.
  assert (Hall : forallb
            (λ k, let n := Z.of_nat k in
                  (String.length (padStart2 (ofInt n)) =? 2)%nat &&
                  match parseInt (Some (padStart2 (ofInt n))) with
                  | Int m => m =? n
                  | _ => false
                  end)
            (seq 0 100) = true) by (vm_compute; reflexivity).
  rewrite forallb_forall in Hall.
  assert (Hin : In (Z.to_nat n) (seq 0 100)) by (apply in_seq; lia).
  apply Hall in Hin. cbv zeta in Hin. rewrite Z2Nat.id in Hin by lia.
  apply andb_true_iff in Hin as [Hlen Hparse].
  apply Nat.eqb_eq in Hlen. split; [done|].
  destruct (parseInt _) as [m| |]; [|done..]. by apply Z.eqb_eq in Hparse as ->.
Qed.

(** X17. For a date whose day is between 1 and 31 and whose month index
    is between 0 and 11, [formatDate] prints two characters that read
    back as the day, a slash, two characters that read back as the month
    index plus one, a slash and the year. *)
Theorem formatDate_two_digits (date : JsDate) :
  1 ≤ getDate date ≤ 31 → 0 ≤ getMonth date ≤ 11 →
  ∃ dd mm,
    formatDate date = dd +:+ "/" +:+ mm +:+ "/" +:+ ofInt (getFullYear date) ∧
    String.length dd = 2%nat ∧ parseInt (Some dd) = Int (getDate date) ∧
    String.length mm = 2%nat ∧ parseInt (Some mm) = Int (getMonth date + 1).
Proof.
  intros Hday Hmonth.
  destruct (two_digits (getDate date)) as [Hd1 Hd2]; [lia|].
  destruct (two_digits (getMonth date + 1)) as [Hm1 Hm2]; [lia|].
  by eexists _, _.
Qed.

End Dates.

(** ** Rows that give nothing *)

Section Skipped.

Variable parseDate : string -> option JsDate.

Lemma foldM_unchanged (f : Loop → Row → result Loop) rows st st' :
  Forall (λ row, ∀ st st', f st row = Ok st' → data st' = data st) rows →
  foldM f rows st = Ok st' → data st' = data st.
Proof.
  intros Hrows. revert st.
  induction Hrows as [|row rows Hrow _ IH]; intros st Hrun; simpl in Hrun.
  - by injection Hrun as <-.
  - apply bind_Ok in Hrun as (st1 & Hst1 & Hrun).
    apply IH in Hrun. apply Hrow in Hst1. congruence.
Qed.

Lemma idle_skipped (l : list string) :
  (length l ≤ 1)%nat ∨ Forall (λ text, text = "") l →
  (1 <? length l)%nat = false ∨ forallb (String.eqb "") l = true.
Proof.
  intros [Hlen|Hall].
  - left. apply Nat.ltb_ge. lia.
  - right. apply forallb_forall. intros text Hin.
    rewrite Forall_forall in Hall. apply list_elem_of_In in Hin.
    by rewrite (Hall text Hin).
Qed.

Lemma rowOf_idle template titlename courtDate row st st' :
  idle template row →
  rowOf parseDate template titlename courtDate st row = Ok st' →
  data st' = data st.
Proof.
  intros Hidle%idle_skipped.
  destruct template; cbn [rowOf rowTexts] in *; intros Hrun.
  - unfold row4 in Hrun.
    destruct (existsb _ _); [by injection Hrun as <-|].
    destruct Hidle as [Hlen|Hall].
    + rewrite Hlen in Hrun. by injection Hrun as <-.
    + rewrite Hall in Hrun. destruct (_ && _); by injection Hrun as <-.
  - unfold row4a in Hrun.
    destruct (existsb _ _); [by injection Hrun as <-|].
    destruct Hidle as [Hlen|Hall].
    + rewrite Hlen in Hrun. by injection Hrun as <-.
    + rewrite Hall in Hrun. destruct (_ && _); by injection Hrun as <-.
  - unfold row5 in Hrun. fold (cellsText5 row) in Hrun.
    destruct (existsb (test Rx.partyName) _); [by injection Hrun as <-|].
    destruct (existsb _ _); [by injection Hrun as <-|].
    destruct Hidle as [Hlen|Hall].
    + rewrite Hlen in Hrun. by injection Hrun as <-.
    + rewrite Hall in Hrun. destruct (_ && _); by injection Hrun as <-.
  - unfold row7 in Hrun. fold (cellsText5 row) in Hrun.
    destruct (existsb _ _); [by injection Hrun as <-|].
    destruct Hidle as [Hlen|Hall].
    + rewrite Hlen in Hrun. by injection Hrun as <-.
    + rewrite Hall in Hrun. destruct (_ && _); by injection Hrun as <-.
Qed.

(** X18. A table whose rows all have fewer than two cell texts, or empty
    cell texts only, gives no record, whatever the template. *)
Theorem idle_rows_give_nothing template title table name date :
  Forall (idle template) (tableRows table) →
  extractData parseDate template title table name date = Ok [].
Proof.
  intros Hidle.
  destruct (extractData_spec parseDate template title table name date)
    as (recs & Hrun & _).
  rewrite Hrun. f_equal.
  rewrite extractData_rowOf in Hrun.
  apply bind_Ok in Hrun as (st & Hfold & [= <-]).
  apply foldM_unchanged in Hfold; [done|].
  eapply Forall_impl; [exact Hidle|].
  intros row Hrow st1 st2. by apply rowOf_idle.
Qed.

Lemma test_posse s : test Rx.posse s = true ↔ hasWord "posse" s.
Proof.
  unfold Rx.posse. rewrite test_iff by reflexivity.
  unfold hasWord. split.
  - intros (pre & m & post & Hs & Hm). apply Lang_alt in Hm as [Hm|Hm].
    + apply Lang_litI in Hm. by exists pre, m, post.
    + apply Lang_litI in Hm. exists pre, (take 5 m), (drop 5 m ++ post).
      split; [by rewrite (app_assoc (take 5 m)), take_drop|].
      unfold eqCI in *. by rewrite <- firstn_map, Hm.
  - intros (pre & a & post & Hs & Ha). exists pre, a, post.
    split; [done|]. apply Lang_alt. left. by apply Lang_litI.
Qed.

Lemma hasWord_trim w s : hasWord w (trim s) → hasWord w s.
Proof.
  intros (pre & a & post & Hs & Ha). rewrite chars_trim in Hs.
  destruct (trimChars_inside (chars s)) as (l & r & Hl).
  exists (l ++ pre), a, (post ++ r).
  split; [|done]. rewrite Hl at 1. rewrite Hs. by rewrite <- !app_assoc.
Qed.

(** The case type a row of template 7 reads is the empty string or one
    of its cell texts. *)
Lemma caseType_cell (cellsText : list string) i :
  orStr (at_ cellsText i) "" = "" ∨ orStr (at_ cellsText i) "" ∈ cellsText.
Proof.
  destruct i as [[z| |]|]; cbn [at_]; [|by left..].
  destruct (z <? 0); [by left|].
  destruct (cellsText !! Z.to_nat z) as [text|] eqn:Hz; [|by left].
  cbn [orStr]. destruct (String.eqb_spec text ""); [by left|].
  right. by eapply list_elem_of_lookup_2.
Qed.

Lemma row7_no_possession titlename courtDate row st st' :
  Forall (λ c, ¬ hasWord "posse" (cellText c)) row →
  row7 parseDate titlename courtDate st row = Ok st' →
  data st' = data st.
Proof.
  intros Hrow Hrun. unfold row7 in Hrun. fold (cellsText5 row) in Hrun.
  destruct (existsb _ _); [by injection Hrun as <-|].
  destruct (_ && _); [|by injection Hrun as <-].
  destruct (forallb _ _); [by injection Hrun as <-|].
  set (caseType := orStr (at_ (cellsText5 row)
                              (headersIndex st !! "caseType")) "") in *.
  assert (Hno : test Rx.posse caseType = false).
  { apply not_true_is_false. rewrite test_posse.
    destruct (caseType_cell (cellsText5 row) (headersIndex st !! "caseType"))
      as [Hnil|Hin]; fold caseType in Hnil || fold caseType in Hin.
    - rewrite Hnil, <- test_posse. vm_compute. discriminate.
    - unfold cellsText5 in Hin.
      apply list_elem_of_fmap in Hin as (c & Heq & Hc).
      apply list_elem_of_filter in Hc as [_ Hc].
      rewrite Forall_forall in Hrow. intros Hw. apply (Hrow c Hc).
      rewrite Heq in Hw.
      apply hasWord_trim.
      by rewrite hasWord_collapseSpaces in Hw by (first [reflexivity|done]). }
  rewrite Hno in Hrun. cbn [negb] in Hrun. by injection Hrun as <-.
Qed.

(** A row of template 7 whose case type does not read as a possession
    adds nothing. *)
Lemma row7_caseType titlename courtDate st row st' :
  row7 parseDate titlename courtDate st row = Ok st' →
  ¬ hasWord "posse" (caseTypeOf st row) →
  data st' = data st.
Proof.
  unfold row7. fold (cellsText5 row). fold (caseTypeOf st row).
  intros Hrun Hno.
  destruct (existsb _ _); [by injection Hrun as <-|].
  destruct (_ && _); [|by injection Hrun as <-].
  destruct (forallb _ _); [by injection Hrun as <-|].
  destruct (test Rx.posse (caseTypeOf st row)) eqn:Hposse;
    [by apply test_posse in Hposse|].
  cbn [negb] in Hrun. by injection Hrun as <-.
Qed.

(** X19. The extractor of template 7 keeps a row only when its case
    type holds, in any letter case, "posse": a row whose case type, the
    text of the cell at the column mapped to [caseType] or the empty
    string when there is none, does not hold it adds no record.  So a
    table none of whose cells holds it gives no record. *)
Theorem no_possession_no_record title table name date :
  (Forall (Forall (λ c, ¬ hasWord "posse" (cellText c))) (tableRows table) →
   extractDataTemplate7 parseDate title table name date = Ok []) ∧
  (∀ titlename courtDate st row,
     ¬ hasWord "posse" (caseTypeOf st row) →
     ∃ st', row7 parseDate titlename courtDate st row = Ok st' ∧
            data st' = data st).
Proof.
  split.
  - intros Hrows.
    destruct (extractData_spec parseDate template7 title table name date)
      as (recs & Hrun & _).
    cbn [extractData] in Hrun. rewrite Hrun. f_equal.
    unfold extractDataTemplate7 in Hrun.
    apply bind_Ok in Hrun as (st & Hfold & [= <-]).
    apply foldM_unchanged in Hfold; [done|].
    eapply Forall_impl; [exact Hrows|].
    intros row Hrow st1 st2. by apply row7_no_possession.
  - intros titlename courtDate st row Hno.
    destruct (row7_spec parseDate titlename courtDate st row)
      as (st' & Hrun & _).
    exists st'. split; [done|]. by eapply row7_caseType.
Qed.

End Skipped.

(** ** The splitters *)

Section Splitter.

Variable r : regex.
Hypothesis r_free : anchorFree r = true.

Lemma splitScan_advance groups s pre rest' p prev q :
  (∀ pre1 pre2 m t, pre = pre1 ++ pre2 → pre2 ≠ [] →
     pre2 ++ rest' = m ++ t → ¬ Lang r m) →
  ∃ prev', splitScan r groups s p 0 prev q (pre ++ rest') =
           splitScan r groups s p 0 prev' (q + length pre) rest'.
Proof.
  revert prev q. induction pre as [|c pre IH]; intros prev q Hnone.
  - exists prev. by rewrite Nat.add_0_r.
  - cbn [app splitScan].
    destruct (rmatch r (MState prev q (c :: pre ++ rest') []) Some)
      as [st'|] eqn:Hrun.
    + exfalso.
      apply rmatch_sound in Hrun as (m & st1 & Hm & [Hr _] & _); [|done].
      cbn in Hr. by apply (Hnone [] (c :: pre) m (ms_rest st1)).
    + destruct (IH (Some c) (S q)) as [prev' ->].
      { intros pre1 pre2 m t Hpre Hne Heq.
        apply (Hnone (c :: pre1) pre2 m t); [by rewrite Hpre|done|done]. }
      exists prev'. cbn [length]. f_equal. lia.
Qed.

Lemma splitScan_skip groups s k rest p prev q :
  (k ≤ length rest)%nat →
  ∃ prev', splitScan r groups s p k prev q rest =
           splitScan r groups s p 0 prev' (q + k) (drop k rest).
Proof.
  revert rest prev q. induction k as [|k IH]; intros rest prev q Hk.
  - exists prev. by rewrite Nat.add_0_r, drop_0.
  - destruct rest as [|c t]; [cbn in Hk; lia|]. cbn [splitScan].
    destruct (IH t (Some c) (S q)) as [prev' ->]; [cbn in Hk; lia|].
    exists prev'. cbn [drop]. f_equal. lia.
Qed.

(** The pieces of a text with one occurrence of the expression: what
    stands before the leftmost match, its capture, and what the match
    leaves. *)
Lemma splitRe_cut (s : string) (a rest1 t : list ascii) :
  chars s = a ++ rest1 →
  (∀ pre m post, chars s = pre ++ m ++ post → Lang r m →
                 (length a ≤ length pre)%nat) →
  (length t < length rest1)%nat →
  (∀ prev, ∃ st',
     rmatch r (MState prev (length a) rest1 []) Some = Some st' ∧
     ms_rest st' = t ∧
     ms_pos st' = (length a + (length rest1 - length t))%nat) →
  (∀ pre m post, t = pre ++ m ++ post → ¬ Lang r m) →
  ∃ cap, splitRe r 1 s = [Some (str a); cap; Some (str t)].
Proof.
  intros Hs Hfirst Hlen Hmatch Hlast. unfold splitRe.
  rewrite Hs. destruct (a ++ rest1) as [|c0 l0] eqn:Hl.
  { apply app_eq_nil in Hl as [_ ->]. cbn in Hlen. lia. }
  rewrite <- Hl in *. clear Hl c0 l0.
  destruct (splitScan_advance 1 (a ++ rest1) a rest1 0 None 0) as [prev Hadv].
  { intros pre1 pre2 m u Ha Hne Heq Hm.
    assert (Hle : (length a ≤ length pre1)%nat).
    { apply (Hfirst pre1 m u); [|done].
      by rewrite Hs, Ha, <- app_assoc, Heq. }
    apply (f_equal length) in Ha. rewrite length_app in Ha.
    destruct pre2; [done|]. cbn in Ha. lia. }
  rewrite Hadv. clear Hadv. cbn [Nat.add].
  destruct (Hmatch prev) as (st' & Hrun & Hrest & Hpos).
  pose proof Hrun as Hsound.
  apply rmatch_sound in Hsound as (m & st1 & Hm & [Hr Hp] & [= ->]); [|done].
  cbn [ms_rest ms_pos] in Hr, Hp. rewrite Hrest in Hr.
  assert (Hm_len : length m = (length rest1 - length t)%nat).
  { apply (f_equal length) in Hr. rewrite length_app in Hr. lia. }
  destruct rest1 as [|c t1]; [cbn in Hlen; lia|].
  cbn [splitScan]. rewrite Hrun. cbv zeta.
  rewrite Hpos.
  replace (length a + (length (c :: t1) - length t) =? 0)%nat with false
    by (symmetry; apply Nat.eqb_neq; lia).
  replace (length a + (length (c :: t1) - length t) =? length a)%nat
    with false by (symmetry; apply Nat.eqb_neq; lia).
  destruct (splitScan_skip 1 (a ++ c :: t1)
              (length a + (length (c :: t1) - length t) - length a - 1) t1
              (length a + (length (c :: t1) - length t)) (Some c)
              (S (length a))) as [prev2 ->].
  { cbn [length] in *. lia. }
  replace (S (length a) +
           (length a + (length (c :: t1) - length t) - length a - 1))%nat
    with (length a + length m)%nat by (rewrite Hm_len; cbn [length] in *; lia).
  assert (Hdrop : drop (length a + (length (c :: t1) - length t)
                        - length a - 1) t1 = t).
  { destruct m as [|x m]; [cbn in Hm_len; cbn [length] in Hlen; lia|].
    injection Hr as _ ->.
    replace (_ - _ - _)%nat with (length m)
      by (cbn [length] in *; rewrite length_app in *; lia).
    by rewrite drop_app_length. }
  rewrite Hdrop.
  assert (Hnone : searchFrom r prev2 (length a + length m) t = None).
  { destruct (searchFrom r prev2 (length a + length m) t) eqn:Hfound; [|done].
    exfalso.
    assert (Hsome : is_Some (searchFrom r prev2 (length a + length m) t))
      by (rewrite Hfound; by eexists).
    apply searchFrom_is_Some in Hsome as (pre & m' & post & Ht & Hm');
      [|done].
    by apply (Hlast pre m' post). }
  rewrite (splitScan_no_match _ _ _ _ _ _ _ Hnone).
  rewrite <- Hm_len, Hr.
  eexists. cbn [seq map app]. f_equal; [|f_equal; f_equal; f_equal].
  - unfold slice. by rewrite drop_0, Nat.sub_0_r, take_app_length.
  - unfold slice.
    replace (length a + length m + length t - (length a + length m))%nat
      with (length t) by lia.
    replace (length a + length m)%nat with (length (a ++ m))
      by (by rewrite length_app).
    by rewrite app_assoc, drop_app_length, firstn_all.
Qed.

End Splitter.

Section Separators.

Variables x y : string.
Hypothesis x_solid : forallb (λ c, negb (isSpace c)) (chars x) = true.
Hypothesis y_solid : forallb (λ c, negb (isSpace c)) (chars y) = true.
Hypothesis x_word : x ≠ "".
Hypothesis y_word : y ≠ "".

Lemma anchorFree_sepExpr : anchorFree (sepExpr x y) = true.
Proof. cbn. by rewrite !anchorFree_litI. Qed.

Lemma Lang_sepExpr m : Lang (sepExpr x y) m ↔ isSeparator [x; y] m.
Proof.
  unfold sepExpr, isSeparator. split.
  - intros Hm.
    apply Lang_seqs_cons in Hm
      as (ws1 & m2 & -> & [Hne1 Hws1]%Lang_plus_space & Hm).
    apply Lang_seqs_cons in Hm as (tok & m3 & -> & Htok%Lang_group & Hm).
    apply Lang_seqs_cons in Hm
      as (ws2 & m4 & -> & [Hne2 Hws2]%Lang_plus_space & ->%Lang_seqs_nil).
    rewrite app_nil_r.
    apply Lang_alt in Htok as [Htok%Lang_litI|Htok%Lang_litI].
    + exists ws1, tok, ws2, x. repeat split; try done. set_solver.
    + exists ws1, tok, ws2, y. repeat split; try done. set_solver.
  - intros (ws1 & tok & ws2 & w & -> & Hne1 & Hws1 & Hne2 & Hws2 & Hw & Htok).
    apply Lang_seqs_cons. exists ws1, (tok ++ ws2). split; [done|].
    split; [by apply Lang_plus_space|].
    apply Lang_seqs_cons. exists tok, ws2. split; [done|]. split.
    + apply Lang_group, Lang_alt.
      apply elem_of_cons in Hw as [->|Hw]; [left; by apply Lang_litI|].
      apply elem_of_cons in Hw as [->|Hw]; [right; by apply Lang_litI|].
      by apply elem_of_nil in Hw.
    + apply Lang_seqs_cons. exists ws2, []. rewrite app_nil_r.
      split; [done|]. split; [by apply Lang_plus_space|by apply Lang_seqs_nil].
Qed.

Lemma token_solid tok w :
  w ∈ [x; y] → eqCI tok w → solid tok ∧ tok ≠ [].
Proof.
  intros Hw Htok.
  apply elem_of_cons in Hw as [->|Hw];
    [|apply elem_of_cons in Hw as [->|Hw]; [|by apply elem_of_nil in Hw]].
  - destruct (eqCI_solid tok x Htok x_solid) as [? Hne]. split; [done|].
    by apply Hne.
  - destruct (eqCI_solid tok y Htok y_solid) as [? Hne]. split; [done|].
    by apply Hne.
Qed.

(** Two runs of characters of one kind that end before a character of
    the other kind are the same run. *)
Lemma run_unique (P : ascii → bool) l1 l2 c1 u1 c2 u2 :
  Forall (λ c, P c = true) l1 → Forall (λ c, P c = true) l2 →
  P c1 = false → P c2 = false →
  l1 ++ c1 :: u1 = l2 ++ c2 :: u2 →
  l1 = l2 ∧ c1 :: u1 = c2 :: u2.
Proof.
  intros H1 H2 Hc1 Hc2. revert l2 H2.
  induction H1 as [|c l1 Hc _ IH]; intros l2 H2 Heq.
  - destruct H2 as [|d l2 Hd _]; [done|]. cbn in Heq.
    injection Heq as -> _. congruence.
  - destruct H2 as [|d l2 Hd H2]; cbn in Heq.
    + injection Heq as -> _. congruence.
    + injection Heq as -> Heq. by destruct (IH l2 H2 Heq) as [-> ->].
Qed.

Lemma dropSpaces_spaces ws l : spaces ws → dropSpaces (ws ++ l) = dropSpaces l.
Proof.
  induction 1 as [|c ws Hc _ IH]; [done|].
  cbn [app dropSpaces]. by rewrite Hc.
Qed.

Lemma runLength_spaces ws l :
  spaces ws → runLength (ws ++ l) = (length ws + runLength l)%nat.
Proof.
  induction 1 as [|c ws Hc _ IH]; [done|].
  cbn [app length]. rewrite runLength_cons_space by done. by rewrite IH.
Qed.

Lemma rmatch_plus_space_any prev pos rest caps st' :
  rmatch (plus space) (MState prev pos rest caps) Some = Some st' →
  ∃ c t, rest = c :: t ∧ isSpace c = true ∧
         ms_pos st' = (pos + runLength rest)%nat.
Proof.
  unfold plus, space. cbn [rmatch ms_rest].
  destruct rest as [|c t]; [done|]. destruct (isSpace c) eqn:Hc; [|done].
  unfold advance. cbn [ms_rest ms_pos ms_caps mbind option_bind].
  intros Hrun. exists c, t. split; [done|]. split; [done|].
  match type of Hrun with
  | starLoop ?body _ _ _ _ = _ =>
      destruct (starLoop_spaces body t (length t) (Some c) (S pos) caps)
        as (st2 & Hst2 & Hpos & _); [intros; reflexivity|done|]
  end.
  rewrite Hst2 in Hrun. injection Hrun as <-.
  rewrite runLength_cons_space by done. lia.
Qed.

(** What the expression matches where a separator stands: the separator
    and all the white space after it. *)
Lemma sep_match prev q ws1 tok ws2 b w :
  ws1 ≠ [] → spaces ws1 → ws2 ≠ [] → spaces ws2 → w ∈ [x; y] → eqCI tok w →
  ∃ st',
    rmatch (sepExpr x y) (MState prev q (ws1 ++ tok ++ ws2 ++ b) []) Some
      = Some st' ∧
    ms_rest st' = dropSpaces b ∧
    ms_pos st' =
      (q + (length (ws1 ++ tok ++ ws2 ++ b) - length (dropSpaces b)))%nat.
Proof.
  intros Hne1 Hws1 Hne2 Hws2 Hw Htok.
  destruct (token_solid tok w Hw Htok) as [Htok_solid Htok_ne].
  assert (Hsome : is_Some (rmatch (sepExpr x y)
                    (MState prev q (ws1 ++ tok ++ ws2 ++ b) []) Some)).
  { apply (rmatch_complete (sepExpr x y) (ws1 ++ tok ++ ws2)) with (t := b).
    - apply Lang_sepExpr. by exists ws1, tok, ws2, w.
    - cbn [ms_rest]. by rewrite <- !app_assoc.
    - intros st' _. by eexists. }
  destruct Hsome as [st' Hrun]. exists st'. split; [done|].
  change (rmatch (sepExpr x y) ?st Some)
    with (rmatch (plus space) st
            (λ st1, rmatch (RGroup 1 (RAlt (litI x) (litI y))) st1
                      (λ st2, rmatch (plus space) st2 Some))) in Hrun.
  apply rmatch_sound in Hrun as (m1 & st1 & Hm1 & [Hr1 Hp1] & Hrun);
    [|reflexivity].
  apply rmatch_sound in Hrun as (m2 & st2 & Hm2 & [Hr2 Hp2] & Hrun);
    [|cbn; by rewrite !anchorFree_litI].
  apply Lang_plus_space in Hm1 as [Hm1_ne Hm1].
  assert (Hm2' : solid m2 ∧ m2 ≠ []).
  { apply Lang_group, Lang_alt in Hm2 as [Hm2%Lang_litI|Hm2%Lang_litI].
    - apply (token_solid m2 x); [set_solver|done].
    - apply (token_solid m2 y); [set_solver|done]. }
  destruct Hm2' as [Hm2_solid Hm2_ne].
  cbn [ms_rest ms_pos] in Hr1, Hp1. rewrite Hr2 in Hr1.
  destruct st2 as [prev2 pos2 rest2 caps2]. cbn [ms_rest ms_pos] in *.
  pose proof Hrun as Hlast.
  apply rmatch_plus_space_any in Hlast as (c2 & t2 & -> & Hc2 & Hpos).
  apply rmatch_sound in Hrun as (m3 & st3 & Hm3 & [Hr3 Hp3] & [= ->]);
    [|reflexivity].
  cbn [ms_rest ms_pos] in Hr3, Hp3.
  (* the first run of white space *)
  destruct m2 as [|d2 m2]; [done|]. destruct tok as [|e tok]; [done|].
  apply Forall_cons in Hm2_solid as [Hd2 Hm2_solid].
  apply Forall_cons in Htok_solid as [He Htok_solid].
  destruct (run_unique isSpace ws1 m1 e (tok ++ ws2 ++ b)
              d2 (m2 ++ c2 :: t2) Hws1 Hm1 He Hd2 Hr1) as [<- Hrest].
  (* the token *)
  injection Hrest as <- Hrest.
  destruct ws2 as [|s2 ws2]; [done|].
  apply Forall_cons in Hws2 as [Hs2 Hws2].
  destruct (run_unique (λ c, negb (isSpace c)) tok m2 s2 (ws2 ++ b) c2 t2)
    as [<- Hrest2].
  { eapply Forall_impl; [exact Htok_solid|]. cbn. by intros ? ->. }
  { eapply Forall_impl; [exact Hm2_solid|]. cbn. by intros ? ->. }
  { by rewrite Hs2. }
  { by rewrite Hc2. }
  { done. }
  (* the second run, read to its end *)
  rewrite <- Hrest2 in *.
  assert (Hrun2 : runLength (s2 :: ws2 ++ b) =
                  (length (s2 :: ws2) + runLength b)%nat).
  { change (s2 :: ws2 ++ b) with ((s2 :: ws2) ++ b).
    apply runLength_spaces. by constructor. }
  assert (Hm3_len : length m3 = runLength (s2 :: ws2 ++ b)) by lia.
  assert (Hst3 : ms_rest st' = dropSpaces b).
  { apply (f_equal (drop (length m3))) in Hr3.
    rewrite drop_app_length in Hr3. rewrite <- Hr3, Hm3_len, drop_runLength.
    change (s2 :: ws2 ++ b) with ((s2 :: ws2) ++ b).
    apply dropSpaces_spaces. by constructor. }
  split; [done|].
  rewrite Hpos, Hp2, Hp1, Hrun2. unfold runLength.
  pose proof (dropSpaces_prefix b) as [sp Hsp].
  apply (f_equal length) in Hsp. rewrite length_app in Hsp.
  rewrite ?length_app. cbn [length]. rewrite ?length_app. lia.
Qed.

(** The pieces of a text cut at its first separator. *)
Lemma splitRe_cutAt s a b :
  cutAt [x; y] s a b →
  ∃ cap, splitRe (sepExpr x y) 1 s =
         [Some a; cap; Some (str (dropSpaces (chars b)))].
Proof.
  intros [(m & Hs & Hsep) [Hfirst Hnone]].
  destruct Hsep as (ws1 & tok & ws2 & w & -> & Hne1 & Hws1 & Hne2 & Hws2
                    & Hw & Htok).
  rewrite <- !app_assoc in Hs.
  destruct (splitRe_cut (sepExpr x y) anchorFree_sepExpr s (chars a)
              (ws1 ++ tok ++ ws2 ++ chars b) (dropSpaces (chars b)))
    as [cap Hsplit]; [done|..].
  - intros pre m post Hpre Hm%Lang_sepExpr. by apply (Hfirst pre m post).
  - pose proof (dropSpaces_prefix (chars b)) as [sp Hsp].
    apply (f_equal length) in Hsp. rewrite length_app in Hsp.
    rewrite !length_app. destruct ws1; [done|]. cbn [length]. lia.
  - intros prev. by apply (sep_match prev _ ws1 tok ws2 (chars b) w).
  - intros pre m post Hb Hm%Lang_sepExpr. apply Hnone.
    destruct Hm as (s1 & t & s2 & w' & -> & ? & ? & ? & ? & ? & ?).
    pose proof (dropSpaces_prefix (chars b)) as [sp Hsp].
    exists (sp ++ pre), s1, t, s2, post, w'.
    split; [|done]. rewrite Hsp, Hb. by rewrite <- !app_assoc.
  - exists cap. by rewrite Hsplit, str_chars.
Qed.

End Separators.

Section Parties.

Lemma cutAt_hasSeparator words s a b :
  cutAt words s a b → hasSeparator words s.
Proof.
  intros [(m & Hs & ws1 & tok & ws2 & w & -> & ? & ? & ? & ? & ? & ?) _].
  exists (chars a), ws1, tok, ws2, (chars b), w.
  split; [by rewrite Hs, <- !app_assoc|done].
Qed.

Lemma hasSeparator_v s : hasSeparator ["v"; "vs"] s → hasWord "v" s.
Proof.
  intros (pre & ws1 & tok & ws2 & post & w & Hs & _ & _ & _ & _ & Hw & Htok).
  apply elem_of_cons in Hw as [->|Hw];
    [|apply elem_of_cons in Hw as [->|Hw]; [|by apply elem_of_nil in Hw]].
  - exists (pre ++ ws1), tok, (ws2 ++ post). by rewrite Hs, <- !app_assoc.
  - exists (pre ++ ws1), (take 1 tok), (drop 1 tok ++ ws2 ++ post). split.
    + rewrite Hs, <- !app_assoc. do 2 f_equal.
      by rewrite (app_assoc (take 1 tok)), take_drop.
    + unfold eqCI in *. by rewrite <- firstn_map, Htok.
Qed.

Lemma trim_dropSpaces l : trim (str (dropSpaces l)) = trim (str l).
Proof.
  unfold trim. rewrite !chars_str. unfold trimChars.
  by rewrite dropSpaces_idem.
Qed.

(** What both splitters make of the three pieces. *)
Lemma parties_of_pieces (parts : list (option string)) a cap rest :
  parts = [Some a; cap; Some rest] →
  (if (2 <=? length parts)%nat then
     p0 ← defined (mjoin (parts !! 0%nat));
     p2 ← defined (mjoin (parts !! 2%nat));
     Ok (stripPipes (trim p0), stripPipes (trim p2))
   else
     p0 ← defined (mjoin (parts !! 0%nat));
     Ok (stripPipes (trim p0), stripPipes "Not Provided")) =
  Ok (stripPipes (trim a), stripPipes (trim rest)).
Proof. by intros ->. Qed.

(** X20. When the text is a claimant, a separator "v" or "vs" between
    white space (in any letter case) and a defendant, no separator
    starting before the end of the claimant and the defendant holding
    none, the splitter of template 7 returns the two, trimmed and without
    their pipes, and so does the splitter of template 5 when the text
    holds no separator "-v-" or "-vs-". *)
Theorem splitter_cuts_at_first_separator (s a b : string) :
  cutAt ["v"; "vs"] s a b →
  parties7 (Some s) = Ok (stripPipes (trim a), stripPipes (trim b)) ∧
  (¬ hasSeparator ["-v-"; "-vs-"] s →
   parties5 s = Ok (stripPipes (trim a), stripPipes (trim b))).
Proof.
  intros Hcut.
  destruct (splitRe_cutAt "v" "vs" eq_refl eq_refl ltac:(done) ltac:(done)
              s a b Hcut) as [cap Hsplit].
  change (sepExpr "v" "vs") with Rx.sepV in Hsplit.
  pose proof (cutAt_hasSeparator _ _ _ _ Hcut) as Hsep.
  rewrite <- (str_chars b), <- trim_dropSpaces.
  split.
  - unfold parties7.
    change (testOpt Rx.looseV (Some s)) with (test Rx.looseV s).
    rewrite (proj2 (test_looseV s)) by (by apply hasSeparator_v).
    cbn [defined mbind result_bind]. rewrite Hsplit. done.
  - intros Hdash. unfold parties5.
    apply test_separator in Hsep. fold Rx.sepV in Hsep. rewrite Hsep.
    assert (Hno : test Rx.sepDashV s = false).
    { apply not_true_is_false. by intros H%test_separator. }
    rewrite Hno. cbn [orb]. rewrite Hsplit. done.
Qed.

(** X21. The splitter of template 5 cuts at the separator "-v-" or "-vs-"
    when the text holds one, whatever separator "v" or "vs" it holds as
    well: the claimant is what stands before the first of them and the
    defendant what stands after it, trimmed and without their pipes. *)
Theorem splitter_prefers_dashes (s a b : string) :
  cutAt ["-v-"; "-vs-"] s a b →
  parties5 s = Ok (stripPipes (trim a), stripPipes (trim b)).
Proof.
  intros Hcut.
  destruct (splitRe_cutAt "-v-" "-vs-" eq_refl eq_refl ltac:(done)
              ltac:(done) s a b Hcut) as [cap Hsplit].
  change (sepExpr "-v-" "-vs-") with Rx.sepDashV in Hsplit.
  pose proof (cutAt_hasSeparator _ _ _ _ Hcut) as Hsep.
  rewrite <- (str_chars b), <- trim_dropSpaces.
  unfold parties5.
  apply test_separator in Hsep. fold Rx.sepDashV in Hsep. rewrite Hsep.
  rewrite orb_true_r, Hsplit. done.
Qed.

End Parties.

(** A cut can be checked by running the expression at every offset
    before it. *)
Lemma cutAt_check (x y s a b : string) (m : list ascii) :
  chars s = chars a ++ m ++ chars b →
  isSeparator [x; y] m →
  forallb (λ k, match rmatch (sepExpr x y)
                        (MState None k (drop k (chars s)) []) Some with
                | None => true
                | Some _ => false
                end)
          (seq 0 (length (chars a))) = true →
  ¬ hasSeparator [x; y] b →
  cutAt [x; y] s a b.
Proof.
  intros Hs Hm Hscan Hb. split; [by exists m|]. split; [|done].
  intros pre m' post Hs' Hm'.
  destruct (decide (length (chars a) ≤ length pre)%nat) as [|Hlt]; [done|].
  exfalso. rewrite forallb_forall in Hscan.
  specialize (Hscan (length pre)).
  assert (Hsome : is_Some (rmatch (sepExpr x y)
                    (MState None (length pre) (drop (length pre) (chars s)) [])
                    Some)).
  { apply (rmatch_complete (sepExpr x y) m') with (t := post).
    - destruct Hm' as (ws1 & tok & ws2 & w & -> & ? & ? & ? & ? & Hw & ?).
      unfold sepExpr.
      apply Lang_seqs_cons. exists ws1, (tok ++ ws2). split; [done|].
      split; [by apply Lang_plus_space|].
      apply Lang_seqs_cons. exists tok, ws2. split; [done|]. split.
      + apply Lang_group, Lang_alt.
        apply elem_of_cons in Hw as [->|Hw]; [left; by apply Lang_litI|].
        apply elem_of_cons in Hw as [->|Hw]; [right; by apply Lang_litI|].
        by apply elem_of_nil in Hw.
      + apply Lang_seqs_cons. exists ws2, []. rewrite app_nil_r.
        split; [done|].
        split; [by apply Lang_plus_space|by apply Lang_seqs_nil].
    - cbn [ms_rest]. by rewrite Hs', drop_app_length.
    - intros st' _. by eexists. }
  destruct Hsome as [st' Hst']. rewrite Hst' in Hscan.
  assert (Hin : In (length pre) (seq 0 (length (chars a))))
    by (apply in_seq; lia).
  by apply Hscan in Hin.
Qed.

(** ** The claim number of template 5 *)

Section ClaimNumber5.

Variable parseDate : string -> option JsDate.

Lemma notin_rev {A} (x : A) l : x ∉ l → x ∉ rev l.
Proof.
  intros H Hin. apply H. apply list_elem_of_In, in_rev.
  by apply list_elem_of_In.
Qed.

Lemma splitChars_head c0 cur l :
  c0 ∉ cur →
  ∃ piece rest, splitChars [c0] 0 cur l = piece :: rest ∧ c0 ∉ piece.
Proof.
  revert cur. induction l as [|c t IH]; intros cur Hcur.
  - exists (rev cur), []. split; [done|]. by apply notin_rev.
  - cbn [splitChars isPrefix].
    destruct (Ascii.eqb_spec c0 c) as [->|Hne]; cbn [andb].
    + eexists _, _. split; [done|]. by apply notin_rev.
    + apply IH. set_solver.
Qed.

Lemma head_split_blank s t : head (split " " s) = Some t → " "%char ∉ chars t.
Proof.
  unfold split.
  destruct (splitChars_head " "%char [] (chars s)) as (piece & rest & Hsplit & Hp);
    [set_solver|].
  change (chars " ") with [" "%char]. rewrite Hsplit. cbn [map head].
  intros [= <-]. by rewrite chars_str.
Qed.

Lemma row5_token titlename courtDate st row st' :
  row5 parseDate titlename courtDate st row = Ok st' →
  addsOnly oneToken st st'.
Proof.
  unfold row5. intros Hrun.
  destruct (existsb (test Rx.partyName) _); [kept Hrun|].
  destruct (existsb _ _); [kept Hrun|].
  destruct (_ && _); [|kept Hrun].
  destruct (forallb _ _); [kept Hrun|].
  destruct (probeHearingType _) as [hearingType|]; [|kept Hrun].
  set (quad := if strictEq hearingType _ then _ else _) in *. clearbody quad.
  destruct quad as [[[startTime duration] [caseDetails|]] hearingChannel];
    [|discriminate].
  cbn [mbind result_bind defined] in Hrun.
  destruct (strictEq _ (Some "PCOL")); [kept Hrun|].
  destruct (parties5 _) as [[claimant defendant]|]; [|discriminate].
  cbn [mbind result_bind] in Hrun.
  destruct (extractCourtLocation titlename) as [location|]; [|discriminate].
  cbn [mbind result_bind] in Hrun. added Hrun.
  unfold oneToken. cbn [ClaimNumber].
  destruct (head (split " " caseDetails)) as [t|] eqn:Hhead; [|by left].
  cbn [orStr]. destruct (String.eqb t ""); [by left|].
  right. by apply head_split_blank in Hhead.
Qed.

End ClaimNumber5.

(** ** The tables that are read *)

Section Candidates.

Lemma lower_words w1 w2 s :
  test (seqs [litI w1; star space; litI w2]) (toLowerCase s) = true ↔
  hasWords w1 w2 s.
Proof.
  rewrite test_words. split.
  - apply hasWords_toLowerCase_inv.
  - apply hasWords_toLowerCase.
Qed.

Lemma lower_word w s : test (litI w) (toLowerCase s) = true ↔ hasWord w s.
Proof.
  rewrite test_iff by apply anchorFree_litI.
  rewrite <- hasWord_toLowerCase. unfold hasWord.
  by setoid_rewrite Lang_litI.
Qed.

Lemma collapsed_words w1 w2 s :
  forallb (λ c, negb (isSpace c)) (chars w1) = true → w1 ≠ "" →
  forallb (λ c, negb (isSpace c)) (chars w2) = true → w2 ≠ "" →
  test (seqs [litI w1; star space; litI w2])
       (collapseSpaces (toLowerCase s)) = true ↔
  hasWords w1 w2 s.
Proof.
  intros Hw1 Hne1 Hw2 Hne2. rewrite test_words. split.
  - intros H%hasWords_collapseSpaces_inv; [|done..].
    by apply hasWords_toLowerCase_inv.
  - intros H. apply hasWords_collapseSpaces; [done..|].
    by apply hasWords_toLowerCase.
Qed.

Lemma collapsed_word w s :
  forallb (λ c, negb (isSpace c)) (chars w) = true → w ≠ "" →
  test (litI w) (collapseSpaces (toLowerCase s)) = true ↔ hasWord w s.
Proof.
  intros Hw Hne. rewrite test_iff by apply anchorFree_litI.
  rewrite <- hasWord_toLowerCase, <- (hasWord_collapseSpaces w) by done.
  unfold hasWord. by setoid_rewrite Lang_litI.
Qed.

(** An optional start of the expression does not change what texts it
    is found in. *)
Lemma test_opt_first r0 l s :
  anchorFree r0 = true → anchorFree (seqs l) = true →
  test (seqs (opt r0 :: l)) s = true ↔ test (seqs l) s = true.
Proof.
  intros H0 Hl.
  assert (Hfree : anchorFree (seqs (opt r0 :: l)) = true).
  { destruct l as [|r1 l]; cbn [seqs anchorFree opt] in *;
      by rewrite ?H0, ?Hl. }
  rewrite !test_iff by done. split.
  - intros (pre & m & post & Hs & Hm).
    apply Lang_seqs_cons in Hm as (m1 & m2 & -> & _ & Hm).
    exists (pre ++ m1), m2, post. by rewrite Hs, <- !app_assoc.
  - intros (pre & m & post & Hs & Hm). exists pre, m, post. split; [done|].
    apply Lang_seqs_cons. exists [], m. split; [done|].
    split; [apply Lang_opt; by right|done].
Qed.

Lemma test_caseDetails5 s :
  test Rs.caseDetails5 s = true ↔
  test (seqs [litI "case"; star space; litI "detail"]) s = true.
Proof.
  unfold Rs.caseDetails5. rewrite test_opt_first by reflexivity.
  rewrite !test_iff by reflexivity. split.
  - intros (pre & m & post & Hs & Hm).
    apply Lang_seqs_cons in Hm as (a & m2 & -> & Ha & Hm).
    apply Lang_seqs_cons in Hm as (ws & m3 & -> & Hws & Hm).
    apply Lang_seqs_cons in Hm as (b & m4 & -> & Hb & Hm).
    exists pre, (a ++ ws ++ b), (m4 ++ post).
    split; [by rewrite Hs, <- !app_assoc|].
    apply Lang_seqs_cons. exists a, (ws ++ b). split; [done|].
    split; [done|].
    apply Lang_seqs_cons. exists ws, b. split; [done|]. split; [done|].
    apply Lang_seqs_cons. exists b, []. rewrite app_nil_r.
    split; [done|]. split; [done|by apply Lang_seqs_nil].
  - intros (pre & m & post & Hs & Hm).
    apply Lang_seqs_cons in Hm as (a & m2 & -> & Ha & Hm).
    apply Lang_seqs_cons in Hm as (ws & m3 & -> & Hws & Hm).
    apply Lang_seqs_cons in Hm as (b & m4 & -> & Hb & ->%Lang_seqs_nil).
    exists pre, (a ++ ws ++ b), post.
    split; [by rewrite Hs, app_nil_r|].
    apply Lang_seqs_cons. exists a, (ws ++ b). split; [done|].
    split; [done|].
    apply Lang_seqs_cons. exists ws, b. split; [done|]. split; [done|].
    apply Lang_seqs_cons. exists b, []. rewrite app_nil_r.
    split; [done|]. split; [done|].
    apply Lang_seqs_cons. exists [], []. split; [done|].
    split; [apply Lang_opt; by right|by apply Lang_seqs_nil].
Qed.

Lemma test_party s :
  test Rs.party (toLowerCase s) = true ↔
  hasWord "claimant" s ∨ hasWord "applicant" s ∨ hasWord "petitioner" s.
Proof.
  rewrite <- !lower_word, !test_iff by reflexivity.
  unfold Rs.party. split.
  - intros (pre & m & post & Hs & Hm).
    apply Lang_group in Hm. cbn [alts] in Hm.
    apply Lang_alt in Hm as [Hm|Hm]; [left; by exists pre, m, post|].
    apply Lang_alt in Hm as [Hm|Hm]; [right; left; by exists pre, m, post|].
    right; right; by exists pre, m, post.
  - intros [H|[H|H]]; destruct H as (pre & m & post & Hs & Hm);
      exists pre, m, post; (split; [done|]); apply Lang_group; cbn [alts].
    + by apply Lang_alt; left.
    + apply Lang_alt; right. by apply Lang_alt; left.
    + apply Lang_alt; right. by apply Lang_alt; right.
Qed.

(** X24. Which tables the driver hands to the extractor.  For template 7:
    the tables whose text holds "case ref" and "case name"; for
    template 4: those that hold "claim number" and one of "claimant",
    "applicant", "petitioner"; for template 5: those that hold "start
    time", "duration", "case detail", "hearing type" and "hearing
    channel"; each in any letter case and with any white space, or none,
    between the two words. *)
Theorem candidate_tables (table : Table) :
  (isCandidateTable template7 table = true ↔
   hasWords "case" "ref" (tableText table) ∧
   hasWords "case" "name" (tableText table)) ∧
  (isCandidateTable template4 table = true ↔
   hasWords "claim" "number" (tableText table) ∧
   (hasWord "claimant" (tableText table) ∨
    hasWord "applicant" (tableText table) ∨
    hasWord "petitioner" (tableText table))) ∧
  (isCandidateTable template5 table = true ↔
   hasWords "start" "time" (tableText table) ∧
   hasWord "duration" (tableText table) ∧
   hasWords "case" "detail" (tableText table) ∧
   hasWords "hearing" "type" (tableText table) ∧
   hasWords "hearing" "channel" (tableText table)).
Proof.
  split; [|split]; cbn [isCandidateTable]; cbv zeta.
  - rewrite andb_true_iff. unfold Re.caseRef, Re.caseName.
    by rewrite !lower_words.
  - rewrite andb_true_iff. unfold Re.claimNumber.
    by rewrite lower_words, test_party.
  - rewrite !andb_true_iff.
    unfold Rs.startTime5, Rs.duration5, Rs.hearingType5, Rs.hearingChannel5.
    rewrite test_caseDetails5.
    rewrite !test_opt_first by reflexivity.
    cbn [seqs].
    rewrite (collapsed_words "start" "time"), (collapsed_word "duration"),
      (collapsed_words "case" "detail"), (collapsed_words "hearing" "type"),
      (collapsed_words "hearing" "channel") by done.
    tauto.
Qed.

End Candidates.

(** ** The court name *)

Section CourtName.

Lemma starLoop_keeps body g :
  (∀ st k x, body st k = Some x →
     ∃ st', k st' = Some x ∧ ms_caps st' = ms_caps st) →
  ∀ fuel st k x, starLoop body g k fuel st = Some x →
    ∃ st', k st' = Some x ∧ ms_caps st' = ms_caps st.
Proof.
  intros Hbody fuel. induction fuel as [|fuel IH]; intros st k x Hrun.
  - by exists st.
  - cbn [starLoop] in Hrun.
    assert (Hcases :
      body st (λ st', if (ms_pos st <? ms_pos st')%nat
                      then starLoop body g k fuel st' else None) = Some x
      ∨ k st = Some x).
    { destruct g; apply orElse_Some in Hrun; tauto. }
    destruct Hcases as [Hagain|Hk]; [|by exists st].
    apply Hbody in Hagain as (st1 & Hnext & Hl1).
    destruct (ms_pos st <? ms_pos st1)%nat; [|done].
    apply IH in Hnext as (st2 & Hk & Hl2).
    exists st2. split; [done|]. by rewrite Hl2.
Qed.

(** An expression without a group leaves the captures as they are. *)
Lemma rmatch_keeps r :
  groupFree r = true →
  ∀ st k x, rmatch r st k = Some x →
    ∃ st', k st' = Some x ∧ ms_caps st' = ms_caps st.
Proof.
  induction r as [|p|r1 IH1 r2 IH2|r1 IH1 r2 IH2|g r1 IH1|n r1 IH1| | |];
    intros Hfree st k x Hrun; cbn [groupFree] in Hfree; try discriminate;
    cbn [rmatch] in Hrun.
  - by exists st.
  - destruct (ms_rest st) as [|c t] eqn:Hrest; [done|].
    destruct (p c); [|done].
    unfold advance in Hrun. rewrite Hrest in Hrun. cbn in Hrun.
    by eexists.
  - apply andb_true_iff in Hfree as [H1 H2].
    apply IH1 in Hrun as (st1 & Hrun & Hl1); [|done].
    apply IH2 in Hrun as (st2 & Hk & Hl2); [|done].
    exists st2. split; [done|]. by rewrite Hl2.
  - apply andb_true_iff in Hfree as [H1 H2].
    apply orElse_Some in Hrun as [Hrun|Hrun]; [by apply IH1|by apply IH2].
  - eapply starLoop_keeps; [|done]. intros. by apply IH1.
  - destruct (ms_pos st =? 0)%nat; [|done]. by exists st.
  - destruct (ms_rest st); [|done]. by exists st.
  - destruct (xorb _ _); [|done]. by exists st.
Qed.

Lemma groupFree_litI w : groupFree (litI w) = true.
Proof.
  unfold litI. generalize (chars w) as l. intros l.
  induction l as [|c [|c' l] IH]; [done|done|exact IH].
Qed.

(** Where the leftmost match was found. *)
Lemma searchFrom_at r prev pos rest m :
  searchFrom r prev pos rest = Some m →
  ∃ k prev' st',
    (k ≤ length rest)%nat ∧
    rmatch r (MState prev' (pos + k) (drop k rest) []) Some = Some st' ∧
    m = Match (pos + k) (ms_pos st') (ms_caps st').
Proof.
  revert prev pos. induction rest as [|c t IH]; intros prev pos;
    cbn [searchFrom]; destruct (rmatch r _ Some) as [st'|] eqn:Hrun;
    try done.
  - intros [= <-]. exists O, prev, st'. rewrite Nat.add_0_r, drop_0.
    split; [cbn; lia|done].
  - intros [= <-]. exists O, prev, st'. rewrite Nat.add_0_r, drop_0.
    split; [cbn; lia|done].
  - intros (k & prev' & st' & Hk & Hst & ->)%IH.
    exists (S k), prev', st'. cbn [drop length].
    replace (pos + S k)%nat with (S pos + k)%nat by lia.
    split; [lia|done].
Qed.

Lemma dropSpaces_nil l : spaces l → dropSpaces l = [].
Proof. induction 1 as [|c l Hc _ IH]; [done|]. cbn. by rewrite Hc. Qed.

Lemma dropSpaces_app l sp :
  dropSpaces l ≠ [] → dropSpaces (l ++ sp) = dropSpaces l ++ sp.
Proof.
  induction l as [|c l IH]; [done|]. cbn [app dropSpaces].
  destruct (isSpace c); [apply IH|done].
Qed.

Lemma dropSpaces_all l : dropSpaces l = [] → spaces l.
Proof.
  induction l as [|c l IH]; [constructor|]. cbn [dropSpaces].
  destruct (isSpace c) eqn:Hc; [|done]. intros H. constructor; [done|by apply IH].
Qed.

(** The white space around a text does not count for [trim]. *)
Lemma trimChars_spaces s1 l s2 :
  spaces s1 → spaces s2 → trimChars (s1 ++ l ++ s2) = trimChars l.
Proof.
  intros H1 H2. unfold trimChars. rewrite dropSpaces_spaces by done.
  destruct (dropSpaces l) as [|c u] eqn:Hl.
  - rewrite (dropSpaces_nil (l ++ s2)); [done|].
    apply Forall_app. split; [by apply dropSpaces_all|done].
  - rewrite dropSpaces_app by (by rewrite Hl). rewrite Hl.
    rewrite rev_app_distr. rewrite dropSpaces_spaces; [done|].
    unfold spaces. by apply Forall_rev.
Qed.

(** Two pieces of the same length at the same offset are the same. *)
Lemma same_place {A} (p1 m1 t1 p2 m2 t2 : list A) :
  p1 ++ m1 ++ t1 = p2 ++ m2 ++ t2 →
  length p1 = length p2 → length m1 = length m2 →
  p1 = p2 ∧ m1 = m2 ∧ t1 = t2.
Proof.
  intros Heq Hp Hm.
  apply app_inj_1 in Heq as [-> Heq]; [|done].
  apply app_inj_1 in Heq as [-> ->]; done.
Qed.

Lemma eqCI_length m w : eqCI m w → length m = String.length w.
Proof.
  unfold eqCI. intros H%(f_equal length).
  by rewrite !length_map, length_chars in H.
Qed.

Lemma Lang_star_dot g m :
  Lang (RStar g dot) m ↔ Forall (λ c, isDot c = true) m.
Proof.
  split.
  - intros Hm. remember (RStar g dot) as rs eqn:Hrs.
    induction Hm as [| | | | | |g' r' m1 m2 Hne Hm1 _ Hm2 IH|];
      try discriminate; injection Hrs as -> ->; [constructor|].
    apply Forall_app. split; [|by apply IH].
    inversion Hm1; subst. by repeat constructor.
  - induction 1 as [|c m Hc _ IH]; [constructor|].
    change (c :: m) with ([c] ++ m). constructor; [done| |done].
    by constructor.
Qed.

Lemma trim_oneLine ws1 loc ws2 :
  spaces ws1 → spaces ws2 → trim (str (ws1 ++ loc ++ ws2)) = trim (str loc).
Proof.
  intros H1 H2. unfold trim. by rewrite !chars_str, trimChars_spaces.
Qed.

(** A match of the expression: where it stands and what is returned. *)
Lemma courtLocation_run titlename m :
  searchFrom Rx.courtLocation None 0 (chars titlename) = Some m →
  ∃ pre c1 ws1 loc ws2 c2 post,
    chars titlename = pre ++ c1 ++ (ws1 ++ loc ++ ws2) ++ c2 ++ post ∧
    eqCI c1 "CourtServe:" ∧ eqCI c2 "County Court" ∧
    spaces ws1 ∧ Forall (λ c, isDot c = true) loc ∧ spaces ws2 ∧
    extractCourtLocation titlename = Ok (Some (trim (str loc))).
Proof.
  intros Hm. unfold extractCourtLocation, matchGroups, exec. rewrite Hm.
  apply searchFrom_at in Hm as (k & prev & st' & Hk & Hrun & ->).
  cbn [Nat.add] in Hrun.
  change Rx.courtLocation with
    (RSeq (litI "CourtServe:")
       (RSeq (star space)
          (RSeq (RGroup 1 (lazyStar dot))
                (seqs [star space; litI "County Court"])))) in Hrun.
  cbn [rmatch] in Hrun.
  apply rmatch_sound in Hrun as (m0 & st0 & Hm0 & [Hr0 Hp0] & Hrun);
    [|apply anchorFree_litI].
  apply rmatch_sound in Hrun as (m1 & st1 & Hm1 & [Hr1 Hp1] & Hrun);
    [|reflexivity].
  apply rmatch_sound in Hrun as (m2 & st2 & Hm2 & [Hr2 Hp2] & Hrun);
    [|reflexivity].
  pose proof Hrun as Hkeep.
  apply rmatch_keeps in Hkeep as (st3 & [= ->] & Hcaps);
    [|reflexivity].
  apply rmatch_sound in Hrun as (m3 & st3 & Hm3 & [Hr3 Hp3] & _);
    [|reflexivity].
  cbn [ms_rest ms_pos ms_caps setCap] in *.
  apply Lang_litI in Hm0. apply Lang_star_space in Hm1.
  apply Lang_star_dot in Hm2.
  apply Lang_seqs_cons in Hm3 as (s2 & m4 & -> & Hs2%Lang_star_space & Hm3).
  apply Lang_seqs_cons in Hm3 as (c2' & m5 & -> & Hc2'%Lang_litI
                                  & ->%Lang_seqs_nil).
  rewrite app_nil_r in *.
  exists (take k (chars titlename)), m0, m1, m2, s2, c2', (ms_rest st3).
  split.
  { rewrite <- (take_drop k (chars titlename)) at 1. f_equal.
    rewrite Hr0, Hr1, Hr2, Hr3. by rewrite <- !app_assoc. }
  do 5 (split; [done|]).
  cbn [fmap option_fmap option_map seq map lookup list_lookup mjoin
       option_join mbind option_bind].
  unfold capture. cbn [m_caps]. rewrite Hcaps. cbn [lookupCap Nat.eqb].
  cbn [defined mbind result_bind]. do 4 f_equal.
  unfold slice. rewrite Hp2.
  replace (ms_pos st1 + length m2 - ms_pos st1)%nat with (length m2) by lia.
  rewrite <- (take_drop k (chars titlename)), Hr0, Hr1, Hr2.
  rewrite Hp1, Hp0.
  assert (Hk'' : length (take k (chars titlename)) = k)
    by (rewrite length_take; lia).
  replace (k + length m0 + length m1)%nat
    with (length (take k (chars titlename) ++ m0 ++ m1))
    by (rewrite !length_app; lia).
  replace (take k (chars titlename) ++ m0 ++ m1 ++ m2 ++ ms_rest st2)
    with ((take k (chars titlename) ++ m0 ++ m1) ++ m2 ++ ms_rest st2)
    by (by rewrite <- !app_assoc).
  rewrite drop_app_length. by rewrite take_app_length.
Qed.

Lemma courtTitle_found titlename pre c1 mid c2 post :
  courtTitle titlename pre c1 mid c2 post →
  is_Some (searchFrom Rx.courtLocation None 0 (chars titlename)).
Proof.
  intros (Hs & Hc1 & Hc2 & ws1 & loc & ws2 & -> & Hws1 & Hloc & Hws2).
  apply searchFrom_is_Some; [reflexivity|].
  exists pre, (c1 ++ (ws1 ++ loc ++ ws2) ++ c2), post.
  split; [by rewrite Hs, <- !app_assoc|].
  unfold Rx.courtLocation.
  apply Lang_seqs_cons. exists c1, ((ws1 ++ loc ++ ws2) ++ c2).
  split; [done|]. split; [by apply Lang_litI|].
  apply Lang_seqs_cons. exists ws1, (loc ++ ws2 ++ c2).
  split; [by rewrite <- !app_assoc|].
  split; [by apply Lang_star_space|].
  apply Lang_seqs_cons. exists loc, (ws2 ++ c2). split; [done|]. split.
  { apply Lang_group. by apply Lang_star_dot. }
  apply Lang_seqs_cons. exists ws2, c2. split; [done|].
  split; [by apply Lang_star_space|].
  apply Lang_seqs_cons. exists c2, []. rewrite app_nil_r.
  split; [done|]. split; [by apply Lang_litI|by apply Lang_seqs_nil].
Qed.

(** [extractCourtLocation] returns [null] for a title that is not of the
    form of [courtTitle], and for one that is, the text between the two
    words of one such reading, trimmed. *)
Lemma courtLocation_spec titlename :
  (extractCourtLocation titlename = Ok None ∧
   ¬ ∃ pre c1 mid c2 post, courtTitle titlename pre c1 mid c2 post) ∨
  (∃ pre c1 mid c2 post,
     courtTitle titlename pre c1 mid c2 post ∧
     extractCourtLocation titlename = Ok (Some (trim (str mid)))).
Proof.
  destruct (searchFrom Rx.courtLocation None 0 (chars titlename))
    as [m|] eqn:Hm.
  - right.
    apply courtLocation_run in Hm
      as (pre & c1 & ws1 & loc & ws2 & c2 & post & Hs & Hc1 & Hc2 & Hws1
          & Hloc & Hws2 & Hrun).
    exists pre, c1, (ws1 ++ loc ++ ws2), c2, post. split.
    + split; [done|]. split; [done|]. split; [done|].
      by exists ws1, loc, ws2.
    + by rewrite trim_oneLine.
  - left. split.
    + unfold extractCourtLocation, matchGroups, exec. by rewrite Hm.
    + intros (pre & c1 & mid & c2 & post & Ht).
      apply courtTitle_found in Ht as [m' Hm']. congruence.
Qed.

(** When each of the two words stands once in the title, the reading is
    the only one. *)
Lemma courtLocation_between titlename pre c1 mid c2 post :
  courtTitle titlename pre c1 mid c2 post →
  onlyAt "CourtServe:" (chars titlename) (length pre) →
  onlyAt "County Court" (chars titlename) (length (pre ++ c1 ++ mid)) →
  extractCourtLocation titlename = Ok (Some (trim (str mid))).
Proof.
  intros Ht Honce1 Honce2.
  destruct (courtLocation_spec titlename)
    as [[_ Hno]|(pre' & c1' & mid' & c2' & post' & Ht' & Hrun)].
  { exfalso. apply Hno. by exists pre, c1, mid, c2, post. }
  destruct Ht as (Hs & Hc1 & Hc2 & _).
  destruct Ht' as (Hs' & Hc1' & Hc2' & _).
  assert (Hpre : length pre' = length pre)
    by (by apply (Honce1 _ c1' (mid' ++ c2' ++ post'))).
  assert (Hat2 : length (pre' ++ c1' ++ mid') = length (pre ++ c1 ++ mid)).
  { apply (Honce2 _ c2' post'); [|done].
    rewrite Hs'. by rewrite <- !app_assoc. }
  assert (Hlen1 : length c1' = length c1)
    by (by rewrite (eqCI_length _ _ Hc1), (eqCI_length _ _ Hc1')).
  rewrite Hs in Hs'.
  apply same_place in Hs' as (_ & _ & Htext); [|done..].
  rewrite !length_app in Hat2.
  apply app_inj_1 in Htext as [-> _]; [done|lia].
Qed.

(** X22. When the title holds "CourtServe:" once and "County Court" once
    after it (in any letter case), with no line break between the two,
    [extractCourtLocation] returns the text between them without the
    white space around it. *)
Theorem court_location_between (titlename : string)
    (pre c1 mid c2 post : list ascii) :
  chars titlename = pre ++ c1 ++ mid ++ c2 ++ post →
  eqCI c1 "CourtServe:" → eqCI c2 "County Court" →
  Forall (λ c, isDot c = true) mid →
  onlyAt "CourtServe:" (chars titlename) (length pre) →
  onlyAt "County Court" (chars titlename) (length (pre ++ c1 ++ mid)) →
  extractCourtLocation titlename = Ok (Some (trim (str mid))).
Proof.
  intros Hs Hc1 Hc2 Hmid Honce1 Honce2.
  apply (courtLocation_between titlename pre c1 mid c2 post); [|done..].
  split; [done|]. split; [done|]. split; [done|].
  exists [], mid, []. rewrite app_nil_r.
  split; [done|]. split; [constructor|]. split; [done|constructor].
Qed.

End CourtName.

(** That a word stands at one offset only can be checked offset by
    offset. *)
Lemma onlyAt_check (w : string) (l : list ascii) (n : nat) :
  forallb (λ k, (k =? n)%nat ||
                negb (isPrefix (map lowerChar (chars w))
                               (map lowerChar (drop k l))))
          (seq 0 (S (length l))) = true →
  onlyAt w l n.
Proof.
  intros Hscan pre m post Hl Hm. rewrite forallb_forall in Hscan.
  assert (Hin : In (length pre) (seq 0 (S (length l)))).
  { apply in_seq. rewrite Hl, length_app. lia. }
  apply Hscan in Hin. apply orb_true_iff in Hin as [Hin|Hin].
  - by apply Nat.eqb_eq in Hin.
  - exfalso. apply negb_true_iff in Hin.
    rewrite Hl, drop_app_length, map_app, Hm in Hin.
    assert (Htrue : isPrefix (map lowerChar (chars w))
                      (map lowerChar (chars w) ++ map lowerChar post) = true)
      by (apply isPrefix_true; by eexists).
    congruence.
Qed.

(** ** What a data row gives *)

Section DataRows.

Variable parseDate : string -> option JsDate.

Lemma forallb_empty (l : list string) :
  forallb (String.eqb "") l = true ↔ Forall (λ text, text = "") l.
Proof.
  rewrite forallb_forall, Forall_forall. split.
  - intros H text Hin%list_elem_of_In. apply H in Hin.
    by apply String.eqb_eq in Hin.
  - intros H text Hin%list_elem_of_In. apply String.eqb_eq.
    symmetry. by apply H.
Qed.

Lemma orStr_default x : orStr x "" = default "" x.
Proof.
  destruct x as [s|]; [|done]. cbn.
  by destruct (String.eqb_spec s "") as [->|].
Qed.

(** A data row of template 4a gives one record: its claim number is the
    text of the second cell, its parties are those of [parties4a]. *)
Lemma row4a_data titlename courtDate st row :
  isDataRow4a st row →
  ∃ claimant defendant location,
    parties4a (map paragraphText row) = Ok (claimant, defendant) ∧
    extractCourtLocation titlename = Ok location ∧
    row4a parseDate titlename courtDate st row =
    Ok (mkLoop (headersIndex st) location
          (data st ++
           [mkRecord (default "" location)
              (formatCourtDate parseDate courtDate)
              (default "" (map paragraphText row !! 1%nat))
              claimant defendant
              "Not Provided" "Not Provided" "Not Provided" titlename])).
Proof.
  intros (Hhead & Hmap & Hlen & Hsome). cbn [isHeaderRow] in Hhead.
  destruct (parties4a_total (map paragraphText row))
    as [[claimant defendant] Hparties].
  destruct (extractCourtLocation_total titlename) as [location Hloc].
  exists claimant, defendant, location. split; [done|]. split; [done|].
  unfold row4a. rewrite Hhead, length_map, Hmap.
  rewrite (proj2 (Nat.ltb_lt _ _) Hlen). cbn [andb].
  destruct (forallb (String.eqb "") (map paragraphText row)) eqn:Hall.
  { by apply forallb_empty in Hall. }
  rewrite Hparties. cbn [mbind result_bind]. rewrite Hloc.
  cbn [mbind result_bind]. unfold push.
  by rewrite !orStr_empty, !orStr_default.
Qed.

(** The text of a cell, paragraph by paragraph. *)
Lemma join_nonempty sep l :
  Forall (λ x, x ≠ "") l → l ≠ [] → join sep l ≠ "".
Proof.
  intros Hall Hne. destruct Hall as [|x l Hx Hl]; [done|].
  cbn [join]. destruct l; [done|]. by destruct x.
Qed.

Lemma paragraphText_cons text p ps colspan layout :
  let line := collapseSpaces (trim p) in
  let rest := paragraphText (mkCell text ps colspan layout) in
  paragraphText (mkCell text (p :: ps) colspan layout) =
  if String.eqb line "" then rest
  else if String.eqb rest "" then line
  else line +:+ " | " +:+ rest.
Proof.
  cbv zeta. unfold paragraphText. cbn [cellParagraphs map].
  rewrite filter_cons.
  destruct (String.eqb_spec (collapseSpaces (trim p)) "") as [Heq|Hne].
  - by rewrite decide_False by (by intros ?).
  - rewrite decide_True by done.
    set (lines := filter _ _).
    assert (Hlines : Forall (λ x, x ≠ "") lines).
    { subst lines. apply Forall_forall. intros x Hx.
      by apply list_elem_of_filter in Hx as [Hx _]. }
    clearbody lines. destruct lines as [|l more]; [done|].
    assert (Hrest : join " | " (l :: more) ≠ "") by (by apply join_nonempty).
    change (join " | " (collapseSpaces (trim p) :: l :: more))
      with (collapseSpaces (trim p) +:+ " | " +:+ join " | " (l :: more)).
    by rewrite (proj2 (String.eqb_neq _ _) Hrest).
Qed.

(** What a text starts with, up to its first blank. *)
Lemma splitChars_token c0 cur l :
  c0 ∉ cur →
  ∃ piece rest,
    splitChars [c0] 0 cur l = piece :: rest ∧ (c0 ∉ piece) ∧
    (rev cur ++ l = piece ∨ ∃ tail, rev cur ++ l = piece ++ c0 :: tail).
Proof.
  revert cur. induction l as [|c t IH]; intros cur Hcur.
  - exists (rev cur), []. split; [done|]. split; [by apply notin_rev|].
    left. apply app_nil_r.
  - cbn [splitChars isPrefix].
    destruct (Ascii.eqb_spec c0 c) as [->|Hne]; cbn [andb].
    + eexists _, _. split; [done|]. split; [by apply notin_rev|].
      right. by exists t.
    + destruct (IH (c :: cur)) as (piece & rest & Hrun & Hpiece & Hshape);
        [set_solver|].
      exists piece, rest. split; [done|]. split; [done|].
      cbn [rev] in Hshape. by rewrite <- app_assoc in Hshape.
Qed.

Lemma head_split_token s :
  ∃ tok, head (split " " s) = Some tok ∧ firstToken s tok.
Proof.
  unfold split. change (chars " ") with [" "%char].
  destruct (splitChars_token " "%char [] (chars s))
    as (piece & rest & Hrun & Hpiece & Hshape); [set_solver|].
  rewrite Hrun. cbn [map head rev app] in *.
  exists (str piece). split; [done|]. split; [by rewrite chars_str|].
  destruct Hshape as [Hs|[tail Hs]].
  - left. apply chars_inj. by rewrite chars_str.
  - right. exists (str tail). apply chars_inj.
    by rewrite !chars_app, !chars_str.
Qed.

Lemma token_unique (c0 : ascii) (t1 t2 r1 r2 : list ascii) :
  c0 ∉ t1 → c0 ∉ t2 →
  r1 = [] ∨ (∃ u, r1 = c0 :: u) → r2 = [] ∨ (∃ u, r2 = c0 :: u) →
  t1 ++ r1 = t2 ++ r2 → t1 = t2.
Proof.
  revert t2. induction t1 as [|x t1 IH]; intros t2 H1 H2 Hr1 Hr2 Heq.
  - destruct t2 as [|y t2]; [done|]. exfalso. cbn in Heq.
    destruct Hr1 as [->|[u ->]]; [done|]. injection Heq as -> _.
    set_solver.
  - destruct t2 as [|y t2].
    + exfalso. cbn in Heq.
      destruct Hr2 as [->|[u ->]]; [done|]. injection Heq as -> _.
      set_solver.
    + cbn in Heq. injection Heq as -> Heq. f_equal.
      apply IH; [set_solver|set_solver|done|done|done].
Qed.

Lemma firstToken_unique s t1 t2 : firstToken s t1 → firstToken s t2 → t1 = t2.
Proof.
  intros [H1 Hs1] [H2 Hs2]. apply chars_inj.
  assert (Hr : ∀ t, (s = t ∨ ∃ rest, s = t +:+ " " +:+ rest) →
                ∃ r, chars s = chars t ++ r ∧
                     (r = [] ∨ ∃ u, r = " "%char :: u)).
  { intros t [->|[rest ->]].
    - exists []. split; [by rewrite app_nil_r|by left].
    - exists (" "%char :: chars rest). split; [|right; by eexists].
      by rewrite !chars_app. }
  destruct (Hr _ Hs1) as (r1 & Heq1 & Hr1).
  destruct (Hr _ Hs2) as (r2 & Heq2 & Hr2).
  apply (token_unique " "%char _ _ r1 r2); [done..|congruence].
Qed.

Lemma head_split_firstToken s tok :
  head (split " " s) = Some tok ↔ firstToken s tok.
Proof.
  destruct (head_split_token s) as (tok' & Hhead & Htok').
  split.
  - intros Heq. congruence.
  - intros Htok. by rewrite (firstToken_unique _ _ _ Htok Htok').
Qed.

(** A row of template 5 that adds a record has a hearing type, case
    details whose first token is not the placeholder, and gives that
    token as claim number. *)
Lemma row5_claimNumber titlename courtDate st row st' :
  row5 parseDate titlename courtDate st row = Ok st' →
  data st' = data st ∨
  ∃ rec hearingType details tok,
    data st' = data st ++ [rec] ∧
    probeHearingType (cellsText5 row) = Some hearingType ∧
    caseDetailsOf (cellsText5 row) hearingType = Some details ∧
    firstToken details tok ∧ tok ≠ "PCOL" ∧
    ClaimNumber rec = orNotProvided tok.
Proof.
  unfold row5. fold (cellsText5 row). intros Hrun.
  destruct (existsb (test Rx.partyName) _); [kept Hrun|].
  destruct (existsb _ _); [kept Hrun|].
  destruct (_ && _); [|kept Hrun].
  destruct (forallb _ _); [kept Hrun|].
  destruct (probeHearingType _) as [hearingType|] eqn:Hprobe; [|kept Hrun].
  assert (Hquad :
    (let '(_, _, caseDetails, _) :=
       if strictEq hearingType (cellsText5 row !! 3%nat) then
         (cellsText5 row !! 0%nat, cellsText5 row !! 1%nat,
          cellsText5 row !! 2%nat, cellsText5 row !! 4%nat)
       else if strictEq hearingType (cellsText5 row !! 6%nat) then
         (cellsText5 row !! 3%nat, cellsText5 row !! 4%nat,
          cellsText5 row !! 5%nat, cellsText5 row !! 7%nat)
       else
         (cellsText5 row !! 2%nat, cellsText5 row !! 3%nat,
          cellsText5 row !! 4%nat, cellsText5 row !! 6%nat) in
     caseDetails) = caseDetailsOf (cellsText5 row) hearingType).
  { unfold caseDetailsOf. clear Hrun.
    destruct (strictEq hearingType (cellsText5 row !! 3%nat)); [done|].
    by destruct (strictEq hearingType (cellsText5 row !! 6%nat)). }
  set (quad := if strictEq hearingType _ then _ else _) in *.
  clearbody quad.
  destruct quad as [[[startTime duration] [caseDetails|]] hearingChannel];
    [|discriminate].
  cbn [mbind result_bind defined] in Hrun.
  destruct (strictEq _ (Some "PCOL")) eqn:Hpcol; [kept Hrun|].
  destruct (parties5 _) as [[claimant defendant]|]; [|discriminate].
  cbn [mbind result_bind] in Hrun.
  destruct (extractCourtLocation titlename) as [location|]; [|discriminate].
  cbn [mbind result_bind] in Hrun.
  destruct (head_split_token caseDetails) as (tok & Hhead & Htok).
  rewrite Hhead in Hrun, Hpcol.
  injection Hrun as <-. right.
  eexists _, hearingType, caseDetails, tok. split; [reflexivity|].
  split; [done|]. split; [done|]. split; [done|]. split; [|done].
  cbn [strictEq] in Hpcol. by apply String.eqb_neq in Hpcol.
Qed.

(** A row of template 5 whose case details start with the placeholder
    adds nothing. *)
Lemma row5_placeholder titlename courtDate st row hearingType details :
  probeHearingType (cellsText5 row) = Some hearingType →
  caseDetailsOf (cellsText5 row) hearingType = Some details →
  firstToken details "PCOL" →
  ∃ st', row5 parseDate titlename courtDate st row = Ok st' ∧
         data st' = data st.
Proof.
  intros Hprobe Hdetails Htok.
  destruct (row5_spec parseDate titlename courtDate st row)
    as (st' & Hrun & _).
  exists st'. split; [done|].
  destruct (row5_claimNumber _ _ _ _ _ Hrun)
    as [Hkept|(rec & ht & details' & tok & _ & Hp & Hd & Htok' & Hne & _)];
    [done|].
  exfalso. apply Hne.
  assert (ht = hearingType) as -> by congruence.
  assert (details' = details) as -> by congruence.
  by apply (firstToken_unique details).
Qed.

(** The records of a table come from its rows. *)
Lemma foldM_from (P : Row → CaseRecord → Prop)
    (f : Loop → Row → result Loop) rows st st' :
  (∀ st row st', f st row = Ok st' → addsOnly (P row) st st') →
  foldM f rows st = Ok st' →
  ∃ recs, data st' = data st ++ recs ∧
          Forall (λ rec, ∃ row, row ∈ rows ∧ P row rec) recs.
Proof.
  intros Hf. revert st. induction rows as [|row rows IH]; intros st Hrun;
    simpl in Hrun.
  - injection Hrun as <-. exists []. by rewrite app_nil_r.
  - destruct (f st row) as [st1|] eqn:Hrow; [|done]. cbn in Hrun.
    destruct (IH _ Hrun) as (recs & Hdata & Hall).
    assert (Hall' : Forall (λ rec, ∃ row0, row0 ∈ row :: rows ∧ P row0 rec)
                           recs).
    { eapply Forall_impl; [done|]. intros rec (row0 & Hin & Hrec).
      exists row0. split; [set_solver|done]. }
    destruct (Hf _ _ _ Hrow) as [Heq|(rec & Heq & Hrec)].
    + exists recs. split; [by rewrite Hdata, Heq|done].
    + exists (rec :: recs). split.
      * rewrite Hdata, Heq. by rewrite <- app_assoc.
      * constructor; [|done]. exists row. split; [set_solver|done].
Qed.

(** X23. The Claim Number of a record of template 5 is "Not Provided" or
    holds no blank: it is what the case details of a row of the table
    start with, up to their first blank, and "Not Provided" when that is
    empty. *)
Theorem claim_number_is_one_token title table name date :
  ∃ recs,
    extractDataTemplate5 parseDate title table name date = Ok recs ∧
    Forall oneToken recs ∧
    Forall (λ rec,
              ∃ row hearingType details tok,
                row ∈ tableRows table ∧
                probeHearingType (cellsText5 row) = Some hearingType ∧
                caseDetailsOf (cellsText5 row) hearingType = Some details ∧
                firstToken details tok ∧
                ClaimNumber rec = orNotProvided tok) recs.
Proof.
  destruct (extractData_spec parseDate template5 title table name date)
    as (recs & Hrun & _).
  exists recs. split; [done|]. split.
  { exact (run_adds _ _ _ _ _ (row5_token parseDate (trim title) date) Hrun). }
  cbn [extractData] in Hrun. unfold extractDataTemplate5 in Hrun.
  apply bind_Ok in Hrun as (st & Hfold & [= <-]).
  apply (foldM_from
           (λ row rec, ∃ hearingType details tok,
              probeHearingType (cellsText5 row) = Some hearingType ∧
              caseDetailsOf (cellsText5 row) hearingType = Some details ∧
              firstToken details tok ∧
              ClaimNumber rec = orNotProvided tok)) in Hfold
    as (recs & Hdata & Hall).
  - cbn [data app] in Hdata. rewrite Hdata.
    eapply Forall_impl; [exact Hall|].
    intros rec (row & Hin & ht & details & tok & Hp & Hd & Htok & Hcn).
    by exists row, ht, details, tok.
  - intros st0 row st1 Hrow.
    destruct (row5_claimNumber _ _ _ _ _ Hrow)
      as [Hkept|(rec & ht & details & tok & Hadd & Hp & Hd & Htok & _ & Hcn)].
    + by left.
    + right. exists rec. split; [done|]. by exists ht, details, tok.
Qed.

End DataRows.

(** ** Instances *)

Lemma parties_without_pipes_witness :
  template5 ≠ template4a ∧
  ∃ recs,
    extractData dmyDate template5 "CourtServe: Leeds County Court"
      Sample.scheduleTable "" "Tuesday, 18th October 2024" = Ok recs ∧
    Forall pipeFree recs.
Proof.
  split; [discriminate|].
  apply (parties_without_pipes dmyDate template5). discriminate.
Defined.

Lemma colspan_is_inert_witness :
  sameRows (tableRows Sample.combinedTable)
           (tableRows (widened Sample.combinedTable)) ∧
  extractDataTemplate4a dmyDate "CourtServe: Barnet County Court"
    Sample.combinedTable "" "" =
  extractDataTemplate4a dmyDate "CourtServe: Barnet County Court"
    (widened Sample.combinedTable) "" "" ∧
  extractDataTemplate5 dmyDate "CourtServe: Barnet County Court"
    Sample.combinedTable "" "" =
  extractDataTemplate5 dmyDate "CourtServe: Barnet County Court"
    (widened Sample.combinedTable) "" "".
Proof.
  assert (Hrows : sameRows (tableRows Sample.combinedTable)
                           (tableRows (widened Sample.combinedTable)))
    by (cbn; repeat constructor).
  split; [exact Hrows|].
  apply (colspan_is_inert dmyDate). exact Hrows.
Defined.

Lemma court_date_is_last_dated_paragraph_witness :
  test Rs.datePattern (trim " Tuesday, 18th October 2024 ") = true ∧
  Forall (λ later, test Rs.datePattern (trim later) = false)
         ["Monday 11 November 2024"; "Before District Judge Hale"] ∧
  ∃ name,
    foldM (scanParagraph dmyDate)
      (["Monday, 17th October 2024"] ++
       " Tuesday, 18th October 2024 " ::
       ["Monday 11 November 2024"; "Before District Judge Hale"])
      ("", "") =
    Ok (name, trim " Tuesday, 18th October 2024 ").
Proof.
  assert (Ht : test Rs.datePattern (trim " Tuesday, 18th October 2024 ") = true)
    by (vm_compute; reflexivity).
  assert (Hrest : Forall (λ later, test Rs.datePattern (trim later) = false)
                    ["Monday 11 November 2024"; "Before District Judge Hale"])
    by (repeat constructor; vm_compute; reflexivity).
  split; [exact Ht|]. split; [exact Hrest|].
  apply (court_date_is_last_dated_paragraph dmyDate); assumption.
Defined.

Lemma claim_number_is_classified_witness :
  hasWords "claim" "number" (docBodyText Sample.combinedList) ∧
  ∃ template, identifyTemplate Sample.combinedList = Some template.
Proof.
  assert (H : hasWords "claim" "number" (docBodyText Sample.combinedList))
    by (apply test_words; vm_compute; reflexivity).
  split; [exact H|].
  apply (claim_number_is_classified Sample.combinedList). exact H.
Defined.

Lemma no_token_no_record_witness :
  ¬ hasWords "claim" "number" (docBodyText Sample.blank) ∧
  ¬ hasWords "case" "ref" (docBodyText Sample.blank) ∧
  ¬ hasWords "start" "time" (docBodyText Sample.blank) ∧
  Forall (λ c, includes (normalizeText (cellText c)) "claim number" = false)
         (tableCells Sample.blank) ∧
  identifyTemplate Sample.blank = None ∧
  scrapeDataFromHtml dmyDate Sample.blank = Ok [].
Proof.
  assert (H1 : ¬ hasWords "claim" "number" (docBodyText Sample.blank))
    by (rewrite <- test_words; vm_compute; discriminate).
  assert (H2 : ¬ hasWords "case" "ref" (docBodyText Sample.blank))
    by (rewrite <- test_words; vm_compute; discriminate).
  assert (H3 : ¬ hasWords "start" "time" (docBodyText Sample.blank))
    by (rewrite <- test_words; vm_compute; discriminate).
  assert (H4 : Forall (λ c, includes (normalizeText (cellText c))
                                     "claim number" = false)
                 (tableCells Sample.blank)) by constructor.
  split; [exact H1|]. split; [exact H2|]. split; [exact H3|].
  split; [exact H4|].
  apply (no_token_no_record dmyDate Sample.blank); assumption.
Defined.

Lemma formatDate_two_digits_witness :
  1 ≤ getDate (mkDate 2024 10 5) ≤ 31 ∧
  0 ≤ getMonth (mkDate 2024 10 5) ≤ 11 ∧
  ∃ dd mm,
    formatDate (mkDate 2024 10 5) =
      dd +:+ "/" +:+ mm +:+ "/" +:+ ofInt (getFullYear (mkDate 2024 10 5)) ∧
    String.length dd = 2%nat ∧
    parseInt (Some dd) = Int (getDate (mkDate 2024 10 5)) ∧
    String.length mm = 2%nat ∧
    parseInt (Some mm) = Int (getMonth (mkDate 2024 10 5) + 1).
Proof.
  split; [cbn; lia|]. split; [cbn; lia|].
  apply (formatDate_two_digits (mkDate 2024 10 5)); cbn; lia.
Defined.

Lemma idle_rows_give_nothing_witness :
  Forall (idle template4)
    (tableRows (mkTable "" [Sample.row ["Claim Number"];
                            Sample.row [""; "  "]])) ∧
  extractData dmyDate template4 "CourtServe: Leeds County Court"
    (mkTable "" [Sample.row ["Claim Number"]; Sample.row [""; "  "]])
    "" "" = Ok [].
Proof.
  assert (H : Forall (idle template4)
                (tableRows (mkTable "" [Sample.row ["Claim Number"];
                                        Sample.row [""; "  "]]))).
  { cbn [tableRows].
    apply Forall_cons; split; [left; cbn; lia|].
    apply Forall_cons; split; [|constructor].
    right. vm_compute. repeat constructor. }
  split; [exact H|].
  apply (idle_rows_give_nothing dmyDate template4). exact H.
Defined.

Lemma no_possession_no_record_witness :
  (Forall (Forall (λ c, ¬ hasWord "posse" (cellText c)))
     (tableRows (mkTable ""
        [Sample.row ["Time"; "Case Ref"; "Case Type"; "Case Name"];
         Sample.row ["10:00"; "K00AB123"; "Trial"; "Smith v Jones"]])) ∧
   extractDataTemplate7 dmyDate "CourtServe: Leeds County Court"
     (mkTable ""
        [Sample.row ["Time"; "Case Ref"; "Case Type"; "Case Name"];
         Sample.row ["10:00"; "K00AB123"; "Trial"; "Smith v Jones"]])
     "" "" = Ok []) ∧
  (let st := mkLoop {["caseType" := Int 2]} None [] in
   let row := Sample.row ["10:00"; "K00AB123"; "Trial"; "Smith v Jones"] in
   ¬ hasWord "posse" (caseTypeOf st row) ∧
   ∃ st', row7 dmyDate "" "" st row = Ok st' ∧ data st' = data st).
Proof.
  assert (H : Forall (Forall (λ c, ¬ hasWord "posse" (cellText c)))
    (tableRows (mkTable ""
       [Sample.row ["Time"; "Case Ref"; "Case Type"; "Case Name"];
        Sample.row ["10:00"; "K00AB123"; "Trial"; "Smith v Jones"]]))).
  { cbn. repeat (apply Forall_cons; split); try (by constructor);
      rewrite <- test_posse; vm_compute; discriminate. }
  assert (Hrow : ¬ hasWord "posse"
            (caseTypeOf (mkLoop {["caseType" := Int 2]} None [])
               (Sample.row ["10:00"; "K00AB123"; "Trial"; "Smith v Jones"])))
    by (rewrite <- test_posse; vm_compute; discriminate).
  pose proof (no_possession_no_record dmyDate
                "CourtServe: Leeds County Court"
                (mkTable ""
                   [Sample.row ["Time"; "Case Ref"; "Case Type"; "Case Name"];
                    Sample.row ["10:00"; "K00AB123"; "Trial";
                                "Smith v Jones"]])
                "" "") as [Htable Hskip].
  split; [split; [exact H|exact (Htable H)]|].
  cbv zeta. split; [exact Hrow|]. exact (Hskip "" "" _ _ Hrow).
Defined.

Lemma splitter_cuts_at_first_separator_witness :
  cutAt ["v"; "vs"] "Smith Ltd  VS John Jones | Co" "Smith Ltd"
        "John Jones | Co" ∧
  parties7 (Some "Smith Ltd  VS John Jones | Co") =
    Ok (stripPipes (trim "Smith Ltd"), stripPipes (trim "John Jones | Co")) ∧
  (¬ hasSeparator ["-v-"; "-vs-"] "Smith Ltd  VS John Jones | Co" →
   parties5 "Smith Ltd  VS John Jones | Co" =
     Ok (stripPipes (trim "Smith Ltd"), stripPipes (trim "John Jones | Co"))).
Proof.
  assert (H : cutAt ["v"; "vs"] "Smith Ltd  VS John Jones | Co" "Smith Ltd"
                    "John Jones | Co").
  { apply (cutAt_check "v" "vs" _ _ _ (chars "  VS ")).
    - reflexivity.
    - exists (chars "  "), (chars "VS"), (chars " "), "vs".
      split; [reflexivity|]. split; [discriminate|].
      split; [repeat constructor|]. split; [discriminate|].
      split; [repeat constructor|]. split; [set_solver|reflexivity].
    - vm_compute. reflexivity.
    - apply no_separator. vm_compute. reflexivity. }
  split; [exact H|].
  apply (splitter_cuts_at_first_separator _ _ _ H).
Defined.

Lemma splitter_prefers_dashes_witness :
  cutAt ["-v-"; "-vs-"] "Acme v Housing -v- John Jones" "Acme v Housing"
        "John Jones" ∧
  parties5 "Acme v Housing -v- John Jones" =
    Ok (stripPipes (trim "Acme v Housing"), stripPipes (trim "John Jones")).
Proof.
  assert (H : cutAt ["-v-"; "-vs-"] "Acme v Housing -v- John Jones"
                    "Acme v Housing" "John Jones").
  { apply (cutAt_check "-v-" "-vs-" _ _ _ (chars " -v- ")).
    - reflexivity.
    - exists (chars " "), (chars "-v-"), (chars " "), "-v-".
      split; [reflexivity|]. split; [discriminate|].
      split; [repeat constructor|]. split; [discriminate|].
      split; [repeat constructor|]. split; [set_solver|reflexivity].
    - vm_compute. reflexivity.
    - apply no_separator. vm_compute. reflexivity. }
  split; [exact H|].
  apply (splitter_prefers_dashes _ _ _ H).
Defined.

Lemma court_location_between_witness :
  chars "courtserve:  Leeds  COUNTY COURT Daily List" =
    [] ++ chars "courtserve:" ++ chars "  Leeds  " ++ chars "COUNTY COURT"
       ++ chars " Daily List" ∧
  eqCI (chars "courtserve:") "CourtServe:" ∧
  eqCI (chars "COUNTY COURT") "County Court" ∧
  Forall (λ c, isDot c = true) (chars "  Leeds  ") ∧
  onlyAt "CourtServe:" (chars "courtserve:  Leeds  COUNTY COURT Daily List")
         (length (@nil ascii)) ∧
  onlyAt "County Court" (chars "courtserve:  Leeds  COUNTY COURT Daily List")
         (length ([] ++ chars "courtserve:" ++ chars "  Leeds  ")) ∧
  extractCourtLocation "courtserve:  Leeds  COUNTY COURT Daily List" =
    Ok (Some (trim (str (chars "  Leeds  ")))).
Proof.
  assert (H1 : onlyAt "CourtServe:"
                 (chars "courtserve:  Leeds  COUNTY COURT Daily List")
                 (length (@nil ascii)))
    by (apply onlyAt_check; vm_compute; reflexivity).
  assert (H2 : onlyAt "County Court"
                 (chars "courtserve:  Leeds  COUNTY COURT Daily List")
                 (length ([] ++ chars "courtserve:" ++ chars "  Leeds  ")))
    by (apply onlyAt_check; vm_compute; reflexivity).
  assert (H3 : Forall (λ c, isDot c = true) (chars "  Leeds  "))
    by (repeat constructor).
  split; [reflexivity|]. split; [reflexivity|]. split; [reflexivity|].
  split; [exact H3|]. split; [exact H1|]. split; [exact H2|].
  apply (court_location_between
           "courtserve:  Leeds  COUNTY COURT Daily List" []
           (chars "courtserve:") (chars "  Leeds  ") (chars "COUNTY COURT")
           (chars " Daily List")); [reflexivity..|exact H3|exact H1|exact H2].
Defined.

Lemma header_map_positions_witness :
  let cells := [Sample.cell "Time";
                mkCell "Case Ref" [] (Some "2") false;
                Sample.cell "Case Type"] in
  map (λ c, colspanOf (cellColspan c)) (take 2 cells) = map Int [1; 2] ∧
  (∀ j, safeInteger (total (take j [1; 2]))) ∧
  columnsBefore cells 2 = Int (total [1; 2]) ∧
  (mapHeaders assign7 cells ∅).1 !! "caseType" = Some (Int 3).
Proof.
  assert (Hsafe : ∀ j, safeInteger (total (take j [1; 2]))).
  { intros j. unfold safeInteger.
    destruct j as [|[|[|j]]]; vm_compute; split; discriminate. }
  cbv zeta. split; [vm_compute; reflexivity|]. split; [exact Hsafe|].
  split; [|vm_compute; reflexivity].
  apply (header_map_positions
           [Sample.cell "Time"; mkCell "Case Ref" [] (Some "2") false;
            Sample.cell "Case Type"] "caseType" (Int 3));
    [vm_compute; reflexivity|exact Hsafe].
Defined.

(** * The claims *)

Section Claims.

Variable parseDate : string -> option JsDate.

(** C1. Every record the extractor of template 5 returns, and so every
    record [scrapeDataFromHtml] returns for a document classified as
    template 5, has a Hearing Type that holds the word "possession" in
    any letter case; and a row none of whose cells 5, 3 and 6 holds it
    adds no record. *)
Theorem possession_rows_only (d : Document) (title : string) (table : Table)
    (name date : string) :
  identifyTemplate d = Some template5 →
  (∃ records,
     scrapeDataFromHtml parseDate d = Ok records ∧
     Forall (λ rec, hasWord "possession" (HearingType rec)) records) ∧
  (∃ recs,
     extractDataTemplate5 parseDate title table name date = Ok recs ∧
     Forall (λ rec, hasWord "possession" (HearingType rec)) recs) ∧
  (∀ titlename courtDate st row,
     (∀ i text, i ∈ [5; 3; 6]%nat → cellsText5 row !! i = Some text →
                ¬ hasWord "possession" text) →
     ∃ st', row5 parseDate titlename courtDate st row = Ok st' ∧
            data st' = data st).
Proof.
  intros Ht. split; [|split].
  - destruct (scrape_total parseDate d) as [records Hrun].
    exists records. split; [done|].
    destruct (scrape_firstWins parseDate d records Hrun) as (produced & Hp & ->).
    destruct (extractedRows_spec parseDate d template5 Ht)
      as (produced' & Hp' & _ & Hgood).
    assert (produced' = produced) as -> by congruence.
    apply Forall_forall. intros rec Hrec.
    eapply elem_of_sublist in Hrec; [|apply firstWins_sublist].
    destruct (proj1 (Forall_forall _ _) (Hgood eq_refl) rec Hrec) as (_ & ? & _).
    by apply test_possessions.
  - destruct (extractDataTemplate5_spec parseDate title table name date)
      as (recs & Hrun & Hall).
    exists recs. split; [done|].
    eapply Forall_impl; [done|]. intros rec (_ & ? & _).
    by apply test_possessions.
  - intros titlename courtDate st row Hno.
    destruct (row5_spec parseDate titlename courtDate st row)
      as (st' & Hrun & _ & Hdrop).
    exists st'. split; [done|]. apply Hdrop.
    assert (Hcell : ∀ i, i ∈ [5; 3; 6]%nat →
              testOpt Rx.possessions (cellsText5 row !! i) = false).
    { intros i Hi. destruct (cellsText5 row !! i) as [text|] eqn:Hcell;
        [|reflexivity].
      apply not_true_is_false. intros Hm%test_possessions.
      by eapply Hno. }
    unfold probeHearingType.
    rewrite !Hcell by set_solver. done.
Qed.

(** C2. Within one call of [scrapeDataFromHtml], of the rows extracted
    from the candidate tables, the records returned are a subsequence in
    the order produced, and for every claim number among the rows exactly
    one record with it is returned, the first row produced with it. *)
Theorem dedup_first_wins (d : Document) (records : list CaseRecord) :
  scrapeDataFromHtml parseDate d = Ok records →
  ∃ produced,
    extractedRows parseDate d = Ok produced ∧
    records `sublist_of` produced ∧
    ∀ cn, cn ∈ map ClaimNumber produced →
      ∃ row,
        filter (λ x, ClaimNumber x = cn) records = [row] ∧
        find (λ x, String.eqb (ClaimNumber x) cn) produced = Some row.
Proof.
  intros Hrun.
  destruct (scrape_firstWins parseDate d records Hrun) as (produced & Hp & ->).
  exists produced. split; [done|]. split; [apply firstWins_sublist|].
  intros cn Hcn. apply firstWins_first; [done|set_solver].
Qed.

(** C7, as amended. The extractor of template 5 returns, and none of its
    records has the claim number ["PCOL"]; the same holds of what
    [scrapeDataFromHtml] returns for a document of template 5.  A row
    whose case details start with ["PCOL"], alone or before a blank, is
    skipped; a row that adds a record has case details that start with
    another token, and that token is the claim number of the record
    ("Not Provided" when it is empty).  Templates 4, 4a and 7 have no such
    check: each returns a record with the claim number ["PCOL"] for its
    sample list. *)
Theorem template5_never_PCOL (title : string) (table : Table)
    (name date : string) (d : Document) :
  (∃ recs,
     extractDataTemplate5 parseDate title table name date = Ok recs ∧
     Forall (λ rec, ClaimNumber rec ≠ "PCOL") recs) ∧
  (identifyTemplate d = Some template5 →
   ∃ records,
     scrapeDataFromHtml parseDate d = Ok records ∧
     Forall (λ rec, ClaimNumber rec ≠ "PCOL") records) ∧
  (∀ titlename courtDate st row hearingType details,
     probeHearingType (cellsText5 row) = Some hearingType →
     caseDetailsOf (cellsText5 row) hearingType = Some details →
     firstToken details "PCOL" →
     ∃ st', row5 parseDate titlename courtDate st row = Ok st' ∧
            data st' = data st) ∧
  (∀ titlename courtDate st row st' rec,
     row5 parseDate titlename courtDate st row = Ok st' →
     data st' = data st ++ [rec] →
     ∃ hearingType details tok,
       probeHearingType (cellsText5 row) = Some hearingType ∧
       caseDetailsOf (cellsText5 row) hearingType = Some details ∧
       firstToken details tok ∧ tok ≠ "PCOL" ∧
       ClaimNumber rec = orNotProvided tok) ∧
  (identifyTemplate Sample.claimList = Some template4 ∧
   ∃ rec, scrapeDataFromHtml parseDate Sample.claimList = Ok [rec] ∧
          ClaimNumber rec = "PCOL") ∧
  (identifyTemplate Sample.placeholderList = Some template4a ∧
   ∃ rec, scrapeDataFromHtml parseDate Sample.placeholderList = Ok [rec] ∧
          ClaimNumber rec = "PCOL") ∧
  (identifyTemplate Sample.caseRefList = Some template7 ∧
   ∃ rec, scrapeDataFromHtml parseDate Sample.caseRefList = Ok [rec] ∧
          ClaimNumber rec = "PCOL").
Proof.
  split; [|split; [|split; [|split; [|split; [|split]]]]].
  - destruct (extractDataTemplate5_spec parseDate title table name date)
      as (recs & Hrun & Hall).
    exists recs. split; [done|].
    eapply Forall_impl; [done|]. by intros rec (_ & _ & ?).
  - intros Ht.
    destruct (scrape_total parseDate d) as [records Hrun].
    exists records. split; [done|].
    destruct (scrape_firstWins parseDate d records Hrun) as (produced & Hp & ->).
    destruct (extractedRows_spec parseDate d template5 Ht)
      as (produced' & Hp' & _ & Hgood).
    assert (produced' = produced) as -> by congruence.
    apply Forall_forall. intros rec Hrec.
    eapply elem_of_sublist in Hrec; [|apply firstWins_sublist].
    by destruct (proj1 (Forall_forall _ _) (Hgood eq_refl) rec Hrec) as (_ & _ & ?).
  - intros titlename courtDate st row hearingType details.
    apply row5_placeholder.
  - intros titlename courtDate st row st' rec Hrun Hdata.
    destruct (row5_claimNumber _ _ _ _ _ _ Hrun)
      as [Hkept|(rec' & ht & details & tok & Hadd & Hp & Hd & Htok & Hne & Hcn)].
    + rewrite Hkept in Hdata. apply (f_equal length) in Hdata.
      rewrite length_app in Hdata. cbn in Hdata. lia.
    + rewrite Hadd in Hdata. apply app_inv_head in Hdata as [= ->].
      by exists ht, details, tok.
  - split; [vm_compute; reflexivity|].
    eexists. split; [vm_compute; reflexivity|reflexivity].
  - split; [vm_compute; reflexivity|].
    eexists. split; [vm_compute; reflexivity|reflexivity].
  - split; [vm_compute; reflexivity|].
    eexists. split; [vm_compute; reflexivity|reflexivity].
Qed.

(** C9. [scrapeDataFromHtml] returns a list of records for every parsed
    document and never throws; the list is empty when [identifyTemplate]
    returns [null] and when no table passes the filter of the template. *)
Theorem scrape_never_throws (d : Document) :
  (∃ records, scrapeDataFromHtml parseDate d = Ok records) ∧
  (identifyTemplate d = None → scrapeDataFromHtml parseDate d = Ok []) ∧
  (∀ template,
     identifyTemplate d = Some template →
     candidateTables template d = [] →
     scrapeDataFromHtml parseDate d = Ok []).
Proof.
  split; [apply scrape_total|]. split.
  - intros Ht. unfold scrapeDataFromHtml. by rewrite Ht.
  - intros template Ht Hnone. unfold scrapeDataFromHtml. rewrite Ht, Hnone.
    destruct (foldM_total (scanParagraph parseDate) (docParagraphs d) ("", ""))
      as [[name date] ->]; [intros; apply scanParagraph_total|].
    done.
Qed.

(** C10. In each of the four extractors the Court Name of every record
    is what [extractCourtLocation] reads in the trimmed title, the empty
    string when the title has no match, and the [courtName] argument has
    no effect on the records.  [extractCourtLocation] returns [null]
    exactly when the title does not hold "CourtServe:" and, further on,
    "County Court" (in any letter case) with only white space, a run
    without a line break, and white space between them; otherwise it
    returns the text between the two words of such a reading without the
    white space around it, and that reading is the only one when each of
    the two words stands once in the title. *)
Theorem courtName_from_title_only (template : Template) (title : string)
    (table : Table) (name1 name2 date : string) :
  extractData parseDate template title table name1 date =
  extractData parseDate template title table name2 date ∧
  (∃ location recs,
     extractCourtLocation (trim title) = Ok location ∧
     extractData parseDate template title table name1 date = Ok recs ∧
     Forall (λ rec, CourtName rec = default "" location) recs) ∧
  (extractCourtLocation (trim title) = Ok None ↔
   ¬ ∃ pre c1 mid c2 post, courtTitle (trim title) pre c1 mid c2 post) ∧
  (∀ location,
     extractCourtLocation (trim title) = Ok (Some location) →
     ∃ pre c1 mid c2 post,
       courtTitle (trim title) pre c1 mid c2 post ∧
       location = trim (str mid)) ∧
  (∀ pre c1 mid c2 post,
     courtTitle (trim title) pre c1 mid c2 post →
     onlyAt "CourtServe:" (chars (trim title)) (length pre) →
     onlyAt "County Court" (chars (trim title)) (length (pre ++ c1 ++ mid)) →
     extractCourtLocation (trim title) = Ok (Some (trim (str mid))) ∧
     ∃ recs,
       extractData parseDate template title table name1 date = Ok recs ∧
       Forall (λ rec, CourtName rec = trim (str mid)) recs) ∧
  ((¬ ∃ pre c1 mid c2 post, courtTitle (trim title) pre c1 mid c2 post) →
   ∃ recs,
     extractData parseDate template title table name1 date = Ok recs ∧
     Forall (λ rec, CourtName rec = "") recs).
Proof.
  assert (Hrecs : ∀ location,
            extractCourtLocation (trim title) = Ok location →
            ∃ recs,
              extractData parseDate template title table name1 date = Ok recs ∧
              Forall (λ rec, CourtName rec = default "" location) recs).
  { intros location Hloc.
    destruct (extractData_spec parseDate template title table name1 date)
      as (recs & Hrun & Hall).
    exists recs. split; [done|].
    eapply Forall_impl; [done|]. intros rec (location' & Hloc' & ->).
    assert (location' = location) as -> by congruence.
    destruct location as [location|]; [|done]. apply orStr_empty. }
  split; [apply extractData_blind|]. split; [|split; [|split; [|split]]].
  - destruct (extractCourtLocation_total (trim title)) as [location Hloc].
    destruct (Hrecs location Hloc) as (recs & Hrun & Hall).
    by exists location, recs.
  - destruct (courtLocation_spec (trim title))
      as [[Hnone Hno]|(pre & c1 & mid & c2 & post & Ht & Hrun)].
    + by split.
    + split; [congruence|]. intros Hno. exfalso. apply Hno.
      by exists pre, c1, mid, c2, post.
  - intros location Hloc.
    destruct (courtLocation_spec (trim title))
      as [[Hnone _]|(pre & c1 & mid & c2 & post & Ht & Hrun)];
      [congruence|].
    exists pre, c1, mid, c2, post. split; [done|]. congruence.
  - intros pre c1 mid c2 post Ht Honce1 Honce2.
    pose proof (courtLocation_between _ _ _ _ _ _ Ht Honce1 Honce2) as Hloc.
    split; [done|]. exact (Hrecs _ Hloc).
  - intros Hno.
    destruct (courtLocation_spec (trim title))
      as [[Hnone _]|(pre & c1 & mid & c2 & post & Ht & _)].
    + exact (Hrecs _ Hnone).
    + exfalso. apply Hno. by exists pre, c1, mid, c2, post.
Qed.

(** C3, as amended. In the header walk of template 4a a cell whose
    normalized text is ["claim number claimant"], met at logical index
    [i], maps [claimNumber] to [i] and [claimant] to [i + 1]; every cell
    moves the index on by [parseInt] of its [colspan] when that is a
    number other than zero, and by 1 when the attribute is absent, is not
    a number or is zero.  The sums are sums of doubles: they are the
    sums of the integers as long as these stay within 2^53 on either
    side of zero.  A header row is never an error: the row callback
    returns with the map of the walk.  [parseInt] reads the decimal
    numerals, with or without a minus sign, as the integers they write,
    and a text that starts with anything but white space, a sign or a
    digit, or is empty, as no number. *)
Theorem combined_header_mapping (cell : Cell) (h : gmap string Number)
    (i : Number) :
  (normalizeText (cellText cell) = "claim number claimant" →
   (headerCell assign4a (h, i) cell).1 !! "claimNumber" = Some i ∧
   (headerCell assign4a (h, i) cell).1 !! "claimant" =
     Some (addNumber i (Int 1))) ∧
  (headerCell assign4a (h, i) cell).2 =
    addNumber i (colspanOf (cellColspan cell)) ∧
  (∀ z n, i = Int z → safeInteger (z + n) →
          addNumber i (Int n) = Int (z + n)) ∧
  (∀ n, parseInt (cellColspan cell) = Int n → n ≠ 0 →
        colspanOf (cellColspan cell) = Int n) ∧
  (∀ s, parseInt (cellColspan cell) = Infinity s →
        colspanOf (cellColspan cell) = Infinity s) ∧
  (parseInt (cellColspan cell) = Int 0 →
   colspanOf (cellColspan cell) = Int 1) ∧
  (parseInt (cellColspan cell) = NaN → colspanOf (cellColspan cell) = Int 1) ∧
  (cellColspan cell = None → colspanOf (cellColspan cell) = Int 1) ∧
  (∀ cells,
     (mapHeaders assign4a cells h).2 =
     fold_left addNumber (map (λ c, colspanOf (cellColspan c)) cells)
               (Int 0)) ∧
  (∀ cells spans,
     map (λ c, colspanOf (cellColspan c)) cells = map Int spans →
     (∀ k, safeInteger (total (take k spans))) →
     (mapHeaders assign4a cells h).2 = Int (total spans)) ∧
  (∀ titlename courtDate st row,
     isHeaderRow template4a row = true →
     row4a parseDate titlename courtDate st row =
     Ok (setHeaders (mapHeaders assign4a row (headersIndex st)).1 st)) ∧
  (∀ n, 1 <= n <= 1000 →
        colspanOf (Some (ofInt n)) = Int n ∧
        colspanOf (Some ("-" +:+ ofInt n)) = Int (- n)) ∧
  (∀ s c rest,
     chars s = c :: rest →
     isSpace c = false → isDigit c = false → c ≠ "+"%char → c ≠ "-"%char →
     colspanOf (Some s) = Int 1) ∧
  colspanOf (Some "") = Int 1.
Proof.
  split; [|split; [done|split]].
  - intros Htext. unfold headerCell, assign4a. rewrite Htext.
    assert (test Rx.combinedHeaderExact "claim number claimant" = true) as ->
      by (vm_compute; reflexivity).
    cbn [fst snd]. split.
    + rewrite lookup_insert_ne by done. apply lookup_insert_eq.
    + apply lookup_insert_eq.
  - intros z n -> Hsafe. by apply addNumber_safe.
  - repeat split.
    + unfold colspanOf. intros n -> Hn. cbn.
      by rewrite (proj2 (Z.eqb_neq n 0) Hn).
    + unfold colspanOf. by intros s ->.
    + unfold colspanOf. by intros ->.
    + unfold colspanOf. by intros ->.
    + by intros ->.
    + intros cells. unfold mapHeaders. by rewrite mapHeaders_spans.
    + intros cells spans Hspans Hsafe. unfold mapHeaders.
      rewrite mapHeaders_spans, Hspans. cbn [snd].
      rewrite fold_addNumber_safe; [done|].
      intros k. by rewrite Z.add_0_l.
    + intros titlename courtDate st row Hrow. unfold row4a.
      cbn [isHeaderRow] in Hrow. by rewrite Hrow.
    + destruct (parseInt_numeral n) as [Hpos _]; [lia|].
      unfold colspanOf. rewrite Hpos. cbn.
      by rewrite (proj2 (Z.eqb_neq n 0)) by lia.
    + destruct (parseInt_numeral n) as [_ Hneg]; [lia|].
      unfold colspanOf. rewrite Hneg. cbn.
      by rewrite (proj2 (Z.eqb_neq (- n) 0)) by lia.
    + intros s c rest Hs Hspace Hdigit Hplus Hminus. unfold colspanOf.
      by rewrite (parseInt_not_numeric s c rest).
Qed.

(** C5. With a date constructor that reads ["18 October 2024"] and
    ["15 November 2024"] and rejects ["Tuesday"], [formatCourtDate] of
    template 5 maps both inputs of the claim as the claim says, while
    [formatCourtDate] of templates 4, 4a and 7 maps the first input the
    same way and the input without a comma to the empty string. *)
Theorem formatCourtDate_examples :
  parseDate "18 October 2024" = Some (mkDate 2024 9 18) →
  parseDate "15 November 2024" = Some (mkDate 2024 10 15) →
  parseDate "Tuesday" = None →
  formatCourtDate5 parseDate "Tuesday, 18th October 2024" = "18/10/2024" ∧
  formatCourtDate5 parseDate "15th November 2024" = "15/11/2024" ∧
  formatCourtDate parseDate "Tuesday, 18th October 2024" = "18/10/2024" ∧
  formatCourtDate parseDate "15th November 2024" = "".
Proof.
  intros H18 H15 Htue. split; [|split; [|split]].
  - unfold formatCourtDate5.
    assert (includes "Tuesday, 18th October 2024" "," = true) as ->
      by (vm_compute; reflexivity).
    cbv zeta.
    assert (split "," "Tuesday, 18th October 2024" =
            ["Tuesday"; " 18th October 2024"]) as -> by (vm_compute; reflexivity).
    assert (stripOrdinal (translateMonths (trim " 18th October 2024")) =
            "18 October 2024") as Hs by (vm_compute; reflexivity).
    cbn [lookup list_lookup truthy default from_option id negb String.eqb].
    rewrite Hs, H18. vm_compute. reflexivity.
  - unfold formatCourtDate5.
    assert (includes "15th November 2024" "," = false) as ->
      by (vm_compute; reflexivity).
    assert (stripOrdinal "15th November 2024" = "15 November 2024") as ->
      by (vm_compute; reflexivity).
    rewrite H15. vm_compute. reflexivity.
  - unfold formatCourtDate.
    assert (includes "Tuesday, 18th October 2024" "," = true) as ->
      by (vm_compute; reflexivity).
    assert (split "," "Tuesday, 18th October 2024" =
            ["Tuesday"; " 18th October 2024"]) as -> by (vm_compute; reflexivity).
    cbn [firstValidPart].
    assert (stripOrdinal (translateMonths (trim "Tuesday")) = "Tuesday") as ->
      by (vm_compute; reflexivity).
    assert (stripOrdinal (translateMonths (trim " 18th October 2024")) =
            "18 October 2024") as -> by (vm_compute; reflexivity).
    rewrite Htue, H18. vm_compute. reflexivity.
  - unfold formatCourtDate.
    assert (includes "15th November 2024" "," = false) as ->
      by (vm_compute; reflexivity).
    reflexivity.
Qed.

(** C6, as amended. A string that holds none of "v", "vs", "-v-", "-vs-"
    between white space is split by template 5 into two "Not Provided".
    Template 7 splits a string without the letter v into two
    "Not Provided" as well, and a string that has the letter but neither
    "v" nor "vs" between white space into the whole trimmed string, pipes
    removed, and "Not Provided".  Both split "Smith v Jones" into "Smith"
    and "Jones". *)
Theorem splitter_without_separator (s : string) :
  (¬ hasSeparator ["v"; "vs"; "-v-"; "-vs-"] s →
   parties5 s = Ok ("Not Provided", "Not Provided")) ∧
  (¬ hasWord "v" s →
   parties7 (Some s) = Ok ("Not Provided", "Not Provided")) ∧
  (hasWord "v" s → ¬ hasSeparator ["v"; "vs"] s →
   parties7 (Some s) = Ok (stripPipes (trim s), "Not Provided")) ∧
  parties5 "Smith v Jones" = Ok ("Smith", "Jones") ∧
  parties7 (Some "Smith v Jones") = Ok ("Smith", "Jones").
Proof.
  split; [|split; [|split; [|split; vm_compute; reflexivity]]].
  - intros Hno. unfold parties5.
    assert (test Rx.sepV s = false) as ->.
    { apply not_true_is_false. intros Hsep%test_separator. apply Hno.
      apply (hasSeparator_app ["v"; "vs"] ["-v-"; "-vs-"]). by left. }
    assert (test Rx.sepDashV s = false) as ->.
    { apply not_true_is_false. intros Hsep%test_separator. apply Hno.
      apply (hasSeparator_app ["v"; "vs"] ["-v-"; "-vs-"]). by right. }
    done.
  - intros Hno. unfold parties7, testOpt. cbn [default from_option id].
    assert (test Rx.looseV s = false) as ->; [|done].
    apply not_true_is_false. by intros Hv%test_looseV.
  - intros Hv%test_looseV Hno. unfold parties7, testOpt.
    cbn [default from_option id]. rewrite Hv.
    cbn [defined mbind result_bind].
    rewrite splitRe_no_match; [done|].
    apply not_true_is_false. by intros Hsep%test_separator.
Qed.

(** C8. A document whose body text holds, in any letter case, "case",
    any white space, "ref" and also "case", any white space, "name" is
    classified as template 7, whatever else it holds. *)
Theorem case_ref_wins (d : Document) :
  hasWords "case" "ref" (docBodyText d) →
  hasWords "case" "name" (docBodyText d) →
  identifyTemplate d = Some template7.
Proof.
  intros Href Hname.
  assert (Hboth : ∀ w, hasWords "case" w (docBodyText d) →
            forallb (λ c, negb (isSpace c)) (chars w) = true → w ≠ "" →
            test (seqs [litI "case"; star space; litI w]) (bodyTextContent d)
              = true).
  { intros w Hw Hsolid Hne. apply test_words. unfold bodyTextContent.
    apply hasWords_collapseSpaces; [done|done|done|done|].
    by apply hasWords_toLowerCase. }
  unfold identifyTemplate. cbv zeta.
  unfold Re.caseRef, Re.caseName. by rewrite !Hboth.
Qed.

(** C4, as amended. In template 4a the text of a cell is the join with
    " | " of its non-empty paragraphs, each trimmed and its white space
    collapsed.  Every data row gives one record whose claim number is
    the whole text of the second cell, whose parties are those below
    and whose duration, hearing type and hearing channel are
    "Not Provided".  In a data row of three cells the third text is split
    at its first " | " into claimant and defendant, each trimmed, an
    empty part becoming "Not Provided", and the whole trimmed text is the
    claimant when it holds no " | "; in a row of four cells claimant and
    defendant are the third and fourth texts without their pipes,
    "Not Provided" replacing an empty text.  The table of the end-to-end
    scenario yields the claim number "CL123 | John Smith", the claimant
    "Jane Doe" and the defendant "Not Provided", and the table with the
    two parties in the third cell yields "CL123", "John Smith" and
    "Jane Doe". *)
Theorem combined_row_parties (k0 k1 k2 k3 : Cell) :
  (∀ cell,
     paragraphText cell =
     join " | "
       (filter (λ lineText, lineText ≠ "")
          (map (λ p, collapseSpaces (trim p)) (cellParagraphs cell)))) ∧
  (∀ text p ps colspan layout,
     let line := collapseSpaces (trim p) in
     let rest := paragraphText (mkCell text ps colspan layout) in
     paragraphText (mkCell text (p :: ps) colspan layout) =
     if String.eqb line "" then rest
     else if String.eqb rest "" then line
     else line +:+ " | " +:+ rest) ∧
  (∀ titlename courtDate st row,
     isDataRow4a st row →
     ∃ claimant defendant st' rec,
       parties4a (map paragraphText row) = Ok (claimant, defendant) ∧
       row4a parseDate titlename courtDate st row = Ok st' ∧
       data st' = data st ++ [rec] ∧
       ClaimNumber rec = default "" (map paragraphText row !! 1%nat) ∧
       Claimant rec = claimant ∧ Defendant rec = defendant ∧
       Duration rec = "Not Provided" ∧ HearingType rec = "Not Provided" ∧
       HearingChannel rec = "Not Provided") ∧
  (∀ pre post, firstBoundary (paragraphText k2) pre post →
     parties4a (map paragraphText [k0; k1; k2]) =
     Ok (orNotProvided (trim pre), orNotProvided (trim post))) ∧
  (noBoundary (paragraphText k2) →
     parties4a (map paragraphText [k0; k1; k2]) =
     Ok (orNotProvided (trim (paragraphText k2)), "Not Provided")) ∧
  parties4a (map paragraphText [k0; k1; k2; k3]) =
    Ok (stripPipes (orNotProvided (paragraphText k2)),
        stripPipes (orNotProvided (paragraphText k3))) ∧
  (∀ s, chars (stripPipes s) = filter (λ c, c ≠ "|"%char) (chars s)) ∧
  scrapeDataFromHtml parseDate Sample.combinedList =
    Ok [mkRecord "Barnet" "" "CL123 | John Smith" "Jane Doe" "Not Provided"
          "Not Provided" "Not Provided" "Not Provided"
          "CourtServe: Barnet County Court"] ∧
  scrapeDataFromHtml parseDate Sample.combinedList' =
    Ok [mkRecord "Barnet" "" "CL123" "John Smith" "Jane Doe"
          "Not Provided" "Not Provided" "Not Provided"
          "CourtServe: Barnet County Court"].
Proof.
  split; [done|]. split; [apply paragraphText_cons|]. split.
  { intros titlename courtDate st row Hrow.
    destruct (row4a_data parseDate titlename courtDate st row Hrow)
      as (claimant & defendant & location & Hparties & _ & Hrun).
    eexists claimant, defendant, _, _. split; [done|].
    split; [exact Hrun|]. by cbn. }
  split; [|split; [|split; [done|split; [|split; vm_compute; reflexivity]]]].
  - intros pre post [Hsplit Hne]%splitAtFirstPipe_first.
    unfold parties4a. cbn [map length Nat.eqb lookup list_lookup].
    rewrite orStr_empty, Hsplit. cbn [mbind result_bind].
    rewrite (proj2 (String.eqb_neq _ _) Hne). done.
  - intros [Hsplit Hne]%splitAtFirstPipe_none.
    unfold parties4a. cbn [map length Nat.eqb lookup list_lookup].
    rewrite orStr_empty, Hsplit. cbn [mbind result_bind].
    rewrite (proj2 (String.eqb_neq _ _) Hne). done.
  - intros s. unfold stripPipes, removeChar. apply chars_str.
Qed.

End Claims.

(** ** The claims on the sample documents *)

Lemma possession_rows_only_witness :
  identifyTemplate Sample.schedule = Some template5 ∧
  ∃ records,
    scrapeDataFromHtml dmyDate Sample.schedule = Ok records ∧
    Forall (λ rec, hasWord "possession" (HearingType rec)) records.
Proof.
  split; [vm_compute; reflexivity|].
  apply (possession_rows_only dmyDate Sample.schedule "" Sample.scheduleTable
           "" "").
  vm_compute; reflexivity.
Defined.

Lemma dedup_first_wins_witness :
  scrapeDataFromHtml dmyDate Sample.schedule = Ok Sample.scheduleRecords ∧
  ∃ produced,
    extractedRows dmyDate Sample.schedule = Ok produced ∧
    Sample.scheduleRecords `sublist_of` produced ∧
    ∀ cn, cn ∈ map ClaimNumber produced →
      ∃ row,
        filter (λ x, ClaimNumber x = cn) Sample.scheduleRecords = [row] ∧
        find (λ x, String.eqb (ClaimNumber x) cn) produced = Some row.
Proof.
  split; [vm_compute; reflexivity|].
  apply (dedup_first_wins dmyDate Sample.schedule Sample.scheduleRecords).
  vm_compute; reflexivity.
Defined.

(** C7, as stated, fails: the extractor of template 7 has no check of the
    placeholder, and the sample list yields a record whose claim number
    is ["PCOL"]. *)
Lemma template7_emits_PCOL :
  identifyTemplate Sample.caseRefList = Some template7 ∧
  ∃ rec,
    scrapeDataFromHtml dmyDate Sample.caseRefList = Ok [rec] ∧
    ClaimNumber rec = "PCOL".
Proof.
  split; [vm_compute; reflexivity|].
  eexists. split; [vm_compute; reflexivity|reflexivity].
Qed.

Lemma template5_never_PCOL_witness :
  (identifyTemplate Sample.schedule = Some template5 ∧
   ∃ records,
     scrapeDataFromHtml dmyDate Sample.schedule = Ok records ∧
     Forall (λ rec, ClaimNumber rec ≠ "PCOL") records) ∧
  (let row := Sample.row ["10:30"; "1 hour"; "PCOL Smith v Jones";
                          "Possession"; "In person"] in
   let st := mkLoop {["startTime" := Int 0]} None [] in
   probeHearingType (cellsText5 row) = Some (Some "Possession") ∧
   caseDetailsOf (cellsText5 row) (Some "Possession") =
     Some "PCOL Smith v Jones" ∧
   firstToken "PCOL Smith v Jones" "PCOL" ∧
   ∃ st', row5 dmyDate "" "" st row = Ok st' ∧ data st' = data st).
Proof.
  assert (Htok : firstToken "PCOL Smith v Jones" "PCOL")
    by (apply head_split_firstToken; vm_compute; reflexivity).
  pose proof (template5_never_PCOL dmyDate "" Sample.scheduleTable "" ""
                Sample.schedule) as (_ & Hdoc & Hskip & _).
  split.
  - split; [vm_compute; reflexivity|]. apply Hdoc. vm_compute; reflexivity.
  - cbv zeta. split; [vm_compute; reflexivity|].
    split; [vm_compute; reflexivity|]. split; [exact Htok|].
    apply (Hskip "" "" _ _ (Some "Possession") "PCOL Smith v Jones");
      [vm_compute; reflexivity|vm_compute; reflexivity|exact Htok].
Defined.

(** C3, as stated, fails at a column span of zero: the span is numeric,
    and the index moves on by one, not by zero. *)
Lemma colspan_zero_counts_as_one :
  let cell := mkCell "Time" ["Time"] (Some "0") false in
  parseInt (cellColspan cell) = Int 0 ∧
  (headerCell assign4a (∅, Int 5) cell).2 = Int 6 ∧
  (headerCell assign4a (∅, Int 5) cell).2 ≠
    addNumber (Int 5) (parseInt (cellColspan cell)).
Proof. vm_compute. repeat split; congruence. Qed.

Lemma combined_header_mapping_witness :
  (normalizeText (cellText (Sample.cell "Claim Number Claimant")) =
     "claim number claimant" ∧
   (headerCell assign4a (∅, Int 1) (Sample.cell "Claim Number Claimant")).1
     !! "claimNumber" = Some (Int 1) ∧
   (headerCell assign4a (∅, Int 1) (Sample.cell "Claim Number Claimant")).1
     !! "claimant" = Some (addNumber (Int 1) (Int 1))) ∧
  (safeInteger (1 + 1) ∧ addNumber (Int 1) (Int 1) = Int (1 + 1)) ∧
  (map (λ c, colspanOf (cellColspan c))
       [Sample.cell "Time"; mkCell "Claim Number Claimant" [] (Some "2") false]
     = map Int [1; 2] ∧
   (∀ k, safeInteger (total (take k [1; 2]))) ∧
   (mapHeaders assign4a
      [Sample.cell "Time"; mkCell "Claim Number Claimant" [] (Some "2") false]
      ∅).2 = Int (total [1; 2])) ∧
  (isHeaderRow template4a (Sample.row ["Time"; "Claim Number Claimant"]) = true ∧
   row4a dmyDate "" "" (mkLoop ∅ None [])
         (Sample.row ["Time"; "Claim Number Claimant"]) =
   Ok (setHeaders
         (mapHeaders assign4a (Sample.row ["Time"; "Claim Number Claimant"])
                     (headersIndex (mkLoop ∅ None []))).1
         (mkLoop ∅ None []))).
Proof.
  assert (Hsafe : ∀ k, safeInteger (total (take k [1; 2]))).
  { intros k. unfold safeInteger.
    destruct k as [|[|[|k]]]; vm_compute; split; discriminate. }
  pose proof (combined_header_mapping dmyDate
                (Sample.cell "Claim Number Claimant") ∅ (Int 1))
    as (Hmap & _ & Hadd & _ & _ & _ & _ & _ & _ & Hsum & Hrow & _).
  split; [split; [vm_compute; reflexivity|apply Hmap; vm_compute; reflexivity]|].
  split; [split; [vm_compute; split; discriminate|
                  apply Hadd; [reflexivity|vm_compute; split; discriminate]]|].
  split; [split; [vm_compute; reflexivity|split; [exact Hsafe|
            apply Hsum; [vm_compute; reflexivity|exact Hsafe]]]|].
  split; [vm_compute; reflexivity|apply Hrow; vm_compute; reflexivity].
Defined.

Lemma formatCourtDate_examples_witness :
  dmyDate "18 October 2024" = Some (mkDate 2024 9 18) ∧
  dmyDate "15 November 2024" = Some (mkDate 2024 10 15) ∧
  dmyDate "Tuesday" = None ∧
  formatCourtDate5 dmyDate "Tuesday, 18th October 2024" = "18/10/2024" ∧
  formatCourtDate5 dmyDate "15th November 2024" = "15/11/2024" ∧
  formatCourtDate dmyDate "Tuesday, 18th October 2024" = "18/10/2024" ∧
  formatCourtDate dmyDate "15th November 2024" = "".
Proof.
  split; [vm_compute; reflexivity|].
  split; [vm_compute; reflexivity|].
  split; [vm_compute; reflexivity|].
  apply (formatCourtDate_examples dmyDate); vm_compute; reflexivity.
Defined.

(** C6, as stated, fails: "Smith Only" holds no separator, "versus"
    included, and both splitters return "Not Provided" for the claimant,
    not the trimmed input. *)
Lemma no_separator_not_provided :
  ¬ hasSeparator ["v"; "vs"; "-v-"; "-vs-"; "versus"] "Smith Only" ∧
  parties5 "Smith Only" = Ok ("Not Provided", "Not Provided") ∧
  parties7 (Some "Smith Only") = Ok ("Not Provided", "Not Provided") ∧
  trim "Smith Only" ≠ "Not Provided".
Proof.
  split; [apply no_separator; vm_compute; reflexivity|].
  split; [vm_compute; reflexivity|].
  split; [vm_compute; reflexivity|].
  vm_compute. congruence.
Qed.

Lemma splitter_without_separator_witness :
  ¬ hasSeparator ["v"; "vs"; "-v-"; "-vs-"] "Smith Only" ∧
  parties5 "Smith Only" = Ok ("Not Provided", "Not Provided").
Proof.
  split; [apply no_separator; vm_compute; reflexivity|].
  apply (proj1 (splitter_without_separator "Smith Only")).
  apply no_separator; vm_compute; reflexivity.
Defined.

Lemma case_ref_wins_witness :
  hasWords "case" "ref" (docBodyText Sample.bothLayouts) ∧
  hasWords "case" "name" (docBodyText Sample.bothLayouts) ∧
  identifyTemplate Sample.bothLayouts = Some template7.
Proof.
  assert (Href : hasWords "case" "ref" (docBodyText Sample.bothLayouts))
    by (apply test_words; vm_compute; reflexivity).
  assert (Hname : hasWords "case" "name" (docBodyText Sample.bothLayouts))
    by (apply test_words; vm_compute; reflexivity).
  split; [assumption|]. split; [assumption|].
  apply (case_ref_wins Sample.bothLayouts); assumption.
Defined.

(** C4, as stated, fails on its own example: the second cell as a whole
    is the claim number, and the third cell, which holds no " | ", gives
    the claimant and no defendant. *)
Lemma scenario_claim_number_keeps_claimant :
  identifyTemplate Sample.combinedList = Some template4a ∧
  ∃ rec,
    scrapeDataFromHtml dmyDate Sample.combinedList = Ok [rec] ∧
    ClaimNumber rec = "CL123 | John Smith" ∧ ClaimNumber rec ≠ "CL123" ∧
    Claimant rec = "Jane Doe" ∧ Claimant rec ≠ "John Smith" ∧
    Defendant rec = "Not Provided" ∧ Defendant rec ≠ "Jane Doe".
Proof.
  split; [vm_compute; reflexivity|].
  eexists. split; [vm_compute; reflexivity|].
  cbn. repeat split; congruence.
Qed.

Lemma combined_row_parties_witness :
  (firstBoundary
     (paragraphText (mkCell "" ["John Smith"; "Jane Doe"] None false))
     "John Smith" "Jane Doe" ∧
   parties4a (map paragraphText
                [Sample.cell "09:00"; Sample.cell "CL123";
                 mkCell "" ["John Smith"; "Jane Doe"] None false]) =
   Ok (orNotProvided (trim "John Smith"), orNotProvided (trim "Jane Doe"))) ∧
  (noBoundary (paragraphText (Sample.cell "Jane Doe")) ∧
   parties4a (map paragraphText
                [Sample.cell "09:00"; Sample.cell "CL123";
                 Sample.cell "Jane Doe"]) =
   Ok (orNotProvided (trim (paragraphText (Sample.cell "Jane Doe"))),
       "Not Provided")) ∧
  (let st := mkLoop {["time" := Int 0]} None [] in
   let row := [Sample.cell "09:00"; Sample.cell "CL123";
               Sample.cell "Smith"; Sample.cell "Jones"] in
   isDataRow4a st row ∧
   ∃ claimant defendant st' rec,
     parties4a (map paragraphText row) = Ok (claimant, defendant) ∧
     row4a dmyDate "" "" st row = Ok st' ∧
     data st' = data st ++ [rec] ∧
     ClaimNumber rec = default "" (map paragraphText row !! 1%nat) ∧
     Claimant rec = claimant ∧ Defendant rec = defendant ∧
     Duration rec = "Not Provided" ∧ HearingType rec = "Not Provided" ∧
     HearingChannel rec = "Not Provided").
Proof.
  assert (Hfirst : firstBoundary
            (paragraphText (mkCell "" ["John Smith"; "Jane Doe"] None false))
            "John Smith" "Jane Doe")
    by (apply (firstBoundary_check "John Smith" "Jane Doe");
        vm_compute; reflexivity).
  assert (Hnone : noBoundary (paragraphText (Sample.cell "Jane Doe")))
    by (apply noBoundary_check; vm_compute; reflexivity).
  assert (Hrow : isDataRow4a (mkLoop {["time" := Int 0]} None [])
                   [Sample.cell "09:00"; Sample.cell "CL123";
                    Sample.cell "Smith"; Sample.cell "Jones"]).
  { split; [vm_compute; reflexivity|]. split; [vm_compute; reflexivity|].
    split; [cbn; lia|]. intros Hall. apply Forall_cons in Hall as [Hall _].
    vm_compute in Hall. discriminate. }
  pose proof (combined_row_parties dmyDate
                (Sample.cell "09:00") (Sample.cell "CL123")
                (mkCell "" ["John Smith"; "Jane Doe"] None false)
                (Sample.cell "")) as (_ & _ & Hrows & Hsplit & _).
  pose proof (combined_row_parties dmyDate
                (Sample.cell "09:00") (Sample.cell "CL123")
                (Sample.cell "Jane Doe") (Sample.cell ""))
    as (_ & _ & _ & _ & Hwhole & _).
  split; [split; [assumption|]|split; [split; [assumption|]|]].
  - apply Hsplit. exact Hfirst.
  - apply Hwhole. exact Hnone.
  - cbv zeta. split; [exact Hrow|]. apply Hrows. exact Hrow.
Defined.

Lemma courtName_from_title_only_witness :
  let title := "CourtServe: Leeds County Court" in
  courtTitle (trim title) [] (chars "CourtServe:") (chars " Leeds ")
             (chars "County Court") [] ∧
  onlyAt "CourtServe:" (chars (trim title)) (length (@nil ascii)) ∧
  onlyAt "County Court" (chars (trim title))
         (length ([] ++ chars "CourtServe:" ++ chars " Leeds ")) ∧
  extractCourtLocation (trim title) = Ok (Some (trim (str (chars " Leeds ")))) ∧
  ∃ recs,
    extractData dmyDate template5 title Sample.scheduleTable "" "" = Ok recs ∧
    Forall (λ rec, CourtName rec = trim (str (chars " Leeds "))) recs.
Proof.
  cbv zeta.
  assert (Ht : courtTitle (trim "CourtServe: Leeds County Court") []
                 (chars "CourtServe:") (chars " Leeds ")
                 (chars "County Court") []).
  { split; [vm_compute; reflexivity|]. split; [reflexivity|].
    split; [reflexivity|].
    exists [" "%char], (chars "Leeds"), [" "%char].
    split; [reflexivity|]. split; [by repeat constructor|].
    split; by repeat constructor. }
  assert (H1 : onlyAt "CourtServe:"
                 (chars (trim "CourtServe: Leeds County Court"))
                 (length (@nil ascii)))
    by (apply onlyAt_check; vm_compute; reflexivity).
  assert (H2 : onlyAt "County Court"
                 (chars (trim "CourtServe: Leeds County Court"))
                 (length ([] ++ chars "CourtServe:" ++ chars " Leeds ")))
    by (apply onlyAt_check; vm_compute; reflexivity).
  split; [exact Ht|]. split; [exact H1|]. split; [exact H2|].
  pose proof (courtName_from_title_only dmyDate template5
                "CourtServe: Leeds County Court" Sample.scheduleTable
                "" "" "") as (_ & _ & _ & _ & Honly & _).
  exact (Honly _ _ _ _ _ Ht H1 H2).
Defined.
